(** * The compat harness pipeline: normalisation, diff and classification

    A shallow embedding of [scripts/compat-harness.py] (SwiftMTP <-> libmtp
    compatibility harness): the normalisers [_normalise_device],
    [_normalise_files] and [_flatten_tree], the diff engine [_diff_device]
    and [_diff_files], the expectation overlay [_classify_diffs], the
    summary [_summary_counts], the subprocess helper [_run] with the
    runners [LibmtpRunner] and [SwiftMTPRunner], and [main] from the tool
    runs to the exit code.

    The harness works on JSON/YAML shaped Python values.  They are modelled
    by the type [pyval]; Python exceptions by the error side of [res].  A
    Python [str] is modelled by its UTF-8 encoding: equality, concatenation,
    prefixes and the order of code points are those of the bytes, and the
    operations that count characters ([len], slices, iteration) count the
    characters of the encoding.

    Floating point numbers are not part of the model: [nan != nan], while a
    container that holds one and the same [nan] object is equal to itself,
    so that equality of floats rests on the identity of objects, which a
    value model does not have.  The statements below are about records and
    overlays without floats (integers, booleans, strings, [None], lists and
    dicts of these). *)

From Stdlib Require Import List String Ascii ZArith Bool Lia Permutation Sorted.
From Stdlib Require Import DecimalString.
Import ListNotations.

Local Open Scope string_scope.
Local Open Scope Z_scope.

Set Warnings "-register-all,-notation-for-abbreviation".

(* ===================================================================== *)
(** ** Python values *)
(* ===================================================================== *)

Module Py.

(** A JSON shaped Python object.  A [dict] keeps its insertion order, its
    keys are strings (JSON objects, YAML mappings with plain keys). *)
Inductive pyval : Type :=
| PNone
| PBool (b : bool)
| PInt (n : Z)
| PStr (s : string)
| PList (l : list pyval)
| PDict (d : list (string * pyval)).

Definition pydict : Type := list (string * pyval).

(** The exceptions the modelled code can raise. *)
Inductive exn : Type :=
| TypeError
| AttributeError
| KeyError
| ValueError.

(** The error monad: [Raise e] is a Python exception propagating out of the
    function. *)
Inductive res (A : Type) : Type :=
| Ok (a : A)
| Raise (e : exn).

Arguments Ok {A} a.
Arguments Raise {A} e.

Definition bind {A B : Type} (m : res A) (k : A -> res B) : res B :=
  match m with
  | Ok a => k a
  | Raise e => Raise e
  end.

Notation "x <- m ;; k" := (bind m (fun x => k))
  (at level 61, m at next level, right associativity).
Notation "' pat <- m ;; k" := (bind m (fun x => match x with pat => k end))
  (at level 61, pat pattern, m at next level, right associativity).

(** [for x in l: acc = body(acc, x)] *)
Fixpoint for_each {A S : Type} (body : S -> A -> res S) (l : list A) (acc : S)
  : res S :=
  match l with
  | [] => Ok acc
  | x :: rest => acc' <- body acc x ;; for_each body rest acc'
  end.

(** [[f(x) for x in l]] *)
Fixpoint map_res {A B : Type} (f : A -> res B) (l : list A) : res (list B) :=
  match l with
  | [] => Ok []
  | x :: rest => y <- f x ;; ys <- map_res f rest ;; Ok (y :: ys)
  end.

(** *** Truth value, equality, order *)

(** [bool(v)] *)
Definition truthy (v : pyval) : bool :=
  match v with
  | PNone => false
  | PBool b => b
  | PInt n => negb (n =? 0)
  | PStr s => negb (s =? "")%string
  | PList l => match l with [] => false | _ => true end
  | PDict d => match d with [] => false | _ => true end
  end.

(** [d.get(k)] on the association list of a dict: the first binding. *)
Fixpoint dict_get (k : string) (d : pydict) : option pyval :=
  match d with
  | [] => None
  | (k', v) :: rest => if (k =? k')%string then Some v else dict_get k rest
  end.

(** [d[k] = v]: an existing key keeps its place, a new key goes last. *)
Fixpoint dict_set (k : string) (v : pyval) (d : pydict) : pydict :=
  match d with
  | [] => [(k, v)]
  | (k', v') :: rest =>
      if (k =? k')%string then (k', v) :: rest else (k', v') :: dict_set k v rest
  end.

Definition dict_keys (d : pydict) : list string := map fst d.

(** [a == b].  [bool] is a subclass of [int] ([True == 1]); dicts compare
    without regard to order. *)
Fixpoint py_eq (a b : pyval) {struct a} : bool :=
  match a, b with
  | PNone, PNone => true
  | PBool x, PBool y => Bool.eqb x y
  | PBool x, PInt y => Z.b2z x =? y
  | PInt x, PBool y => x =? Z.b2z y
  | PInt x, PInt y => x =? y
  | PStr x, PStr y => (x =? y)%string
  | PList x, PList y =>
      (fix list_eq (x y : list pyval) {struct x} : bool :=
         match x, y with
         | [], [] => true
         | u :: x', v :: y' => py_eq u v && list_eq x' y'
         | _, _ => false
         end) x y
  | PDict x, PDict y =>
      (List.length x =? List.length y)%nat &&
      (fix dict_sub (x : pydict) {struct x} : bool :=
         match x with
         | [] => true
         | (k, u) :: x' =>
             match dict_get k y with
             | Some v => py_eq u v
             | None => false
             end && dict_sub x'
         end) x
  | _, _ => false
  end.

(** [a < b], as [sorted] uses it.  Numbers compare with numbers, strings
    with strings (code point order, which is byte order in UTF-8), lists
    lexicographically; any other pair raises [TypeError]. *)
Fixpoint py_lt (a b : pyval) {struct a} : res bool :=
  match a, b with
  | PBool x, PBool y => Ok (Z.b2z x <? Z.b2z y)
  | PBool x, PInt y => Ok (Z.b2z x <? y)
  | PInt x, PBool y => Ok (x <? Z.b2z y)
  | PInt x, PInt y => Ok (x <? y)
  | PStr x, PStr y => Ok (x <? y)%string
  | PList x, PList y =>
      (fix list_lt (x y : list pyval) {struct x} : res bool :=
         match x, y with
         | [], [] => Ok false
         | [], _ :: _ => Ok true
         | _ :: _, [] => Ok false
         | u :: x', v :: y' => if py_eq u v then list_lt x' y' else py_lt u v
         end) x y
  | _, _ => Raise TypeError
  end.

(** [hash(v)]: lists and dicts cannot be dict keys or set members. *)
Definition hashable (v : pyval) : bool :=
  match v with
  | PList _ | PDict _ => false
  | _ => true
  end.

Definition check_hashable (v : pyval) : res unit :=
  if hashable v then Ok tt else Raise TypeError.

(** *** Text *)

Definition str_of_Z (n : Z) : string := NilZero.string_of_int (Z.to_int n).

Fixpoint join (sep : string) (l : list string) : string :=
  match l with
  | [] => ""
  | [s] => s
  | s :: rest => s ++ sep ++ join sep rest
  end.

(** [repr(v)].  The text of a string is put between single quotes as it
    is, which is Python's [repr] for printable text without quotes and
    backslashes. *)
Fixpoint py_repr (v : pyval) : string :=
  match v with
  | PNone => "None"
  | PBool true => "True"
  | PBool false => "False"
  | PInt n => str_of_Z n
  | PStr s => "'" ++ s ++ "'"
  | PList l => "[" ++ join ", " (map py_repr l) ++ "]"
  | PDict d =>
      "{" ++ join ", " (map (fun kv => "'" ++ fst kv ++ "': " ++ py_repr (snd kv)) d)
          ++ "}"
  end.

(** [str(v)], which is what an f-string field [{v}] inserts. *)
Definition py_str (v : pyval) : string :=
  match v with
  | PStr s => s
  | _ => py_repr v
  end.

(** A byte that continues a character of the UTF-8 encoding. *)
Definition is_continuation (c : ascii) : bool :=
  let n := nat_of_ascii c in
  ((128 <=? n) && (n <=? 191))%nat.

(** [s[:n]]: the first [n] characters of the text. *)
Fixpoint take_chars (n : nat) (s : string) : string :=
  match s with
  | EmptyString => EmptyString
  | String c rest =>
      if is_continuation c then String c (take_chars n rest)
      else
        match n with
        | O => EmptyString
        | S n' => String c (take_chars n' rest)
        end
  end.

(** The characters of a text, and in front of them the continuation bytes
    that wait for their first byte. *)
Fixpoint chars_from (s : string) : string * list string :=
  match s with
  | EmptyString => (EmptyString, [])
  | String c rest =>
      let (pending, cs) := chars_from rest in
      if is_continuation c then (String c pending, cs)
      else (EmptyString, String c pending :: cs)
  end.

(** [list(s)]: the characters of a text. *)
Definition chars (s : string) : list string :=
  match chars_from s with
  | (EmptyString, cs) => cs
  | (pending, cs) => pending :: cs
  end.

(** [int(v)].  On a string the conversion rests on the Unicode database
    (white space and decimal digits of every script count) and on the
    interpreter's limit on the number of digits: [int_of_str] is that
    conversion, [None] where it raises [ValueError]. *)
Definition py_int (int_of_str : string -> option Z) (v : pyval) : res Z :=
  match v with
  | PInt n => Ok n
  | PBool b => Ok (Z.b2z b)
  | PStr s => match int_of_str s with Some n => Ok n | None => Raise ValueError end
  | _ => Raise TypeError
  end.

(** [a - b] on numbers. *)
Definition py_sub (a b : pyval) : res Z :=
  match a, b with
  | PInt x, PInt y => Ok (x - y)
  | PInt x, PBool y => Ok (x - Z.b2z y)
  | PBool x, PInt y => Ok (Z.b2z x - y)
  | PBool x, PBool y => Ok (Z.b2z x - Z.b2z y)
  | _, _ => Raise TypeError
  end.

(** *** Access *)

(** [v.get(k, default)]: only a dict has the method. *)
Definition py_get (v : pyval) (k : string) (default : pyval) : res pyval :=
  match v with
  | PDict d => Ok (match dict_get k d with Some x => x | None => default end)
  | _ => Raise AttributeError
  end.

(** [v[0]] for a value that passed a truth test.  A dict has no key [0]
    (its keys are strings). *)
Definition py_index0 (v : pyval) : res pyval :=
  match v with
  | PList (x :: _) => Ok x
  | PStr s => match chars s with c :: _ => Ok (PStr c) | [] => Raise TypeError end
  | PDict _ => Raise KeyError
  | _ => Raise TypeError
  end.

(** The items a [for] loop visits: the members of a list, the characters
    of a string, the keys of a dict. *)
Definition py_iter (v : pyval) : res (list pyval) :=
  match v with
  | PList l => Ok l
  | PStr s => Ok (map PStr (chars s))
  | PDict d => Ok (map (fun kv => PStr (fst kv)) d)
  | _ => Raise TypeError
  end.

(** *** Dicts with arbitrary hashable keys

    Insertion ordered; a key is found with [==], as the hash table does. *)
Definition amap (V : Type) : Type := list (pyval * V).

Fixpoint amap_get {V : Type} (k : pyval) (m : amap V) : option V :=
  match m with
  | [] => None
  | (k', v) :: rest => if py_eq k k' then Some v else amap_get k rest
  end.

(** [m[k] = v]: the key already stored keeps its place (and its identity),
    a new key goes last. *)
Fixpoint amap_set {V : Type} (k : pyval) (v : V) (m : amap V) : amap V :=
  match m with
  | [] => [(k, v)]
  | (k', v') :: rest =>
      if py_eq k k' then (k', v) :: rest else (k', v') :: amap_set k v rest
  end.

Definition amap_keys {V : Type} (m : amap V) : list pyval := map fst m.

(** [m.get(k, default)] *)
Definition map_get {V : Type} (m : amap V) (k : pyval) (default : V) : res V :=
  _ <- check_hashable k ;;
  Ok (match amap_get k m with Some v => v | None => default end).

(** [m[k] = v] *)
Definition map_set {V : Type} (m : amap V) (k : pyval) (v : V) : res (amap V) :=
  _ <- check_hashable k ;;
  Ok (amap_set k v m).

(** [{**a, **b}] *)
Definition amap_merge {V : Type} (a b : amap V) : amap V :=
  fold_left (fun m kv => amap_set (fst kv) (snd kv) m) b a.

(** [set(a) | set(b)], members listed in order of first appearance (the
    order a set is visited in only shows in [sorted] between keys that are
    equal, such as [1] and [True]). *)
Definition key_union (a b : list pyval) : list pyval :=
  a ++ filter (fun k => negb (existsb (py_eq k) a)) b.

(** *** sorted

    [sorted(l, key=f)] computes every key first, then sorts with [<] only
    and keeps the order of items with equal keys.  The model is a stable
    insertion sort; it raises [TypeError] when a comparison it makes does. *)
Fixpoint insert_by_key {A : Type} (kx : pyval) (x : A) (l : list (pyval * A))
  : res (list (pyval * A)) :=
  match l with
  | [] => Ok [(kx, x)]
  | (ky, y) :: rest =>
      lt <- py_lt ky kx ;;
      if lt then (r <- insert_by_key kx x rest ;; Ok ((ky, y) :: r))
      else Ok ((kx, x) :: (ky, y) :: rest)
  end.

Fixpoint sort_keyed {A : Type} (l : list (pyval * A)) : res (list (pyval * A)) :=
  match l with
  | [] => Ok []
  | (kx, x) :: rest => s <- sort_keyed rest ;; insert_by_key kx x s
  end.

Definition sorted_by {A : Type} (key : A -> res pyval) (l : list A) : res (list A) :=
  keyed <- map_res (fun x => k <- key x ;; Ok (k, x)) l ;;
  s <- sort_keyed keyed ;;
  Ok (map snd s).

(** [sorted(l)] *)
Definition sorted (l : list pyval) : res (list pyval) :=
  sorted_by (fun k => Ok k) l.

(** [sorted] of a set of strings never raises. *)
Fixpoint insert_str (x : string) (l : list string) : list string :=
  match l with
  | [] => [x]
  | y :: rest => if (y <? x)%string then y :: insert_str x rest else x :: y :: rest
  end.

Definition sorted_str (l : list string) : list string :=
  fold_right insert_str [] l.

(** [set(a) | set(b)] for the keys of two dicts. *)
Definition str_union (a b : list string) : list string :=
  nodup string_dec (a ++ b).

End Py.

Import Py.

(* ===================================================================== *)
(** ** Constants *)
(* ===================================================================== *)

Definition LABEL_BUG_SWIFTMTP : string := "bug_swiftmtp".
Definition LABEL_BUG_LIBMTP : string := "bug_libmtp".
Definition LABEL_INTENTIONAL : string := "intentional".
Definition LABEL_QUIRK_NEEDED : string := "quirk_needed".
Definition LABEL_UNKNOWN : string := "unknown".

Definition _ALL_LABELS : list string :=
  [LABEL_BUG_SWIFTMTP; LABEL_BUG_LIBMTP; LABEL_INTENTIONAL; LABEL_QUIRK_NEEDED;
   LABEL_UNKNOWN].

(* ===================================================================== *)
(** ** Normalisation *)
(* ===================================================================== *)

(** [v.get(k, default)] once [v] is known to be a dict. *)
Definition get_or (d : pydict) (k : string) (default : pyval) : pyval :=
  match dict_get k d with
  | Some v => v
  | None => default
  end.

(** The key of the two [sorted] calls on storages:
    [lambda s: s.get("description", "")]. *)
Definition storage_key (s : pydict) : res pyval :=
  Ok (get_or s "description" (PStr "")).

(** One element of the list comprehension of [_norm_lib]. *)
Definition lib_storage (s : pyval) : res pydict :=
  description <- py_get s "description" (PStr "") ;;
  capacity_bytes <- py_get s "capacity_bytes" (PInt 0) ;;
  (* free_bytes intentionally excluded *)
  Ok [("description", description); ("capacity_bytes", capacity_bytes)].

Definition _norm_lib (d : pyval) : res pydict :=
  devices <- py_get d "devices" (PList []) ;;
  dev <- (if truthy devices then py_index0 devices else Ok (PDict [])) ;;
  raw_storages <- py_get dev "storages" (PList []) ;;
  each <- py_iter raw_storages ;;
  unsorted <- map_res lib_storage each ;;
  storages <- sorted_by storage_key unsorted ;;
  manufacturer <- py_get dev "manufacturer" (PStr "") ;;
  model <- py_get dev "model" (PStr "") ;;
  firmware <- py_get dev "firmware" (PStr "") ;;
  friendly_name <- py_get dev "friendly_name" (PStr "") ;;
  (* serial omitted *)
  Ok [("manufacturer", manufacturer);
      ("model", model);
      ("firmware", firmware);
      ("friendly_name", friendly_name);
      ("storages", PList (map PDict storages))].

(** One element of the list comprehension of [_norm_swift]. *)
Definition swift_storage (s : pyval) : res pydict :=
  name <- py_get s "name" (PStr "") ;;
  description <- py_get s "description" name ;;
  capacity_bytes <- py_get s "capacity_bytes" (PInt 0) ;;
  capacityBytes <- py_get s "capacityBytes" capacity_bytes ;;
  Ok [("description", description); ("capacity_bytes", capacityBytes)].

Definition _norm_swift (d : pyval) : res pydict :=
  dev <- py_get d "device" d ;;
  raw_storages <- py_get dev "storages" (PList []) ;;
  each <- py_iter raw_storages ;;
  unsorted <- map_res swift_storage each ;;
  storages <- sorted_by storage_key unsorted ;;
  manufacturer <- py_get dev "manufacturer" (PStr "") ;;
  friendlyName <- py_get dev "friendlyName" (PStr "") ;;
  model <- py_get dev "model" friendlyName ;;
  firmware <- py_get dev "firmware" (PStr "") ;;
  firmwareVersion <- py_get dev "firmwareVersion" firmware ;;
  friendly_name <- py_get dev "friendly_name" (PStr "") ;;
  friendlyName' <- py_get dev "friendlyName" friendly_name ;;
  Ok [("manufacturer", manufacturer);
      ("model", model);
      ("firmware", firmwareVersion);
      ("friendly_name", friendlyName');
      ("storages", PList (map PDict storages))].

Definition _normalise_device (libmtp_detect swiftmtp_probe : pyval)
  : res (pydict * pydict) :=
  norm_lib <- _norm_lib libmtp_detect ;;
  norm_swift <- _norm_swift swiftmtp_probe ;;
  Ok (norm_lib, norm_swift).

(** [f"{prefix}/{name}" if prefix else name] *)
Definition join_path (prefix name : pyval) : pyval :=
  if truthy prefix then PStr (py_str prefix ++ "/" ++ py_str name) else name.

(** [_flatten_tree(items, prefix)], the list of what the generator yields.
    The recursive call on [item.get("children", [])] is written as a search
    of the dict for the key, so that the recursion is structural; see
    [_flatten_tree_cons] for the equation in the shape of the source. *)
Fixpoint _flatten_tree (items : pyval) (prefix : pyval) {struct items}
  : res (list pydict) :=
  match items with
  | PList l =>
      (fix each (l : list pyval) : res (list pydict) :=
         match l with
         | [] => Ok []
         | item :: rest =>
             match item with
             | PDict d =>
                 let name := get_or d "name" (PStr "") in
                 let path := join_path prefix name in
                 if py_eq (get_or d "type" PNone) (PStr "folder") then
                   sub <- (fix children (d' : pydict) : res (list pydict) :=
                             match d' with
                             | [] => Ok []
                             | (k, v) :: d'' =>
                                 if ("children" =? k)%string
                                 then _flatten_tree v path
                                 else children d''
                             end) d ;;
                   more <- each rest ;;
                   Ok (sub ++ more)%list
                 else
                   more <- each rest ;;
                   Ok (dict_set "path" path d :: more)
             | _ => Raise AttributeError
             end
         end) l
  | _ => Ok []
  end.

Section Normalise_files.

(** [_parse_iso_or_ctime] rests on [datetime.strptime] and
    [datetime.fromisoformat] of the Python library; the normaliser is
    stated for any such parser of a date string into a Unix timestamp. *)
Variable _parse_iso_or_ctime : string -> option Z.

(** The body of the loop that fills [folder_map]. *)
Definition add_folder (folder_map : amap pyval) (folder : pyval)
  : res (amap pyval) :=
  fid <- py_get folder "id" (PInt 0) ;;
  parent_id <- py_get folder "parent_id" (PInt 0) ;;
  parent <- map_get folder_map parent_id (PStr "") ;;
  name <- py_get folder "name" (PStr (py_str fid)) ;;
  map_set folder_map fid (join_path parent name).

(** The id to absolute path map built from the libmtp folder list. *)
Definition build_folder_map (libmtp_folders : list pyval) : res (amap pyval) :=
  ordered <- sorted_by (fun f => py_get f "id" (PInt 0)) libmtp_folders ;;
  for_each add_folder ordered [(PInt 0, PStr "")].

(** The key of the two [sorted] calls on file entries: [lambda x: x["path"]]. *)
Definition entry_path (x : pydict) : res pyval :=
  match dict_get "path" x with
  | Some p => Ok p
  | None => Raise KeyError
  end.

(** The body of the loop of [_lib_files].  The first [f.get] raises
    [AttributeError] when [f] is not a dict. *)
Definition lib_entry (folder_map : amap pyval) (f : pyval) : res pydict :=
  match f with
  | PDict fd =>
      parent_path <- map_get folder_map (get_or fd "parent_id" (PInt 0)) (PStr "") ;;
      let name := get_or fd "name" (PStr "") in
      let path := join_path parent_path name in
      let entry := [("path", path); ("size_bytes", get_or fd "size_bytes" (PInt 0))] in
      Ok (match dict_get "mtime" fd with
          | Some mtime => dict_set "mtime" mtime entry      (* "mtime" in f *)
          | None => entry
          end)
  | _ => Raise AttributeError
  end.

Definition _lib_files (folder_map : amap pyval) (libmtp_files : list pyval)
  : res (list pydict) :=
  out <- map_res (lib_entry folder_map) libmtp_files ;;
  sorted_by entry_path out.

(** The body of the loop of [_swift_files]. *)
Definition swift_entry (item : pydict) : pydict :=
  let entry :=
    [("path", get_or item "path" (get_or item "name" (PStr "")));
     ("size_bytes", get_or item "sizeBytes" (get_or item "size_bytes" (PInt 0)))] in
  let raw_mtime := get_or item "modificationDate" (get_or item "mtime" PNone) in
  match raw_mtime with
  | PInt n => dict_set "mtime" (PInt n) entry
  | PBool b => dict_set "mtime" (PInt (Z.b2z b)) entry
  | PStr s =>
      match _parse_iso_or_ctime s with
      | Some ts => dict_set "mtime" (PInt ts) entry
      | None => entry
      end
  | _ => entry
  end.

Definition swift_items (swiftmtp_ls : pyval) : pyval :=
  match swiftmtp_ls with
  | PList _ => swiftmtp_ls
  | PDict d => get_or d "items" (PList [])
  | _ => PList []
  end.

Definition _swift_files (swiftmtp_ls : pyval) : res (list pydict) :=
  flat <- _flatten_tree (swift_items swiftmtp_ls) (PStr "") ;;
  sorted_by entry_path (map swift_entry flat).

Definition _normalise_files (libmtp_files libmtp_folders : list pyval)
  (swiftmtp_ls : pyval) : res (list pydict * list pydict) :=
  folder_map <- build_folder_map libmtp_folders ;;
  lib <- _lib_files folder_map libmtp_files ;;
  swift <- _swift_files swiftmtp_ls ;;
  Ok (lib, swift).

End Normalise_files.

(* ===================================================================== *)
(** ** Diff engine *)
(* ===================================================================== *)

(** A single normalised difference between the two toolchains.  [PNone] in
    [libmtp_val] or [swiftmtp_val] is the absent marker. *)
Record DiffEntry : Type := mkDiffEntry {
  key : string;
  libmtp_val : pyval;
  swiftmtp_val : pyval;
  label : pyval;
  reason : pyval
}.

(** [DiffEntry(key, libmtp_val, swiftmtp_val)] with the default label and
    reason. *)
Definition new_DiffEntry (k : string) (a b : pyval) : DiffEntry :=
  mkDiffEntry k a b (PStr LABEL_UNKNOWN) (PStr "").

(** [d.get(k)] *)
Definition get_none (d : pydict) (k : string) : pyval := get_or d k PNone.

(** The body of the loop of [_diff_device]. *)
Definition diff_device_key (norm_lib norm_swift : pydict) (k : string)
  : list DiffEntry :=
  let a := get_none norm_lib k in
  let b := get_none norm_swift k in
  if negb (py_eq a b) then [new_DiffEntry ("device." ++ k) a b] else [].

Definition _diff_device (norm_lib norm_swift : pydict) : list DiffEntry :=
  flat_map (diff_device_key norm_lib norm_swift)
    (sorted_str (str_union (dict_keys norm_lib) (dict_keys norm_swift))).

(** [{f["path"]: f for f in files}] *)
Definition path_map (files : list pydict) : res (amap pydict) :=
  for_each
    (fun m f =>
       match dict_get "path" f with
       | Some p => map_set m p f
       | None => Raise KeyError
       end)
    files [].

Definition is_none (v : pyval) : bool :=
  match v with
  | PNone => true
  | _ => false
  end.

(** [m.get(path)] as a Python value: the record, or [None]. *)
Definition record_or_none (o : option pydict) : pyval :=
  match o with
  | Some d => PDict d
  | None => PNone
  end.

(** The mtime comparison of [_diff_files]. *)
Definition diff_mtime (path : pyval) (a b : pydict) (ts_tol : Z)
  : res (list DiffEntry) :=
  let a_mt := get_none a "mtime" in
  let b_mt := get_none b "mtime" in
  if negb (is_none a_mt) && negb (is_none b_mt) then
    delta <- py_sub a_mt b_mt ;;
    if Z.abs delta >? ts_tol
    then Ok [new_DiffEntry ("file." ++ py_str path ++ ".mtime") a_mt b_mt]
    else Ok []
  else Ok [].

(** The size comparison of [_diff_files]. *)
Definition diff_size (path : pyval) (a b : pydict) : list DiffEntry :=
  if negb (py_eq (get_none a "size_bytes") (get_none b "size_bytes")) then
    [new_DiffEntry ("file." ++ py_str path ++ ".size_bytes")
       (get_none a "size_bytes") (get_none b "size_bytes")]
  else [].

(** The body of the loop of [_diff_files]. *)
Definition diff_path (lib_map swift_map : amap pydict) (ts_tol : Z) (path : pyval)
  : res (list DiffEntry) :=
  match amap_get path lib_map, amap_get path swift_map with
  | None, b => Ok [new_DiffEntry ("file." ++ py_str path) PNone (record_or_none b)]
  | Some a, None => Ok [new_DiffEntry ("file." ++ py_str path) (PDict a) PNone]
  | Some a, Some b =>
      mt <- diff_mtime path a b ts_tol ;;
      Ok (diff_size path a b ++ mt)%list
  end.

Definition _diff_files (lib_files swift_files : list pydict) (ts_tol : Z)
  : res (list DiffEntry) :=
  lib_map <- path_map lib_files ;;
  swift_map <- path_map swift_files ;;
  paths <- sorted (key_union (amap_keys lib_map) (amap_keys swift_map)) ;;
  parts <- map_res (diff_path lib_map swift_map ts_tol) paths ;;
  Ok (List.concat parts).

(* ===================================================================== *)
(** ** Expectation overlay: classification *)
(* ===================================================================== *)

(** [section_label_map.get(section)] *)
Definition section_label_map (section : string) : pyval :=
  if (section =? "intentional_differences")%string then PStr LABEL_INTENTIONAL
  else if (section =? "quirk_needed")%string then PStr LABEL_QUIRK_NEEDED
  else PNone.

(** [x or default] *)
Definition py_or (x default : pyval) : pyval :=
  if truthy x then x else default.

(** The body of the loop of [_build_map]. *)
Definition build_entry (implied : pyval) (result : amap (pyval * pyval))
  (entry : pyval) : res (amap (pyval * pyval)) :=
  k <- py_get entry "key" (PStr "") ;;
  rsn <- py_get entry "reason" (PStr "") ;;
  l <- py_get entry "label" implied ;;
  let lbl := py_or l (PStr LABEL_UNKNOWN) in
  if truthy k then map_set result k (lbl, rsn) else Ok result.

(** [{key_pattern: (label, reason)}] for a named section. *)
Definition _build_map (expectations : pyval) (section : string)
  : res (amap (pyval * pyval)) :=
  let implied := section_label_map section in
  raw <- py_get expectations section (PList []) ;;
  entries <- py_iter raw ;;
  for_each (build_entry implied) entries [].

(** [diff.key == pattern or diff.key.startswith(pattern + ".")].  A pattern
    that is not a string is not equal to the key, and [pattern + "."] then
    raises [TypeError]. *)
Definition pattern_matches (k : string) (pattern : pyval) : res bool :=
  match pattern with
  | PStr p => Ok ((k =? p)%string || prefix (p ++ ".") k)
  | _ => Raise TypeError
  end.

(** The inner loop of [_classify_diffs]: the value of the first pattern
    that matches, where the loop breaks. *)
Fixpoint first_match (k : string) (all_patterns : amap (pyval * pyval))
  : res (option (pyval * pyval)) :=
  match all_patterns with
  | [] => Ok None
  | (pattern, lr) :: rest =>
      m <- pattern_matches k pattern ;;
      if m then Ok (Some lr) else first_match k rest
  end.

Definition set_label (d : DiffEntry) (lbl rsn : pyval) : DiffEntry :=
  mkDiffEntry (key d) (libmtp_val d) (swiftmtp_val d) lbl rsn.

(** The body of the outer loop of [_classify_diffs]. *)
Definition classify_one (all_patterns : amap (pyval * pyval)) (d : DiffEntry)
  : res DiffEntry :=
  m <- first_match (key d) all_patterns ;;
  Ok (match m with
      | Some (lbl, rsn) => set_label d lbl rsn
      | None => d
      end).

Definition _classify_diffs (diffs : list DiffEntry) (expectations : pyval)
  : res (list DiffEntry) :=
  intentional <- _build_map expectations "intentional_differences" ;;
  quirk <- _build_map expectations "quirk_needed" ;;
  bugs <- _build_map expectations "known_bugs" ;;
  let all_patterns := amap_merge (amap_merge intentional quirk) bugs in
  map_res (classify_one all_patterns) diffs.

(* ===================================================================== *)
(** ** Summary and orchestration *)
(* ===================================================================== *)

Definition _summary_counts (diffs : list DiffEntry) : res (amap Z) :=
  for_each
    (fun counts d =>
       n <- map_get counts (label d) 0 ;;
       map_set counts (label d) (n + 1))
    diffs
    (map (fun lbl => (PStr lbl, 0)) _ALL_LABELS).

Section Main.

Variable _parse_iso_or_ctime : string -> option Z.

(** [int] on a string, see [py_int]. *)
Variable int_of_str : string -> option Z.

(** The tolerance [main] hands to the diff engine: [args.ts_tolerance]
    unless the overlay has [tolerances.timestamp_seconds]. *)
Definition main_ts_tol (args_ts_tolerance : Z) (expectations : pyval) : res Z :=
  tolerances <- py_get expectations "tolerances" (PDict []) ;;
  overlay_tol <- py_get tolerances "timestamp_seconds" PNone ;;
  if is_none overlay_tol then Ok args_ts_tolerance
  else py_int int_of_str overlay_tol.

(** The part of [main] from the loading of the overlay to the summary:
    tolerance, normalisation, diff, classification, counts. *)
Definition main_pipeline (args_ts_tolerance : Z) (expectations : pyval)
  (libmtp_detect : pyval) (libmtp_folders libmtp_files : list pyval)
  (swiftmtp_probe swiftmtp_ls : pyval)
  : res (list DiffEntry * amap Z) :=
  ts_tol <- main_ts_tol args_ts_tolerance expectations ;;
  ' (norm_lib_dev, norm_swift_dev) <-
      _normalise_device libmtp_detect swiftmtp_probe ;;
  ' (norm_lib_files, norm_swift_files) <-
      _normalise_files _parse_iso_or_ctime libmtp_files libmtp_folders swiftmtp_ls ;;
  file_diffs <- _diff_files norm_lib_files norm_swift_files ts_tol ;;
  let diffs := (_diff_device norm_lib_dev norm_swift_dev ++ file_diffs)%list in
  diffs <- _classify_diffs diffs expectations ;;
  counts <- _summary_counts diffs ;;
  Ok (diffs, counts).

End Main.

Section File_diffs.

Variable _parse_iso_or_ctime : string -> option Z.

(** The file part of [main]: [_normalise_files], then [_diff_files] on the
    two normalised lists. *)
Definition main_file_diffs (libmtp_files libmtp_folders : list pyval)
  (swiftmtp_ls : pyval) (ts_tol : Z) : res (list DiffEntry) :=
  ' (norm_lib_files, norm_swift_files) <-
      _normalise_files _parse_iso_or_ctime libmtp_files libmtp_folders swiftmtp_ls ;;
  _diff_files norm_lib_files norm_swift_files ts_tol.

End File_diffs.

(* ===================================================================== *)
(** ** Vocabulary of the properties *)
(* ===================================================================== *)

(** The keys of a normalised device dict, in the order of the dict display
    that [_norm_lib] and [_norm_swift] return. *)
Definition canonical_device_keys : list string :=
  ["manufacturer"; "model"; "firmware"; "friendly_name"; "storages"].

Definition canonical_storage_keys : list string :=
  ["description"; "capacity_bytes"].

(** A dict has the shape of a normalised device: the five keys, and under
    ["storages"] a list of dicts with the two storage keys. *)
Definition canonical_device (c : pydict) : Prop :=
  dict_keys c = canonical_device_keys /\
  exists storages,
    dict_get "storages" c = Some (PList (map PDict storages)) /\
    Forall (fun s => dict_keys s = canonical_storage_keys) storages.

(** The normalised device of a side that delivered nothing. *)
Definition zero_device : pydict :=
  [("manufacturer", PStr ""); ("model", PStr ""); ("firmware", PStr "");
   ("friendly_name", PStr ""); ("storages", PList [])].

Definition dict_has (k : string) (d : pydict) : bool :=
  match dict_get k d with
  | Some _ => true
  | None => false
  end.

(** A raw record without device data: an error marker of a runner
    ([{"error": ...}], with or without ["raw"]), an empty dict, or the
    result of [mtp-detect] with an empty device list.  It is a dict whose
    ["devices"] is missing or empty and which has none of the keys the
    SwiftMTP normaliser reads. *)
Definition missing_record (d : pyval) : bool :=
  match d with
  | PDict fields =>
      negb (truthy (get_or fields "devices" (PList []))) &&
      forallb (fun k => negb (dict_has k fields))
        ["device"; "storages"; "manufacturer"; "friendlyName"; "model";
         "firmware"; "firmwareVersion"; "friendly_name"]
  | _ => false
  end.

(** *** The overlay read as a list of declarations *)

(** The test of the inner loop of [_classify_diffs] for a string pattern. *)
Definition pattern_hit (k p : string) : bool :=
  (k =? p)%string || prefix (p ++ ".") k.

(** A declaration: a non-empty pattern with its label and reason. *)
Notation decl := (string * (pyval * pyval))%type (only parsing).

(** An overlay entry [_build_map] can take: a dict whose ["key"] is a string
    or has no truth value (the entry is then skipped). *)
Definition entry_ok (entry : pyval) : bool :=
  match entry with
  | PDict fields =>
      match get_or fields "key" (PStr "") with
      | PStr _ => true
      | k => negb (truthy k)
      end
  | _ => false
  end.

(** What an entry declares, with the label and reason [_build_map] stores
    for it; nothing when the entry is skipped. *)
Definition declaration (implied : pyval) (entry : pyval) : list decl :=
  match entry with
  | PDict fields =>
      match get_or fields "key" (PStr "") with
      | PStr p =>
          if (p =? "")%string then []
          else [(p, (py_or (get_or fields "label" implied) (PStr LABEL_UNKNOWN),
                     get_or fields "reason" (PStr "")))]
      | _ => []
      end
  | _ => []
  end.

Definition section_declarations (section : string) (entries : list pyval)
  : list decl :=
  flat_map (declaration (section_label_map section)) entries.

(** The declarations of an overlay in section order, then in the order of
    the entries. *)
Definition declarations (intentional quirk bugs : list pyval) : list decl :=
  (section_declarations "intentional_differences" intentional ++
   section_declarations "quirk_needed" quirk ++
   section_declarations "known_bugs" bugs)%list.

(** The three sections of an overlay are the lists [intentional], [quirk]
    and [bugs] (a missing section is the empty list). *)
Definition overlay_sections (expectations : pyval)
  (intentional quirk bugs : list pyval) : Prop :=
  exists fields,
    expectations = PDict fields /\
    get_or fields "intentional_differences" (PList []) = PList intentional /\
    get_or fields "quirk_needed" (PList []) = PList quirk /\
    get_or fields "known_bugs" (PList []) = PList bugs.

(** One step of reading the declarations in order, for the key [k]: the
    first declaration whose pattern matches is the winner; a later
    declaration of the winner's pattern replaces its label and reason. *)
Definition winner_step (k : string) (cur : option decl) (d : decl) : option decl :=
  match cur with
  | Some (q, _) => if (fst d =? q)%string then Some d else cur
  | None => if pattern_hit k (fst d) then Some d else None
  end.

Definition winner (k : string) (decls : list decl) : option decl :=
  fold_left (winner_step k) decls None.

Definition relabel (decls : list decl) (d : DiffEntry) : DiffEntry :=
  match winner (key d) decls with
  | Some (_, (lbl, rsn)) => set_label d lbl rsn
  | None => d
  end.

(** Pattern maps with string keys, and their image among the Python dicts. *)
Notation smap := (list (string * (pyval * pyval))) (only parsing).

Fixpoint smap_set (p : string) (v : pyval * pyval) (m : smap) : smap :=
  match m with
  | [] => [(p, v)]
  | (q, w) :: rest =>
      if (p =? q)%string then (q, v) :: rest else (q, w) :: smap_set p v rest
  end.

Definition smap_build (decls : list decl) (m : smap) : smap :=
  fold_left (fun m d => smap_set (fst d) (snd d) m) decls m.

Definition lift (m : smap) : amap (pyval * pyval) :=
  map (fun d => (PStr (fst d), snd d)) m.

(** The first entry of a pattern map that matches the key. *)
Definition first_hit (k : string) (m : smap) : option decl :=
  find (fun d => pattern_hit k (fst d)) m.

Definition labels_closed (l : pyval) : Prop := In l (map PStr _ALL_LABELS).

(** *** Folders *)

(** [item.get("type") == "folder"] *)
Definition is_folder (d : pydict) : bool :=
  py_eq (get_or d "type" PNone) (PStr "folder").

(** A folder item of the SwiftMTP tree that holds no file, whatever the
    path it is reached by: its children yield nothing. *)
Definition empty_folder (item : pyval) : Prop :=
  exists d, item = PDict d /\ is_folder d = true /\
            forall prefix, _flatten_tree (get_or d "children" (PList [])) prefix = Ok [].

(** [adds_empty_folder t t']: the tree [t'] is the tree [t] with one more
    empty folder, among the top items or among the children of a folder at
    any depth. *)
Inductive adds_empty_folder : pyval -> pyval -> Prop :=
| add_here (l1 l2 : list pyval) (item : pyval) :
    empty_folder item ->
    adds_empty_folder (PList (l1 ++ l2)) (PList (l1 ++ item :: l2))
| add_below (l1 l2 : list pyval) (d : pydict) (children children' : pyval) :
    is_folder d = true ->
    dict_get "children" d = Some children ->
    adds_empty_folder children children' ->
    adds_empty_folder (PList (l1 ++ PDict d :: l2))
                      (PList (l1 ++ PDict (dict_set "children" children' d) :: l2)).

(** The id and parent id of a libmtp folder record whose two fields are
    integers, as [_parse_mtp_folders] delivers them. *)
Definition folder_ids (folder : pyval) : option (Z * Z) :=
  match folder with
  | PDict d =>
      match get_or d "id" (PInt 0), get_or d "parent_id" (PInt 0) with
      | PInt i, PInt p => Some (i, p)
      | _, _ => None
      end
  | _ => None
  end.

Definition folder_id (folder : pyval) : Z :=
  match folder_ids folder with
  | Some (i, _) => i
  | None => 0
  end.

(** The parent id of a libmtp file record, when it is an integer. *)
Definition file_parent (f : pyval) : option Z :=
  match f with
  | PDict d =>
      match get_or d "parent_id" (PInt 0) with
      | PInt p => Some p
      | _ => None
      end
  | _ => None
  end.

(** A folder record with integer ids that neither is the folder [X] nor
    lies in it. *)
Definition folder_apart (X : Z) (folder : pyval) : bool :=
  match folder_ids folder with
  | Some (i, p) => negb (i =? X) && negb (p =? X)
  | None => false
  end.

(** A file record with an integer parent id that does not lie in the
    folder [X]. *)
Definition file_apart (X : Z) (f : pyval) : bool :=
  match file_parent f with
  | Some p => negb (p =? X)
  | None => false
  end.

(** The stable insertion sort of [sorted] on integer keys. *)
Fixpoint insert_int {A : Type} (kx : Z) (x : A) (l : list (Z * A)) : list (Z * A) :=
  match l with
  | [] => [(kx, x)]
  | (ky, y) :: rest =>
      if ky <? kx then (ky, y) :: insert_int kx x rest
      else (kx, x) :: (ky, y) :: rest
  end.

Fixpoint sort_int {A : Type} (l : list (Z * A)) : list (Z * A) :=
  match l with
  | [] => []
  | (kx, x) :: rest => insert_int kx x (sort_int rest)
  end.

(** Two folder maps agree on every integer id but [X]. *)
Definition agree_off (X : Z) (m m' : amap pyval) : Prop :=
  forall n, n <> X -> amap_get (PInt n) m = amap_get (PInt n) m'.

Definition int_keyed (m : amap pyval) : Prop :=
  Forall (fun kv => exists n, fst kv = PInt n) m.

(** An integer key as the Python value [sorted] compares. *)
Definition int_key {A : Type} (e : Z * A) : pyval * A := (PInt (fst e), snd e).

(** The folder records that stay when the folder [X] is taken away. *)
Definition not_folder {A : Type} (X : Z) (e : Z * A) : bool := negb (fst e =? X).

Definition keyed_by_id (folder : pyval) : Z * pyval := (folder_id folder, folder).

(** [m.get(k, "")] on a folder map. *)
Definition path_of (m : amap pyval) (k : Z) : pyval :=
  match amap_get (PInt k) m with
  | Some v => v
  | None => PStr ""
  end.

(* ===================================================================== *)
(** ** Exit status *)
(* ===================================================================== *)

(** [counts.get(lbl, 0)] for a label that can be hashed. *)
Definition count_of (counts : amap Z) (lbl : pyval) : Z :=
  match amap_get lbl counts with
  | Some n => n
  | None => 0
  end.

(** The value [main] returns: 1 when diffs are left that need
    investigation (label unknown or bug_swiftmtp), else 0. *)
Definition main_exit_code (counts : amap Z) : Z :=
  let unresolved :=
    count_of counts (PStr LABEL_UNKNOWN) + count_of counts (PStr LABEL_BUG_SWIFTMTP) in
  if unresolved >? 0 then 1 else 0.

(** The number of entries whose label equals [lbl]. *)
Definition labelled (lbl : pyval) (diffs : list DiffEntry) : Z :=
  Z.of_nat (List.length (filter (fun d => py_eq lbl (label d)) diffs)).

(** The sum of the values of a counts dict. *)
Definition counts_total (counts : amap Z) : Z :=
  fold_right Z.add 0 (map snd counts).

(** The body of the loop of [_summary_counts]. *)
Definition count_entry (counts : amap Z) (d : DiffEntry) : res (amap Z) :=
  n <- map_get counts (label d) 0 ;;
  map_set counts (label d) (n + 1).

(** Two entries report the same difference: key and both values agree. *)
Definition same_difference (d d' : DiffEntry) : Prop :=
  key d' = key d /\ libmtp_val d' = libmtp_val d /\ swiftmtp_val d' = swiftmtp_val d.

(** *** File lists with string paths *)

(** The path of a file record when it is a string. *)
Definition str_path (f : pydict) : option string :=
  match dict_get "path" f with
  | Some (PStr p) => Some p
  | _ => None
  end.

(** Every record of the list has a string under ["path"]. *)
Definition str_paths (files : list pydict) : bool :=
  forallb (fun f => match str_path f with Some _ => true | None => false end) files.

(** The paths of a list of records, in the order of the records. *)
Definition path_strings (files : list pydict) : list string :=
  flat_map (fun f => match str_path f with Some p => [p] | None => [] end) files.

(** The paths the loop of [_diff_files] visits, in the order it visits
    them, for two lists with string paths. *)
Definition visited (lib_files swift_files : list pydict) : list string :=
  sorted_str (str_union (path_strings lib_files) (path_strings swift_files)).

(** The record has the path [k]. *)
Definition has_path (k : pyval) (f : pydict) : bool :=
  match dict_get "path" f with
  | Some p => py_eq k p
  | None => false
  end.

(** The last record of the list with the path [k]. *)
Definition last_with_path (k : pyval) (files : list pydict) : option pydict :=
  find (has_path k) (rev files).

(** The entry with the two sides exchanged. *)
Definition mirror (d : DiffEntry) : DiffEntry :=
  mkDiffEntry (key d) (swiftmtp_val d) (libmtp_val d) (label d) (reason d).

(** A value that is [None], a boolean, an integer or a string. *)
Definition plain (v : pyval) : bool :=
  match v with
  | PNone | PBool _ | PInt _ | PStr _ => true
  | PList _ | PDict _ => false
  end.

(** Every record of the list has a plain size. *)
Definition sizes_plain (files : list pydict) : bool :=
  forallb (fun f => plain (get_none f "size_bytes")) files.

(** Every record of the list has a size that can be hashed (a number, a
    string or [None]): equality on such values is symmetric and reflexive. *)
Definition sizes_hashable (files : list pydict) : bool :=
  forallb (fun f => hashable (get_none f "size_bytes")) files.

(** Every record of the list has no mtime, or a number as mtime. *)
Definition mtimes_numeric (files : list pydict) : bool :=
  forallb (fun f => match get_none f "mtime" with
                    | PNone | PInt _ | PBool _ => true
                    | _ => false
                    end) files.

(** An entry of the file diff that is about the path [p]: the record is
    on one side only, or the sizes or the mtimes differ. *)
Definition about_path (p : string) (d : DiffEntry) : Prop :=
  key d = "file." ++ p \/
  key d = "file." ++ p ++ ".size_bytes" \/
  key d = "file." ++ p ++ ".mtime".

(* ===================================================================== *)
(** ** Subprocess helpers and runners *)
(* ===================================================================== *)

(** [subprocess.CompletedProcess], with the two outputs as text. *)
Record CompletedProcess : Type := mkCompletedProcess {
  returncode : Z;
  stdout : string;
  stderr : string
}.

(** What [subprocess.run] does with a command: the process ends with a
    return code and its two outputs, the program is not there, or the time
    is over. *)
Inductive run_outcome : Type :=
| Exited (rc : Z) (out err : string)
| NotFound
| TimedOut.

(** [_run(cmd, timeout=...)] for the command [prog :: args] (no caller
    passes an empty command), given what [subprocess.run] does with it. *)
Definition _run (prog : string) (args : list string) (timeout : Z)
  (o : run_outcome) : CompletedProcess :=
  match o with
  | Exited rc out err => mkCompletedProcess rc out err
  | NotFound => mkCompletedProcess 127 "" ("command not found: " ++ prog)
  | TimedOut =>
      mkCompletedProcess 124 ""
        ("timed out after " ++ str_of_Z timeout ++ "s: " ++ join " " (prog :: args))
  end.

Module LibmtpRunner.
Section Runner.

(** The three text parsers rest on regular expressions; the runner is
    stated for any such parsers. *)
Variable _parse_mtp_detect : string -> option string -> pyval.
Variable _parse_mtp_folders : string -> list pyval.
Variable _parse_mtp_files : string -> list pyval.

Variable vidpid : option string.
Variable timeout : Z.

Definition detect (o : run_outcome) : pyval * string :=
  let r := _run "mtp-detect" [] timeout o in
  let raw := stdout r ++ stderr r in
  if returncode r =? 127 then (PDict [("error", PStr "mtp-detect not found")], raw)
  else (_parse_mtp_detect raw vidpid, raw).

Definition folders (o : run_outcome) : list pyval * string :=
  let r := _run "mtp-folders" [] timeout o in
  let raw := stdout r ++ stderr r in
  if returncode r =? 127 then ([], raw)
  else (_parse_mtp_folders raw, raw).

Definition files (o : run_outcome) : list pyval * string :=
  let r := _run "mtp-files" [] timeout o in
  let raw := stdout r ++ stderr r in
  if returncode r =? 127 then ([], raw)
  else (_parse_mtp_files raw, raw).

Definition sendfile (local_path remote_name : string) (o : run_outcome)
  : bool * string :=
  let r := _run "mtp-sendfile" [local_path; remote_name] timeout o in
  (returncode r =? 0, stdout r ++ stderr r).

End Runner.
End LibmtpRunner.

Module SwiftMTPRunner.
Section Runner.

(** [json.loads]: the value, or the text of the [JSONDecodeError]. *)
Variable json_loads : string -> string + pyval.

Variable vidpid : option string.
Variable timeout : Z.

Definition _base : list string :=
  (["run"; "swiftmtp"] ++
   match vidpid with
   | Some v => if (v =? "")%string then [] else ["--device"; v]
   | None => []
   end)%list.

Definition probe (o : run_outcome) : pyval * string :=
  let r := _run "swift" (_base ++ ["probe"; "--json"]) timeout o in
  let raw := stdout r in
  let err := stderr r in
  if returncode r =? 127 then (PDict [("error", PStr "swift not found")], err)
  else
    match json_loads raw with
    | inr v => (v, raw ++ err)
    | inl exc =>
        (PDict [("error", PStr ("JSON parse error: " ++ exc));
                ("raw", PStr (take_chars 500 raw))], raw ++ err)
    end.

Definition ls (o : run_outcome) : pyval * string :=
  let r := _run "swift" (_base ++ ["ls"; "--json"]) timeout o in
  let raw := stdout r in
  let err := stderr r in
  if returncode r =? 127 then (PList [], err)
  else
    match json_loads raw with
    | inr v => (v, raw ++ err)
    | inl exc =>
        (PDict [("error", PStr ("JSON parse error: " ++ exc));
                ("raw", PStr (take_chars 500 raw))], raw ++ err)
    end.

Definition push (local_path remote_path : string) (o : run_outcome)
  : bool * string :=
  let r := _run "swift" (_base ++ ["push"; local_path; remote_path]) timeout o in
  (returncode r =? 0, stdout r ++ stderr r).

End Runner.
End SwiftMTPRunner.

(** [len(v)] *)
Definition py_len (v : pyval) : res Z :=
  match v with
  | PList l => Ok (Z.of_nat (List.length l))
  | PStr s => Ok (Z.of_nat (List.length (chars s)))
  | PDict d => Ok (Z.of_nat (List.length d))
  | _ => Raise TypeError
  end.

(** [k in v] for a string [k]: a key of a dict, a member of a list, a part
    of a string. *)
Definition py_in (k : string) (v : pyval) : res bool :=
  match v with
  | PDict d => Ok (dict_has k d)
  | PList l => Ok (existsb (py_eq (PStr k)) l)
  | PStr s => Ok (match index 0 k s with Some _ => true | None => false end)
  | _ => Raise TypeError
  end.

(** What the five tool runs of [main] do, in the order [main] makes them. *)
Record tool_runs : Type := mkToolRuns {
  run_detect : run_outcome;
  run_folders : run_outcome;
  run_files : run_outcome;
  run_probe : run_outcome;
  run_ls : run_outcome
}.

Section Main_run.

Variable _parse_mtp_detect : string -> option string -> pyval.
Variable _parse_mtp_folders : string -> list pyval.
Variable _parse_mtp_files : string -> list pyval.
Variable json_loads : string -> string + pyval.
Variable _parse_iso_or_ctime : string -> option Z.
Variable int_of_str : string -> option Z.

(** [main] without [--allow-write], from the libmtp side to the exit code:
    the five tool runs with the values [main] computes for its progress
    lines (they raise on some records), then tolerance, normalisation,
    diff, classification and counts.  The overlay is what
    [_load_expectations] returned; writing the evidence files is left out. *)
Definition main_run (args_vidpid : option string)
  (args_timeout args_ts_tolerance : Z) (expectations : pyval) (w : tool_runs)
  : res Z :=
  let libmtp_detect :=
    fst (LibmtpRunner.detect _parse_mtp_detect args_vidpid args_timeout (run_detect w)) in
  devices <- py_get libmtp_detect "devices" (PList []) ;;
  device_count <- py_len devices ;;
  _ <- py_in "error" libmtp_detect ;;
  let libmtp_folders :=
    fst (LibmtpRunner.folders _parse_mtp_folders args_timeout (run_folders w)) in
  let libmtp_files :=
    fst (LibmtpRunner.files _parse_mtp_files args_timeout (run_files w)) in
  let swiftmtp_probe :=
    fst (SwiftMTPRunner.probe json_loads args_vidpid (args_timeout + 60) (run_probe w)) in
  _ <- py_in "error" swiftmtp_probe ;;
  let swiftmtp_ls :=
    fst (SwiftMTPRunner.ls json_loads args_vidpid (args_timeout + 60) (run_ls w)) in
  ' (diffs, counts) <-
      main_pipeline _parse_iso_or_ctime int_of_str args_ts_tolerance expectations
        libmtp_detect libmtp_folders libmtp_files swiftmtp_probe swiftmtp_ls ;;
  Ok (main_exit_code counts).

End Main_run.

(** The return code [_run] reports is 127: the program is not there, or the
    process itself ended with 127. *)
Definition exit_127 (o : run_outcome) : bool :=
  match o with
  | Exited rc _ _ => rc =? 127
  | NotFound => true
  | TimedOut => false
  end.

(** The standard output [_run] reports. *)
Definition out_text (o : run_outcome) : string :=
  match o with
  | Exited _ out _ => out
  | _ => ""
  end.


(** *** Normalised file entries *)

(** The keys of a normalised file entry: the path, the size and, when the
    raw record has one, the mtime. *)
Definition canonical_entry (e : pydict) : Prop :=
  dict_keys e = ["path"; "size_bytes"] \/
  dict_keys e = ["path"; "size_bytes"; "mtime"].

(** The mtime of an entry, when it has one, is an integer. *)
Definition int_mtime (e : pydict) : Prop :=
  forall v, dict_get "mtime" e = Some v -> exists n, v = PInt n.

(** [nested_in leaf names item]: the item [leaf] lies in [item] inside the
    folders [names], the outermost first; each folder is any folder item
    with that name whose children are the next item alone. *)
Inductive nested_in (leaf : pyval) : list string -> pyval -> Prop :=
| nested_here : nested_in leaf [] leaf
| nested_folder (d : pydict) (name : string) (names : list string) (inner : pyval) :
    is_folder d = true ->
    get_or d "name" (PStr "") = PStr name ->
    get_or d "children" (PList []) = PList [inner] ->
    nested_in leaf names inner ->
    nested_in leaf (name :: names) (PDict d).

(** The path [_flatten_tree] has built after it went down the folders
    [names] from the path [prefix]. *)
Definition descend (prefix : pyval) (names : list string) : pyval :=
  fold_left (fun acc n => join_path acc (PStr n)) names prefix.

(** *** Folder records whose parent comes first *)

Definition folder_parent (folder : pyval) : Z :=
  match folder_ids folder with
  | Some (_, p) => p
  | None => 0
  end.

(** [folder.get("name", str(fid))] *)
Definition folder_name (folder : pyval) : pyval :=
  match folder with
  | PDict d => get_or d "name" (PStr (py_str (PInt (folder_id folder))))
  | _ => PNone
  end.

(** A folder record with integer ids whose parent has the smaller id. *)
Definition parent_first (folder : pyval) : bool :=
  match folder_ids folder with
  | Some (i, p) => p <? i
  | None => false
  end.

(** The path of a record as text; the empty text when the path is missing
    or no string. *)
Definition path_text (f : pydict) : string :=
  match str_path f with
  | Some p => p
  | None => ""
  end.

(** *** Storages *)

(** The description of a normalised storage as text; the empty text when
    it is no string. *)
Definition description_text (s : pydict) : string :=
  match get_or s "description" (PStr "") with
  | PStr t => t
  | _ => ""
  end.

Definition str_descriptions (storages : list pydict) : bool :=
  forallb (fun s => match get_or s "description" (PStr "") with
                    | PStr _ => true
                    | _ => false
                    end) storages.

(** The storages of a normalised device have string descriptions, no
    description twice. *)
Definition distinct_descriptions (c : pydict) : Prop :=
  exists storages,
    dict_get "storages" c = Some (PList (map PDict storages)) /\
    str_descriptions storages = true /\
    NoDup (map description_text storages).

(** The record [mtp-detect] is parsed to when it lists the one device
    [dev]. *)
Definition one_device (dev : pydict) : pyval :=
  PDict [("devices", PList [PDict dev])].

(** The fields of a normalised device and of its storages are plain values
    ([None], booleans, integers, strings). *)
Definition plain_device (c : pydict) : bool :=
  forallb (fun k => plain (get_none c k))
    ["manufacturer"; "model"; "firmware"; "friendly_name"] &&
  match dict_get "storages" c with
  | Some (PList storages) =>
      forallb (fun s => match s with
                        | PDict sd => forallb (fun kv => plain (snd kv)) sd
                        | _ => false
                        end) storages
  | _ => false
  end.

(** A device record in the schema of libmtp: none of the names only the
    SwiftMTP normaliser reads. *)
Definition libmtp_schema (dev : pydict) : bool :=
  forallb (fun k => negb (dict_has k dev)) ["device"; "friendlyName"; "firmwareVersion"] &&
  match get_or dev "storages" (PList []) with
  | PList storages =>
      forallb (fun s => match s with
                        | PDict sd => negb (dict_has "name" sd) &&
                                      negb (dict_has "capacityBytes" sd)
                        | _ => true
                        end) storages
  | _ => true
  end.

(** *** The entries of the file diff, as the specification names them *)

(** The mtime Diff Entry of the path [p]: the key [file.<p>.mtime], the two
    timestamps, the label unknown and no reason. *)
Definition mtime_entry (p : string) (x y : Z) : DiffEntry :=
  mkDiffEntry ("file." ++ p ++ ".mtime") (PInt x) (PInt y) (PStr "unknown") (PStr "").

(** The size Diff Entry of the path [p]. *)
Definition size_entry (p : string) (a b : pyval) : DiffEntry :=
  mkDiffEntry ("file." ++ p ++ ".size_bytes") a b (PStr "unknown") (PStr "").

(** What the comparison of the sizes of two records of the path [p]
    reports. *)
Definition size_entries (p : string) (a b : pydict) : list DiffEntry :=
  if py_eq (get_none a "size_bytes") (get_none b "size_bytes") then []
  else [size_entry p (get_none a "size_bytes") (get_none b "size_bytes")].

(** The whole-file Diff Entry of a path that one side alone has. *)
Definition file_entry (p : string) (a b : pyval) : DiffEntry :=
  mkDiffEntry ("file." ++ p) a b (PStr "unknown") (PStr "").

(** An entry the file diff reports at the path [q]: a whole-file entry with
    one side absent, a size entry or an mtime entry. *)
Definition entry_at (q : string) (d : DiffEntry) : Prop :=
  (key d = "file." ++ q /\ (libmtp_val d = PNone \/ swiftmtp_val d = PNone)) \/
  key d = "file." ++ q ++ ".size_bytes" \/
  key d = "file." ++ q ++ ".mtime".

(** The two records the file diff compares at the path [p]: the last record
    of the path in each list. *)
Definition compared (lib_files swift_files : list pydict) (p : string)
  (a b : pydict) : Prop :=
  last_with_path (PStr p) lib_files = Some a /\
  last_with_path (PStr p) swift_files = Some b.

(** *** Device fields of a raw record *)







(** The device record the SwiftMTP normaliser reads in a probe result: what
    stands under ["device"], or the probe result itself. *)
Definition probe_device (fields : pydict) : pyval :=
  get_or fields "device" (PDict fields).

(** *** The label of an overlay entry *)

(** The label an entry of a section gives to the Diff Entries it matches:
    the label it declares when that has a truth value, unknown when the
    declared label has none; without a declared label the label its section
    implies, which is unknown under known_bugs. *)
Definition stated_label (section : string) (entry : pydict) : pyval :=
  match dict_get "label" entry with
  | Some l => if truthy l then l else PStr "unknown"
  | None =>
      if (section =? "intentional_differences")%string then PStr "intentional"
      else if (section =? "quirk_needed")%string then PStr "quirk_needed"
      else PStr "unknown"
  end.

(** The entry stands in the section of the overlay. *)
Definition in_section (intentional quirk bugs : list pyval) (section : string)
  (entry : pydict) : Prop :=
  (section = "intentional_differences" /\ In (PDict entry) intentional) \/
  (section = "quirk_needed" /\ In (PDict entry) quirk) \/
  (section = "known_bugs" /\ In (PDict entry) bugs).

(* ===================================================================== *)
(** ** Facts about the Python model *)
(* ===================================================================== *)

Lemma bind_Ok {A B : Type} (m : res A) (k : A -> res B) (b : B) :
  bind m k = Ok b -> exists a, m = Ok a /\ k a = Ok b.
Proof.
  destruct m as [a|e]; simpl; intro H.
  - exists a. split; [reflexivity | exact H].
  - discriminate H.
Qed.

Lemma bind_ret_r {A : Type} (m : res A) : bind m (fun x => Ok x) = m.
Proof. destruct m; reflexivity. Qed.

(** Takes a hypothesis [x <- m ;; k = Ok r] apart. *)
Ltac bind_inv H :=
  let a := fresh "a" in
  let Ha := fresh "Ha" in
  apply bind_Ok in H; destruct H as [a [Ha H]].

Lemma map_res_Forall2 {A B : Type} (f : A -> res B) (l : list A) (l' : list B) :
  map_res f l = Ok l' -> Forall2 (fun x y => f x = Ok y) l l'.
Proof.
  revert l'. induction l as [|x rest IH]; simpl; intros l' H.
  - inversion H. constructor.
  - bind_inv H. bind_inv H. inversion H; subst. constructor; auto.
Qed.

Lemma map_res_length {A B : Type} (f : A -> res B) (l : list A) (l' : list B) :
  map_res f l = Ok l' -> List.length l' = List.length l.
Proof.
  intro H. apply map_res_Forall2 in H.
  induction H; simpl; congruence.
Qed.

Lemma map_res_In {A B : Type} (f : A -> res B) (l : list A) (l' : list B) (y : B) :
  map_res f l = Ok l' -> In y l' -> exists x, In x l /\ f x = Ok y.
Proof.
  intro H. apply map_res_Forall2 in H.
  induction H as [|x y' l l' Hxy _ IH]; simpl; intros Hin.
  - contradiction.
  - destruct Hin as [->|Hin].
    + exists x. auto.
    + destruct (IH Hin) as [x' [Hx' Hf]]. exists x'. auto.
Qed.


Lemma map_res_pure {A B : Type} (f : A -> res B) (g : A -> B) (l : list A) :
  (forall x, In x l -> f x = Ok (g x)) -> map_res f l = Ok (map g l).
Proof.
  induction l as [|x rest IH]; simpl; intro H.
  - reflexivity.
  - rewrite (H x (or_introl eq_refl)). simpl.
    rewrite IH by (intros; apply H; right; assumption). reflexivity.
Qed.

(** *** Sorting *)

Lemma insert_by_key_split {A : Type} (kx : pyval) (x : A) (l r : list (pyval * A)) :
  insert_by_key kx x l = Ok r ->
  exists l1 l2, l = (l1 ++ l2)%list /\ r = (l1 ++ (kx, x) :: l2)%list.
Proof.
  revert r. induction l as [|[ky y] rest IH]; simpl; intros r H.
  - inversion H. exists [], []. auto.
  - bind_inv H. destruct a.
    + bind_inv H. inversion H; subst.
      destruct (IH _ Ha0) as [l1 [l2 [E1 E2]]]. subst.
      exists ((ky, y) :: l1), l2. auto.
    + inversion H. exists [], ((ky, y) :: rest). auto.
Qed.

Lemma sort_keyed_perm {A : Type} (l s : list (pyval * A)) :
  sort_keyed l = Ok s -> Permutation l s.
Proof.
  revert s. induction l as [|[kx x] rest IH]; simpl; intros s H.
  - inversion H. constructor.
  - bind_inv H. apply insert_by_key_split in H.
    destruct H as [l1 [l2 [E1 E2]]]. subst.
    apply Permutation_cons_app. apply IH. exact Ha.
Qed.

Lemma map_res_keyed_snd {A : Type} (key : A -> res pyval) (l : list A)
  (keyed : list (pyval * A)) :
  map_res (fun x => k <- key x ;; Ok (k, x)) l = Ok keyed -> map snd keyed = l.
Proof.
  revert keyed. induction l as [|x rest IH]; simpl; intros keyed H.
  - inversion H. reflexivity.
  - bind_inv H. bind_inv H. inversion H; subst.
    bind_inv Ha. inversion Ha; subst. simpl. f_equal. apply IH. exact Ha0.
Qed.

Lemma sorted_by_perm {A : Type} (key : A -> res pyval) (l s : list A) :
  sorted_by key l = Ok s -> Permutation l s.
Proof.
  unfold sorted_by. intro H. bind_inv H. bind_inv H. inversion H; subst.
  rewrite <- (map_res_keyed_snd _ _ _ Ha).
  apply Permutation_map. apply sort_keyed_perm. exact Ha0.
Qed.

Lemma sorted_by_In {A : Type} (key : A -> res pyval) (l s : list A) (x : A) :
  sorted_by key l = Ok s -> (In x s <-> In x l).
Proof.
  intro H. apply sorted_by_perm in H. split; intro Hin.
  - eapply Permutation_in; [apply Permutation_sym; exact H | exact Hin].
  - eapply Permutation_in; [exact H | exact Hin].
Qed.

Lemma sorted_by_length {A : Type} (key : A -> res pyval) (l s : list A) :
  sorted_by key l = Ok s -> List.length s = List.length l.
Proof.
  intro H. apply sorted_by_perm in H. symmetry. apply Permutation_length. exact H.
Qed.

Lemma insert_str_perm (x : string) (l : list string) :
  Permutation (x :: l) (insert_str x l).
Proof.
  induction l as [|y rest IH]; simpl.
  - apply Permutation_refl.
  - destruct (y <? x)%string.
    + eapply perm_trans; [apply perm_swap|]. apply perm_skip. exact IH.
    + apply Permutation_refl.
Qed.

Lemma sorted_str_perm (l : list string) : Permutation l (sorted_str l).
Proof.
  induction l as [|x rest IH]; simpl.
  - constructor.
  - eapply perm_trans; [apply perm_skip; exact IH|]. apply insert_str_perm.
Qed.

Lemma sorted_str_In (l : list string) (x : string) : In x (sorted_str l) <-> In x l.
Proof.
  split; intro H.
  - eapply Permutation_in; [apply Permutation_sym; apply sorted_str_perm | exact H].
  - eapply Permutation_in; [apply sorted_str_perm | exact H].
Qed.

Lemma str_union_In (a b : list string) (x : string) :
  In x (str_union a b) <-> In x a \/ In x b.
Proof.
  unfold str_union. rewrite nodup_In. apply in_app_iff.
Qed.

(** *** Equality on hashable values, dicts with hashable keys *)

Lemma py_eq_refl_hashable (k : pyval) : hashable k = true -> py_eq k k = true.
Proof.
  destruct k as [|b|n|s|l|d]; simpl; intro H; try discriminate.
  - reflexivity.
  - destruct b; reflexivity.
  - apply Z.eqb_refl.
  - apply String.eqb_refl.
Qed.

Lemma py_eq_PStr_l (s : string) (k : pyval) : py_eq (PStr s) k = true -> k = PStr s.
Proof.
  destruct k; simpl; intro H; try discriminate.
  apply String.eqb_eq in H. congruence.
Qed.



Lemma amap_set_keys {V : Type} (k : pyval) (v : V) (m : amap V) (k' : pyval) :
  In k' (amap_keys (amap_set k v m)) -> k' = k \/ In k' (amap_keys m).
Proof.
  induction m as [|[k0 v0] rest IH]; simpl.
  - intros [<-|[]]. auto.
  - destruct (py_eq k k0); simpl.
    + intros [<-|H]; auto.
    + intros [<-|H]; auto. destruct (IH H); auto.
Qed.

Lemma for_each_path_keys_hashable (files : list pydict) (acc m : amap pydict) :
  (forall k, In k (amap_keys acc) -> hashable k = true) ->
  for_each
    (fun m f =>
       match dict_get "path" f with
       | Some p => map_set m p f
       | None => Raise KeyError
       end) files acc = Ok m ->
  forall k, In k (amap_keys m) -> hashable k = true.
Proof.
  revert acc. induction files as [|f rest IH]; cbn [for_each]; intros acc Hacc H.
  - inversion H; subst. exact Hacc.
  - bind_inv H. destruct (dict_get "path" f) as [p|]; [|discriminate].
    unfold map_set, check_hashable in Ha.
    destruct (hashable p) eqn:Hp; [|discriminate]. cbn [bind] in Ha.
    inversion Ha; subst. apply (IH (amap_set p f acc)); [|exact H].
    intros k Hk.
    destruct (amap_set_keys p f acc k Hk) as [->|Hin];
      [exact Hp | exact (Hacc k Hin)].
Qed.

Lemma path_map_keys_hashable (files : list pydict) (m : amap pydict) :
  path_map files = Ok m -> forall k, In k (amap_keys m) -> hashable k = true.
Proof.
  unfold path_map. apply for_each_path_keys_hashable. intros k [].
Qed.



(** *** The loop body of the file diff *)


Lemma diff_mtime_int (path : pyval) (a b : pydict) (x y ts_tol : Z) :
  dict_get "mtime" a = Some (PInt x) ->
  dict_get "mtime" b = Some (PInt y) ->
  diff_mtime path a b ts_tol =
  Ok (if Z.abs (x - y) >? ts_tol
      then [new_DiffEntry ("file." ++ py_str path ++ ".mtime") (PInt x) (PInt y)]
      else []).
Proof.
  unfold diff_mtime, get_none, get_or. intros -> ->. simpl.
  destruct (Z.abs (x - y) >? ts_tol); reflexivity.
Qed.

Lemma diff_path_both (lib_map swift_map : amap pydict) (ts_tol : Z) (path : pyval)
  (a b : pydict) :
  amap_get path lib_map = Some a ->
  amap_get path swift_map = Some b ->
  diff_path lib_map swift_map ts_tol path =
  (mt <- diff_mtime path a b ts_tol ;; Ok (diff_size path a b ++ mt)%list).
Proof. unfold diff_path. intros -> ->. reflexivity. Qed.

(** The tolerance test on two records of one path, inside any pair of file
    lists. *)
Lemma diff_path_tolerance (lib_map swift_map : amap pydict) (ts_tol : Z)
  (path : pyval) (a b : pydict) (x y : Z) :
  amap_get path lib_map = Some a ->
  amap_get path swift_map = Some b ->
  dict_get "mtime" a = Some (PInt x) ->
  dict_get "mtime" b = Some (PInt y) ->
  diff_path lib_map swift_map ts_tol path =
  Ok (diff_size path a b ++
      (if Z.abs (x - y) <=? ts_tol then []
       else [new_DiffEntry ("file." ++ py_str path ++ ".mtime") (PInt x) (PInt y)]))%list.
Proof.
  intros Ha Hb Hx Hy.
  rewrite (diff_path_both _ _ _ _ _ _ Ha Hb), (diff_mtime_int _ _ _ _ _ _ Hx Hy).
  simpl. rewrite Z.gtb_ltb, Z.leb_antisym.
  destruct (ts_tol <? Z.abs (x - y)); reflexivity.
Qed.

Lemma diff_files_single (a b : pydict) (p : string) (ts_tol : Z) :
  dict_get "path" a = Some (PStr p) ->
  dict_get "path" b = Some (PStr p) ->
  _diff_files [a] [b] ts_tol =
  (part <- diff_path [(PStr p, a)] [(PStr p, b)] ts_tol (PStr p) ;;
   Ok (part ++ [])%list).
Proof.
  intros Ha Hb. unfold _diff_files, path_map. simpl.
  rewrite Ha, Hb. simpl. unfold key_union. simpl.
  rewrite String.eqb_refl. simpl.
  destruct (diff_path [(PStr p, a)] [(PStr p, b)] ts_tol (PStr p)); reflexivity.
Qed.

Lemma string_app_inv_head (s t u : string) : (s ++ t = s ++ u)%string -> t = u.
Proof.
  induction s as [|c s IH]; simpl; intro H.
  - exact H.
  - inversion H. auto.
Qed.

Lemma diff_size_keys (path : pyval) (a b : pydict) (d : DiffEntry) :
  In d (diff_size path a b) ->
  key d = "file." ++ py_str path ++ ".size_bytes".
Proof.
  unfold diff_size.
  destruct (negb (py_eq (get_none a "size_bytes") (get_none b "size_bytes"))).
  - intros [<-|[]]. reflexivity.
  - intros [].
Qed.

Lemma size_key_not_mtime_key (p : string) :
  "file." ++ p ++ ".size_bytes" <> "file." ++ p ++ ".mtime".
Proof.
  intro H. apply (string_app_inv_head "file.") in H.
  apply string_app_inv_head in H. discriminate H.
Qed.

(* ===================================================================== *)
(** ** The diff engine: tolerance and absence *)
(* ===================================================================== *)





(* ===================================================================== *)
(** ** Device normalisation: exclusions and missing data *)
(* ===================================================================== *)

Lemma lib_storage_keys (s : pyval) (c : pydict) :
  lib_storage s = Ok c -> dict_keys c = canonical_storage_keys.
Proof.
  unfold lib_storage. intro H. bind_inv H. bind_inv H. inversion H. reflexivity.
Qed.

Lemma swift_storage_keys (s : pyval) (c : pydict) :
  swift_storage s = Ok c -> dict_keys c = canonical_storage_keys.
Proof.
  unfold swift_storage. intro H. do 4 bind_inv H. inversion H. reflexivity.
Qed.

Lemma sorted_storages_keys (f : pyval -> res pydict) (each : list pyval)
  (unsorted storages : list pydict) :
  (forall s c, f s = Ok c -> dict_keys c = canonical_storage_keys) ->
  map_res f each = Ok unsorted ->
  sorted_by storage_key unsorted = Ok storages ->
  Forall (fun s => dict_keys s = canonical_storage_keys) storages.
Proof.
  intros Hf Hmap Hsort. apply Forall_forall. intros c Hc.
  apply (proj1 (sorted_by_In _ _ _ c Hsort)) in Hc.
  destruct (map_res_In _ _ _ _ Hmap Hc) as [s [_ Hs]].
  exact (Hf s c Hs).
Qed.

Lemma _norm_lib_canonical (d : pyval) (c : pydict) :
  _norm_lib d = Ok c -> canonical_device c.
Proof.
  unfold _norm_lib. intro H.
  bind_inv H. bind_inv H. bind_inv H. bind_inv H.
  bind_inv H. rename a3 into unsorted, Ha3 into Hmap.
  bind_inv H. rename a3 into storages, Ha3 into Hsort.
  do 4 bind_inv H. inversion H; subst c. split; [reflexivity|].
  exists storages. split; [reflexivity|].
  exact (sorted_storages_keys _ _ _ _ lib_storage_keys Hmap Hsort).
Qed.

Lemma _norm_swift_canonical (d : pyval) (c : pydict) :
  _norm_swift d = Ok c -> canonical_device c.
Proof.
  unfold _norm_swift. intro H.
  bind_inv H. bind_inv H. bind_inv H.
  bind_inv H. rename a2 into unsorted, Ha2 into Hmap.
  bind_inv H. rename a2 into storages, Ha2 into Hsort.
  do 7 bind_inv H. inversion H; subst c. split; [reflexivity|].
  exists storages. split; [reflexivity|].
  exact (sorted_storages_keys _ _ _ _ swift_storage_keys Hmap Hsort).
Qed.

Lemma diff_device_keys (norm_lib norm_swift : pydict) (d : DiffEntry) :
  In d (_diff_device norm_lib norm_swift) ->
  exists k, (In k (dict_keys norm_lib) \/ In k (dict_keys norm_swift)) /\
            key d = "device." ++ k.
Proof.
  unfold _diff_device. rewrite in_flat_map. intros [k [Hk Hd]].
  apply sorted_str_In, str_union_In in Hk. exists k. split; [exact Hk|].
  unfold diff_device_key in Hd.
  destruct (negb (py_eq (get_none norm_lib k) (get_none norm_swift k))).
  - destruct Hd as [<-|[]]. reflexivity.
  - contradiction.
Qed.

(** C4 (exclusion guarantee).  Whatever the two raw records hold, when
    [_normalise_device] returns, each normalised device has exactly the keys
    manufacturer, model, firmware, friendly_name and storages, and each of
    its storages exactly description and capacity_bytes: no serial, no
    free_bytes.  Every entry of the device diff has one of the five keys
    [device.<field>], so none has the key of an excluded field. *)
Theorem excluded_fields_never_surface (libmtp_detect swiftmtp_probe : pyval)
  (norm_lib norm_swift : pydict) :
  _normalise_device libmtp_detect swiftmtp_probe = Ok (norm_lib, norm_swift) ->
  canonical_device norm_lib /\ canonical_device norm_swift /\
  (forall c, c = norm_lib \/ c = norm_swift ->
     dict_get "serial" c = None /\
     forall storages s, dict_get "storages" c = Some (PList storages) ->
       In (PDict s) storages -> dict_get "free_bytes" s = None) /\
  (forall d, In d (_diff_device norm_lib norm_swift) ->
     In (key d) (map (fun k => "device." ++ k) canonical_device_keys) /\
     key d <> "device.serial" /\ key d <> "device.free_bytes").
Proof.
  unfold _normalise_device. intro H.
  bind_inv H. bind_inv H. inversion H; subst. clear H.
  pose proof (_norm_lib_canonical _ _ Ha) as Cl.
  pose proof (_norm_swift_canonical _ _ Ha0) as Cs.
  assert (Hex : forall c, canonical_device c ->
            dict_get "serial" c = None /\
            forall storages s, dict_get "storages" c = Some (PList storages) ->
              In (PDict s) storages -> dict_get "free_bytes" s = None).
  { intros c [Hk [ss [Hss Hall]]]. split.
    - destruct c as [|[k1 v1] [|[k2 v2] [|[k3 v3] [|[k4 v4] [|[k5 v5] [|]]]]]];
        try discriminate Hk.
      inversion Hk; subst. reflexivity.
    - intros storages s Hst Hin. rewrite Hss in Hst. inversion Hst; subst.
      apply in_map_iff in Hin. destruct Hin as [s' [E Hin]]. inversion E; subst.
      rewrite Forall_forall in Hall. specialize (Hall s Hin).
      destruct s as [|[k1 v1] [|[k2 v2] [|]]]; try discriminate Hall.
      inversion Hall; subst. reflexivity. }
  split; [exact Cl|]. split; [exact Cs|]. split.
  - intros c [->| ->]; apply Hex; assumption.
  - intros d Hd. destruct (diff_device_keys _ _ _ Hd) as [k [Hk Hkey]].
    assert (Hin : In k canonical_device_keys).
    { destruct Cl as [Kl _]. destruct Cs as [Ks _]. rewrite Kl, Ks in Hk. tauto. }
    rewrite Hkey. split; [apply in_map; exact Hin|].
    simpl in Hin.
    split; intro E; apply (string_app_inv_head "device.") in E; subst k;
      repeat (destruct Hin as [Hin|Hin]; [discriminate Hin|]); exact Hin.
Qed.

(** Two raw records that disagree on the serial number and on the free
    space of the storage, and on nothing else. *)
Lemma excluded_fields_never_surface_witness :
  let libmtp_detect :=
    PDict [("devices", PList [PDict [
       ("index", PInt 0); ("vid", PStr "18d1"); ("pid", PStr "4ee1");
       ("storages", PList [PDict [("id", PInt 65537);
                                  ("description", PStr "Internal storage");
                                  ("capacity_bytes", PInt 64000000000);
                                  ("free_bytes", PInt 1000)]]);
       ("manufacturer", PStr "Google"); ("model", PStr "Pixel 7");
       ("serial", PStr "2A111FDH200ABC"); ("firmware", PStr "1.0");
       ("friendly_name", PStr "Pixel")]]);
           ("_source", PStr "mtp-detect")] in
  let swiftmtp_probe :=
    PDict [("device", PDict [
       ("manufacturer", PStr "Google"); ("model", PStr "Pixel 7");
       ("serial", PStr "REDACTED"); ("firmwareVersion", PStr "1.0");
       ("friendlyName", PStr "Pixel");
       ("storages", PList [PDict [("description", PStr "Internal storage");
                                  ("capacityBytes", PInt 64000000000);
                                  ("free_bytes", PInt 2000)]])])] in
  exists norm_lib norm_swift,
    _normalise_device libmtp_detect swiftmtp_probe = Ok (norm_lib, norm_swift) /\
    dict_get "serial" norm_lib = None /\
    _diff_device norm_lib norm_swift = [].
Proof.
  intros libmtp_detect swiftmtp_probe.
  eexists. eexists. split; [reflexivity|].
  split; [|reflexivity].
  refine (proj1 (proj1 (proj2 (proj2
            (excluded_fields_never_surface libmtp_detect swiftmtp_probe _ _ eq_refl)))
            _ (or_introl eq_refl))).
Defined.

Lemma dict_has_false (k : string) (d : pydict) :
  negb (dict_has k d) = true -> dict_get k d = None.
Proof.
  unfold dict_has. destruct (dict_get k d); [discriminate | reflexivity].
Qed.




(** What the runners hand over when a tool is missing or its output cannot
    be parsed, and the result of [mtp-detect] without a device, are such
    records. *)
Lemma runner_markers_are_missing_records (message raw : string) :
  missing_record (PDict [("error", PStr message)]) = true /\
  missing_record (PDict [("error", PStr message); ("raw", PStr raw)]) = true /\
  missing_record (PDict [("devices", PList []); ("_source", PStr "mtp-detect")]) = true /\
  missing_record (PDict []) = true.
Proof. repeat split. Qed.


(* ===================================================================== *)
(** ** Classification: the overlay as an ordered list of declarations *)
(* ===================================================================== *)

Lemma amap_set_lift (p : string) (v : pyval * pyval) (m : smap) :
  amap_set (PStr p) v (lift m) = lift (smap_set p v m).
Proof.
  induction m as [|[q w] rest IH]; simpl.
  - reflexivity.
  - destruct (p =? q)%string; simpl.
    + reflexivity.
    + f_equal. exact IH.
Qed.

Lemma amap_merge_lift (a b : smap) :
  amap_merge (lift a) (lift b) = lift (smap_build b a).
Proof.
  unfold amap_merge, smap_build. revert a.
  induction b as [|[q w] rest IH]; simpl; intro a.
  - reflexivity.
  - rewrite amap_set_lift. apply IH.
Qed.

Lemma first_match_lift (k : string) (m : smap) :
  first_match k (lift m) = Ok (option_map snd (first_hit k m)).
Proof.
  unfold first_hit. induction m as [|[q w] rest IH]; cbn [lift map first_match find fst snd].
  - reflexivity.
  - change (pattern_matches k (PStr q)) with (Ok (pattern_hit k q)).
    cbn [bind]. destruct (pattern_hit k q).
    + reflexivity.
    + exact IH.
Qed.

Lemma build_entry_lift (implied entry : pyval) (m : smap) :
  entry_ok entry = true ->
  build_entry implied (lift m) entry =
  Ok (lift (smap_build (declaration implied entry) m)).
Proof.
  destruct entry as [| | | | |fields]; try discriminate.
  unfold entry_ok, build_entry, declaration, smap_build, py_get, get_or, bind.
  destruct (dict_get "key" fields) as [[|b|n|s|l|d]|]; simpl;
    try (intro H; apply negb_true_iff in H; simpl in H; rewrite H; reflexivity);
    try reflexivity.
  intros _. destruct (s =? "")%string; simpl.
  - reflexivity.
  - unfold map_set. simpl. rewrite amap_set_lift. reflexivity.
Qed.

Lemma for_each_build_lift (implied : pyval) (entries : list pyval) (m : smap) :
  forallb entry_ok entries = true ->
  for_each (build_entry implied) entries (lift m) =
  Ok (lift (smap_build (flat_map (declaration implied) entries) m)).
Proof.
  revert m. induction entries as [|e rest IH]; simpl; intros m H.
  - reflexivity.
  - apply andb_prop in H. destruct H as [He Hrest].
    rewrite (build_entry_lift implied e m He). simpl.
    rewrite (IH _ Hrest). unfold smap_build. rewrite fold_left_app. reflexivity.
Qed.

Lemma _build_map_lift (fields : pydict) (section : string) (entries : list pyval) :
  get_or fields section (PList []) = PList entries ->
  forallb entry_ok entries = true ->
  _build_map (PDict fields) section =
  Ok (lift (smap_build (section_declarations section entries) [])).
Proof.
  intros Hsec Hok. unfold _build_map. simpl.
  fold (get_or fields section (PList [])). rewrite Hsec. simpl.
  exact (for_each_build_lift (section_label_map section) entries [] Hok).
Qed.

(** *** The winner of a key in a pattern map *)

Lemma pattern_hit_eqb (k p q : string) :
  (p =? q)%string = true -> pattern_hit k p = pattern_hit k q.
Proof. intro H. apply String.eqb_eq in H. subst. reflexivity. Qed.

Lemma first_hit_hits (k : string) (m : smap) (d : decl) :
  first_hit k m = Some d -> pattern_hit k (fst d) = true.
Proof. unfold first_hit. intro H. apply find_some in H. tauto. Qed.

Lemma first_hit_set (k p : string) (v : pyval * pyval) (m : smap) :
  first_hit k (smap_set p v m) = winner_step k (first_hit k m) (p, v).
Proof.
  unfold first_hit. induction m as [|[q w] rest IH]; cbn [smap_set find fst].
  - unfold winner_step. cbn [find fst]. destruct (pattern_hit k p); reflexivity.
  - destruct (p =? q)%string eqn:Epq; cbn [find fst].
    + rewrite <- (pattern_hit_eqb k p q Epq).
      destruct (pattern_hit k p) eqn:Ep; unfold winner_step; cbn [fst].
      * rewrite Epq. apply String.eqb_eq in Epq. subst. reflexivity.
      * destruct (find (fun d => pattern_hit k (fst d)) rest) as [[q' w']|] eqn:F.
        -- destruct (p =? q')%string eqn:E'; [|reflexivity].
           apply find_some in F. destruct F as [_ F]. cbn [fst] in F.
           apply String.eqb_eq in E'. subst. congruence.
        -- rewrite Ep. reflexivity.
    + destruct (pattern_hit k q) eqn:Eq.
      * unfold winner_step. cbn [fst]. rewrite Epq. reflexivity.
      * exact IH.
Qed.

Lemma first_hit_build (k : string) (decls : list decl) (m : smap) :
  first_hit k (smap_build decls m) = fold_left (winner_step k) decls (first_hit k m).
Proof.
  unfold smap_build. revert m. induction decls as [|[p v] rest IH]; simpl; intro m.
  - reflexivity.
  - rewrite IH, first_hit_set. reflexivity.
Qed.

Lemma winner_fold_Some (k : string) (decls : list decl) (q : string)
  (w : pyval * pyval) :
  exists w', fold_left (winner_step k) decls (Some (q, w)) = Some (q, w') /\
             (~ In q (map fst decls) -> w' = w).
Proof.
  revert w. induction decls as [|[p v] rest IH]; simpl; intro w.
  - exists w. auto.
  - destruct (p =? q)%string eqn:E.
    + apply String.eqb_eq in E. subst p.
      destruct (IH v) as [w' [H1 H2]]. exists w'. split; [exact H1|].
      intro N. exfalso. apply N. left. reflexivity.
    + destruct (IH w) as [w' [H1 H2]]. exists w'. split; [exact H1|].
      intro N. apply H2. intro N'. apply N. right. exact N'.
Qed.

Lemma winner_step_None (k : string) (d : decl) :
  winner_step k None d = if pattern_hit k (fst d) then Some d else None.
Proof. reflexivity. Qed.

Lemma winner_fold_None (k : string) (decls : list decl) :
  (forall d, In d decls -> pattern_hit k (fst d) = false) ->
  fold_left (winner_step k) decls None = None.
Proof.
  induction decls as [|d rest IH]; cbn [fold_left]; intro H.
  - reflexivity.
  - rewrite winner_step_None, (H d (or_introl eq_refl)). apply IH. intros d' Hd'. apply H. right. exact Hd'.
Qed.

Lemma winner_fold_hits (k : string) (decls : list decl) (d : decl) :
  fold_left (winner_step k) decls None = Some d -> pattern_hit k (fst d) = true.
Proof.
  induction decls as [|[p v] rest IH]; cbn [fold_left].
  - discriminate.
  - rewrite winner_step_None. cbn [fst]. destruct (pattern_hit k p) eqn:E.
    + destruct (winner_fold_Some k rest p v) as [w' [H _]].
      intro H'. pose proof (eq_trans (eq_sym H) H') as X.
      inversion X; subst. exact E.
    + exact IH.
Qed.

Lemma smap_set_keys (p : string) (v : pyval * pyval) (m : smap) (q : string) :
  In q (map fst (smap_set p v m)) -> q = p \/ In q (map fst m).
Proof.
  induction m as [|[q0 w0] rest IH]; cbn [smap_set map fst In].
  - intros [<-|[]]. left. reflexivity.
  - destruct (p =? q0)%string; cbn [map fst In].
    + intros [<-|H]; auto.
    + intros [<-|H]; auto. destruct (IH H); auto.
Qed.

Lemma smap_set_NoDup (p : string) (v : pyval * pyval) (m : smap) :
  NoDup (map fst m) -> NoDup (map fst (smap_set p v m)).
Proof.
  induction m as [|[q0 w0] rest IH]; cbn [smap_set map fst]; intro H.
  - constructor; [intros []|constructor].
  - inversion H as [|? ? Hnotin Hrest]; subst.
    destruct (p =? q0)%string eqn:E; cbn [map fst].
    + constructor; assumption.
    + constructor; [|apply IH; exact Hrest].
      intro Hin. apply smap_set_keys in Hin. destruct Hin as [->|Hin].
      * rewrite String.eqb_refl in E. discriminate E.
      * contradiction.
Qed.

Lemma smap_build_NoDup (decls : list decl) (m : smap) :
  NoDup (map fst m) -> NoDup (map fst (smap_build decls m)).
Proof.
  unfold smap_build. revert m. induction decls as [|d rest IH]; cbn [fold_left]; intros m H.
  - exact H.
  - apply IH. apply smap_set_NoDup. exact H.
Qed.

Lemma winner_step_Some (k q : string) (w : pyval * pyval) (d : decl) :
  winner_step k (Some (q, w)) d = if (fst d =? q)%string then Some d else Some (q, w).
Proof. reflexivity. Qed.

Lemma winner_fold_set (k p : string) (v : pyval * pyval) (m : smap) (c : option decl) :
  NoDup (map fst m) ->
  fold_left (winner_step k) (smap_set p v m) c =
  winner_step k (fold_left (winner_step k) m c) (p, v).
Proof.
  revert c. induction m as [|[q w] rest IH]; cbn [smap_set map fst]; intros c H.
  - reflexivity.
  - inversion H as [|? ? Hnotin Hrest]; subst.
    destruct (p =? q)%string eqn:E; cbn [fold_left].
    + apply String.eqb_eq in E. subst q.
      destruct c as [[q' w0]|].
      * rewrite !winner_step_Some. cbn [fst].
        destruct (p =? q')%string eqn:E'.
        -- destruct (winner_fold_Some k rest p v) as [x [Hx Hx']].
           destruct (winner_fold_Some k rest p w) as [y [Hy Hy']].
           rewrite (Hx' Hnotin) in Hx. rewrite (Hy' Hnotin) in Hy.
           etransitivity; [exact Hx|].
           etransitivity; [|apply f_equal2; [symmetry; exact Hy|reflexivity]].
           rewrite winner_step_Some. cbn [fst]. rewrite String.eqb_refl. reflexivity.
        -- destruct (winner_fold_Some k rest q' w0) as [x [Hx _]].
           etransitivity; [exact Hx|].
           etransitivity; [|apply f_equal2; [symmetry; exact Hx|reflexivity]].
           rewrite winner_step_Some. cbn [fst]. rewrite E'. reflexivity.
      * rewrite !winner_step_None. cbn [fst].
        destruct (pattern_hit k p) eqn:Ehit.
        -- destruct (winner_fold_Some k rest p v) as [x [Hx Hx']].
           destruct (winner_fold_Some k rest p w) as [y [Hy Hy']].
           rewrite (Hx' Hnotin) in Hx. rewrite (Hy' Hnotin) in Hy.
           etransitivity; [exact Hx|].
           etransitivity; [|apply f_equal2; [symmetry; exact Hy|reflexivity]].
           rewrite winner_step_Some. cbn [fst]. rewrite String.eqb_refl. reflexivity.
        -- destruct (fold_left (winner_step k) rest None) as [[q' w']|] eqn:F.
           ++ rewrite winner_step_Some. cbn [fst].
              destruct (p =? q')%string eqn:E'; [|reflexivity].
              apply String.eqb_eq in E'. subst q'.
              apply winner_fold_hits in F. cbn [fst] in F. congruence.
           ++ rewrite winner_step_None. cbn [fst]. rewrite Ehit. reflexivity.
    + apply IH. exact Hrest.
Qed.

Lemma winner_fold_build (k : string) (decls : list decl) (c : option decl) :
  fold_left (winner_step k) (smap_build decls []) c =
  fold_left (winner_step k) decls c.
Proof.
  induction decls as [|d rest IH] using rev_ind.
  - reflexivity.
  - unfold smap_build. rewrite !fold_left_app. cbn [fold_left].
    fold (smap_build rest []).
    rewrite winner_fold_set by (apply smap_build_NoDup; constructor).
    rewrite IH. destruct d. reflexivity.
Qed.

(** The winner [_classify_diffs] finds in [all_patterns] is the winner of
    the declarations read in section order. *)
Lemma first_hit_all_patterns (k : string) (di dq db : list decl) :
  first_hit k (smap_build (smap_build db [])
                 (smap_build (smap_build dq []) (smap_build di []))) =
  winner k (di ++ dq ++ db).
Proof.
  unfold winner. rewrite !fold_left_app.
  rewrite first_hit_build, winner_fold_build.
  rewrite first_hit_build, winner_fold_build.
  rewrite first_hit_build. reflexivity.
Qed.

Lemma forallb_app3 {A : Type} (f : A -> bool) (a b c : list A) :
  forallb f (a ++ b ++ c) = true ->
  forallb f a = true /\ forallb f b = true /\ forallb f c = true.
Proof.
  rewrite !forallb_app. intro H.
  apply andb_prop in H. destruct H as [Ha H].
  apply andb_prop in H. tauto.
Qed.

(** [_classify_diffs] on a well-formed overlay: every entry is relabelled
    by the winner among the declarations, and no exception is raised. *)
Lemma _classify_diffs_spec (diffs : list DiffEntry) (expectations : pyval)
  (intentional quirk bugs : list pyval) :
  overlay_sections expectations intentional quirk bugs ->
  forallb entry_ok (intentional ++ quirk ++ bugs) = true ->
  _classify_diffs diffs expectations =
  Ok (map (relabel (declarations intentional quirk bugs)) diffs).
Proof.
  intros [fields [-> [Hi [Hq Hb]]]] Hok.
  apply forallb_app3 in Hok. destruct Hok as [Oi [Oq Ob]].
  unfold _classify_diffs.
  rewrite (_build_map_lift fields _ _ Hi Oi). cbn [bind].
  rewrite (_build_map_lift fields _ _ Hq Oq). cbn [bind].
  rewrite (_build_map_lift fields _ _ Hb Ob). cbn [bind].
  rewrite !amap_merge_lift.
  apply map_res_pure. intros d _.
  unfold classify_one. rewrite first_match_lift. cbn [bind].
  rewrite first_hit_all_patterns. unfold relabel, declarations.
  destruct (winner (key d) _) as [[q [lbl rsn]]|]; reflexivity.
Qed.

Lemma winner_split (k p : string) (v : pyval * pyval) (before after : list decl) :
  (forall q, In q (map fst before) -> pattern_hit k q = false) ->
  pattern_hit k p = true ->
  exists w, winner k (before ++ (p, v) :: after) = Some (p, w) /\
            (~ In p (map fst after) -> w = v) /\
            (forall mid v' after',
               after = (mid ++ (p, v') :: after')%list ->
               ~ In p (map fst after') -> w = v').
Proof.
  intros Hbefore Hp. unfold winner. rewrite fold_left_app.
  rewrite winner_fold_None.
  2:{ intros d Hd. apply Hbefore. apply in_map. exact Hd. }
  cbn [fold_left]. rewrite winner_step_None. cbn [fst]. rewrite Hp.
  destruct (winner_fold_Some k after p v) as [w [Hw Hw']].
  exists w. split; [exact Hw|]. split; [exact Hw'|].
  intros mid v' after' -> Hnot.
  rewrite fold_left_app in Hw. cbn [fold_left] in Hw.
  destruct (winner_fold_Some k mid p v) as [x [Hx _]].
  assert (E : fold_left (winner_step k) after'
                (winner_step k (Some (p, x)) (p, v')) = Some (p, w)).
  { etransitivity; [|exact Hw]. f_equal. f_equal. symmetry. exact Hx. }
  rewrite winner_step_Some in E. cbn [fst] in E. rewrite String.eqb_refl in E.
  destruct (winner_fold_Some k after' p v') as [y [Hy Hy']].
  rewrite (Hy' Hnot) in Hy.
  pose proof (eq_trans (eq_sym Hy) E) as X. inversion X. reflexivity.
Qed.

Lemma winner_fold_In (k : string) (decls : list decl) (c : option decl) (d : decl) :
  fold_left (winner_step k) decls c = Some d -> c = Some d \/ In d decls.
Proof.
  revert c. induction decls as [|d0 rest IH]; cbn [fold_left]; intros c H.
  - left. exact H.
  - destruct (IH _ H) as [E|Hin].
    + destruct c as [[q w]|].
      * rewrite winner_step_Some in E. destruct (fst d0 =? q)%string.
        -- inversion E; subst. right. left. reflexivity.
        -- left. exact E.
      * rewrite winner_step_None in E. destruct (pattern_hit k (fst d0)).
        -- inversion E; subst. right. left. reflexivity.
        -- discriminate E.
    + right. right. exact Hin.
Qed.

Lemma relabel_label (decls : list decl) (d : DiffEntry) :
  label (relabel decls d) = label d \/
  exists dc, In dc decls /\ label (relabel decls d) = fst (snd dc).
Proof.
  unfold relabel. destruct (winner (key d) decls) as [[q [lbl rsn]]|] eqn:W.
  - right. exists (q, (lbl, rsn)). split; [|reflexivity].
    unfold winner in W. apply winner_fold_In in W.
    destruct W as [W|W]; [discriminate W | exact W].
  - left. reflexivity.
Qed.

Lemma relabel_no_hit (decls : list decl) (d : DiffEntry) :
  (forall dc, In dc decls -> pattern_hit (key d) (fst dc) = false) ->
  relabel decls d = d.
Proof.
  intro H. unfold relabel, winner. rewrite (winner_fold_None _ _ H). reflexivity.
Qed.

Lemma section_declarations_app (section : string) (a b : list pyval) :
  section_declarations section (a ++ b) =
  (section_declarations section a ++ section_declarations section b)%list.
Proof. unfold section_declarations. apply flat_map_app. Qed.

(** *** Summary counts *)

Lemma amap_set_same_keys {V : Type} (k : pyval) (v : V) (m : amap V) :
  (exists k', In k' (amap_keys m) /\ py_eq k k' = true) ->
  amap_keys (amap_set k v m) = amap_keys m.
Proof.
  induction m as [|[k0 v0] rest IH]; cbn [amap_set amap_keys map fst In].
  - intros [k' [[] _]].
  - intros [k' [Hin Heq]]. destruct (py_eq k k0) eqn:E; cbn [map fst].
    + reflexivity.
    + f_equal. apply IH. destruct Hin as [<-|Hin].
      * rewrite Heq in E. discriminate E.
      * exists k'. auto.
Qed.

Lemma count_labels_closed (diffs : list DiffEntry) (acc : amap Z) :
  (forall d, In d diffs -> labels_closed (label d)) ->
  amap_keys acc = map PStr _ALL_LABELS ->
  exists counts,
    for_each (fun counts d =>
                n <- map_get counts (label d) 0 ;;
                map_set counts (label d) (n + 1)) diffs acc = Ok counts /\
    amap_keys counts = map PStr _ALL_LABELS.
Proof.
  revert acc. induction diffs as [|d rest IH]; cbn [for_each]; intros acc H Hacc.
  - exists acc. auto.
  - assert (Hd : labels_closed (label d)) by (apply H; left; reflexivity).
    unfold labels_closed in Hd. apply in_map_iff in Hd.
    destruct Hd as [l [Hl Hin]]. rewrite <- Hl.
    unfold map_get, map_set. cbn [check_hashable hashable bind].
    apply IH.
    + intros d' Hd'. apply H. right. exact Hd'.
    + rewrite amap_set_same_keys; [exact Hacc|].
      exists (PStr l). split.
      * rewrite Hacc. apply in_map. exact Hin.
      * cbn [py_eq]. apply String.eqb_refl.
Qed.

Lemma _summary_counts_closed (diffs : list DiffEntry) :
  (forall d, In d diffs -> labels_closed (label d)) ->
  exists counts, _summary_counts diffs = Ok counts /\
                 amap_keys counts = map PStr _ALL_LABELS.
Proof.
  intro H. apply count_labels_closed; [exact H | reflexivity].
Qed.

(* ===================================================================== *)
(** ** Classification: precedence, labels, known bugs without a label *)
(* ===================================================================== *)

(** C1, as the specification states it, fails: the pattern [device.model]
    declared under [intentional_differences] and again under [known_bugs]
    labels the entry [bug_libmtp], with the reason of the known bug; and of
    two declarations of one pattern in one section the later one decides. *)
Lemma later_declaration_of_a_pattern_wins :
  let d := new_DiffEntry "device.model" (PStr "Pixel 7") (PStr "Pixel") in
  let across :=
    PDict [("intentional_differences",
            PList [PDict [("key", PStr "device.model"); ("reason", PStr "redacted")]]);
           ("known_bugs",
            PList [PDict [("key", PStr "device.model"); ("label", PStr "bug_libmtp");
                          ("reason", PStr "libmtp truncates")]])] in
  let within :=
    PDict [("intentional_differences",
            PList [PDict [("key", PStr "device.model"); ("reason", PStr "first")];
                   PDict [("key", PStr "device.model"); ("reason", PStr "second")]])] in
  _classify_diffs [d] across =
    Ok [set_label d (PStr "bug_libmtp") (PStr "libmtp truncates")] /\
  _classify_diffs [d] within =
    Ok [set_label d (PStr "intentional") (PStr "second")].
Proof. split; reflexivity. Qed.

(** C1, amended.  On a well-formed overlay, classification relabels every
    entry by reading the declarations in section order (intentional, then
    quirk_needed, then known_bugs) and in the order of the entries of each
    section.  When the first declaration whose pattern matches the key of
    [d] declares the pattern [p]: if [p] is not declared again later, [d]
    gets the label and reason of that declaration, whatever later
    declarations of other matching patterns say; if [p] is declared again,
    [d] gets the label and reason of the last declaration of [p].  An entry
    no pattern matches is left as it is. *)
Theorem overlay_precedence (diffs : list DiffEntry) (expectations : pyval)
  (intentional quirk bugs : list pyval) (before after : list decl)
  (p : string) (lbl rsn : pyval) (d : DiffEntry) :
  overlay_sections expectations intentional quirk bugs ->
  forallb entry_ok (intentional ++ quirk ++ bugs) = true ->
  declarations intentional quirk bugs = (before ++ (p, (lbl, rsn)) :: after)%list ->
  (forall q, In q (map fst before) -> pattern_hit (key d) q = false) ->
  pattern_hit (key d) p = true ->
  let decls := declarations intentional quirk bugs in
  _classify_diffs diffs expectations = Ok (map (relabel decls) diffs) /\
  (~ In p (map fst after) -> relabel decls d = set_label d lbl rsn) /\
  (forall mid lbl' rsn' after',
     after = (mid ++ (p, (lbl', rsn')) :: after')%list ->
     ~ In p (map fst after') ->
     relabel decls d = set_label d lbl' rsn') /\
  (forall d', (forall dc, In dc decls -> pattern_hit (key d') (fst dc) = false) ->
     relabel decls d' = d').
Proof.
  intros Hsec Hok Hdecls Hbefore Hp decls.
  split; [exact (_classify_diffs_spec diffs _ _ _ _ Hsec Hok)|].
  destruct (winner_split (key d) p (lbl, rsn) before after Hbefore Hp)
    as [w [Hw [Hone Hlast]]].
  unfold decls. rewrite Hdecls.
  split; [|split].
  - intro Hnot. unfold relabel. rewrite Hw, (Hone Hnot). reflexivity.
  - intros mid lbl' rsn' after' Hafter Hnot.
    unfold relabel. rewrite Hw, (Hlast mid (lbl', rsn') after' Hafter Hnot).
    reflexivity.
  - intros d' Hd'. apply relabel_no_hit. exact Hd'.
Qed.

(** Two overlapping patterns in two sections: [device] under
    [known_bugs], [device.storages] under [intentional_differences]. *)
Lemma overlay_precedence_witness :
  let d := new_DiffEntry "device.storages" (PList []) PNone in
  let intentional :=
    [PDict [("key", PStr "device.storages"); ("reason", PStr "volatile")]] in
  let bugs :=
    [PDict [("key", PStr "device"); ("label", PStr "bug_swiftmtp");
            ("reason", PStr "probe incomplete")]] in
  let expectations :=
    PDict [("known_bugs", PList bugs); ("intentional_differences", PList intentional)] in
  _classify_diffs [d] expectations =
    Ok [set_label d (PStr "intentional") (PStr "volatile")].
Proof.
  intros d intentional bugs expectations.
  assert (S : overlay_sections expectations intentional [] bugs).
  { eexists. repeat split. }
  destruct (overlay_precedence [d] expectations intentional [] bugs
              [] [("device", (PStr "bug_swiftmtp", PStr "probe incomplete"))]
              "device.storages" (PStr "intentional") (PStr "volatile") d
              S eq_refl eq_refl
              (fun q (H : In q []) => match H with end) eq_refl)
    as [E [One _]].
  rewrite E. cbn [map]. rewrite One; [reflexivity|].
  cbn. intros [H|[]]. discriminate H.
Defined.

(** C7, as the specification states it, fails: the label an overlay entry
    declares is copied to the Diff Entry as it is, and the summary gets a
    sixth key for it. *)
Lemma overlay_label_outside_the_set :
  let d := new_DiffEntry "device.model" (PStr "Pixel 7") (PStr "Pixel") in
  let expectations :=
    PDict [("known_bugs",
            PList [PDict [("key", PStr "device.model"); ("label", PStr "wontfix")]])] in
  _classify_diffs [d] expectations = Ok [set_label d (PStr "wontfix") (PStr "")] /\
  ~ labels_closed (PStr "wontfix") /\
  _summary_counts [set_label d (PStr "wontfix") (PStr "")] =
    Ok [(PStr "bug_swiftmtp", 0); (PStr "bug_libmtp", 0); (PStr "intentional", 0);
        (PStr "quirk_needed", 0); (PStr "unknown", 0); (PStr "wontfix", 1)].
Proof.
  intros d expectations. split; [reflexivity|]. split; [|reflexivity].
  unfold labels_closed. cbn.
  intro H. repeat (destruct H as [H|H]; [discriminate H|]). exact H.
Qed.

(** C8, as the specification states it, fails: a known bug declared without
    a label labels the entry unknown, and the reason is the empty string:
    nothing records that the overlay is at fault. *)
Lemma known_bug_without_label_has_no_explanation :
  let d := new_DiffEntry "device.model" (PStr "Pixel 7") (PStr "Pixel") in
  let expectations :=
    PDict [("known_bugs", PList [PDict [("key", PStr "device.model")]])] in
  _classify_diffs [d] expectations = Ok [set_label d (PStr "unknown") (PStr "")] /\
  reason (set_label d (PStr "unknown") (PStr "")) = PStr "" /\
  set_label d (PStr "unknown") (PStr "") = d.
Proof. repeat split. Qed.

(** C8, amended.  On a well-formed overlay in which a known_bugs entry
    declares the pattern [p] without a label, a Diff Entry that [p] matches
    and no other declared pattern matches is labelled unknown and carries
    the reason that entry declares (the empty string when it declares
    none); classification returns normally. *)
Theorem known_bug_without_label (diffs : list DiffEntry) (expectations : pyval)
  (intentional quirk bugs1 bugs2 : list pyval) (entry : pydict) (p : string)
  (d : DiffEntry) :
  overlay_sections expectations intentional quirk (bugs1 ++ PDict entry :: bugs2) ->
  forallb entry_ok (intentional ++ quirk ++ bugs1 ++ PDict entry :: bugs2) = true ->
  dict_get "key" entry = Some (PStr p) ->
  p <> "" ->
  dict_get "label" entry = None ->
  pattern_hit (key d) p = true ->
  (forall dc, In dc (declarations intentional quirk (bugs1 ++ bugs2)) ->
     pattern_hit (key d) (fst dc) = false) ->
  let decls := declarations intentional quirk (bugs1 ++ PDict entry :: bugs2) in
  _classify_diffs diffs expectations = Ok (map (relabel decls) diffs) /\
  relabel decls d = set_label d (PStr LABEL_UNKNOWN) (get_or entry "reason" (PStr "")).
Proof.
  intros Hsec Hok Hkey Hp Hlabel Hhit Hothers decls.
  split; [exact (_classify_diffs_spec diffs _ _ _ _ Hsec Hok)|].
  assert (Hentry : declaration (section_label_map "known_bugs") (PDict entry) =
                   [(p, (PStr LABEL_UNKNOWN, get_or entry "reason" (PStr "")))]).
  { unfold declaration, get_or. rewrite Hkey, Hlabel.
    destruct (String.eqb_spec p "") as [E|_]; [contradiction|]. reflexivity. }
  set (di := section_declarations "intentional_differences" intentional) in *.
  set (dq := section_declarations "quirk_needed" quirk) in *.
  set (b1 := section_declarations "known_bugs" bugs1) in *.
  set (b2 := section_declarations "known_bugs" bugs2) in *.
  assert (Hdecls : decls =
            ((di ++ dq ++ b1) ++
             (p, (PStr LABEL_UNKNOWN, get_or entry "reason" (PStr ""))) :: b2)%list).
  { unfold decls, declarations. rewrite section_declarations_app.
    unfold section_declarations at 4. cbn [flat_map].
    fold (section_declarations "known_bugs" bugs2). rewrite Hentry.
    fold di dq b1 b2. rewrite <- !app_assoc. reflexivity. }
  assert (Hsplit : declarations intentional quirk (bugs1 ++ bugs2) =
                   (di ++ dq ++ b1 ++ b2)%list).
  { unfold declarations. rewrite section_declarations_app. reflexivity. }
  rewrite Hsplit in Hothers.
  destruct (winner_split (key d) p
              (PStr LABEL_UNKNOWN, get_or entry "reason" (PStr ""))
              (di ++ dq ++ b1) b2) as [w [Hw [Hone _]]].
  - intros q Hq. apply in_map_iff in Hq. destruct Hq as [dc [<- Hdc]].
    apply Hothers. rewrite !in_app_iff in *. tauto.
  - exact Hhit.
  - unfold relabel. rewrite Hdecls, Hw, Hone; [reflexivity|].
    intro Hin. apply in_map_iff in Hin. destruct Hin as [dc [E Hdc]].
    assert (F : pattern_hit (key d) (fst dc) = false).
    { apply Hothers. rewrite !in_app_iff. tauto. }
    rewrite E in F. congruence.
Qed.

(** A known bug without a label, with a reason, beside an intentional
    difference for another key. *)
Lemma known_bug_without_label_witness :
  let d := new_DiffEntry "device.firmware" (PStr "1.0") (PStr "1.1") in
  let intentional := [PDict [("key", PStr "device.friendly_name")]] in
  let entry := [("key", PStr "device.firmware"); ("reason", PStr "vendor string")] in
  let expectations :=
    PDict [("intentional_differences", PList intentional);
           ("known_bugs", PList [PDict entry])] in
  _classify_diffs [d] expectations =
    Ok [set_label d (PStr "unknown") (PStr "vendor string")].
Proof.
  intros d intentional entry expectations.
  assert (S : overlay_sections expectations intentional [] ([] ++ PDict entry :: [])).
  { eexists. repeat split. }
  destruct (known_bug_without_label [d] expectations intentional [] [] [] entry
              "device.firmware" d S eq_refl eq_refl
              ltac:(discriminate) eq_refl eq_refl) as [E R].
  - intros dc [<-|[]]. reflexivity.
  - rewrite E. cbn [map]. rewrite R. reflexivity.
Defined.

(* ===================================================================== *)
(** ** File normalisation: folders *)
(* ===================================================================== *)

(** Induction on a Python value with the hypothesis for every member of a
    list and every value of a dict. *)
Lemma pyval_nested_ind (P : pyval -> Prop) :
  P PNone ->
  (forall b, P (PBool b)) ->
  (forall n, P (PInt n)) ->
  (forall s, P (PStr s)) ->
  (forall l, Forall P l -> P (PList l)) ->
  (forall d, Forall (fun kv => P (snd kv)) d -> P (PDict d)) ->
  forall v, P v.
Proof.
  intros HNone HBool HInt HStr HList HDict.
  fix IH 1. intros [|b|n|s|l|d].
  - exact HNone.
  - apply HBool.
  - apply HInt.
  - apply HStr.
  - apply HList. induction l as [|x l IHl]; constructor; [apply IH | exact IHl].
  - apply HDict. induction d as [|[k x] d IHd]; constructor; [apply IH | exact IHd].
Qed.

(** The equations of [_flatten_tree], in the shape of the source. *)
Lemma _flatten_tree_nil (prefix : pyval) : _flatten_tree (PList []) prefix = Ok [].
Proof. reflexivity. Qed.

Lemma _flatten_tree_cons (d : pydict) (rest : list pyval) (prefix : pyval) :
  _flatten_tree (PList (PDict d :: rest)) prefix =
  let name := get_or d "name" (PStr "") in
  let path := join_path prefix name in
  if is_folder d then
    sub <- _flatten_tree (get_or d "children" (PList [])) path ;;
    more <- _flatten_tree (PList rest) prefix ;;
    Ok (sub ++ more)%list
  else
    more <- _flatten_tree (PList rest) prefix ;;
    Ok (dict_set "path" path d :: more).
Proof.
  cbn [_flatten_tree]. unfold is_folder. cbv zeta.
  destruct (py_eq (get_or d "type" PNone) (PStr "folder")); [|reflexivity].
  f_equal. generalize (join_path prefix (get_or d "name" (PStr ""))).
  intro path. unfold get_or. induction d as [|[k v] d IH].
  - reflexivity.
  - cbn [dict_get]. destruct ("children" =? k)%string.
    + reflexivity.
    + exact IH.
Qed.

Lemma _flatten_tree_cons_other (item : pyval) (rest : list pyval) (prefix : pyval) :
  (forall d, item <> PDict d) ->
  _flatten_tree (PList (item :: rest)) prefix = Raise AttributeError.
Proof.
  destruct item; try reflexivity. intro H. exfalso. apply (H d). reflexivity.
Qed.

Lemma dict_get_set_same (k : string) (v : pyval) (d : pydict) :
  dict_get k (dict_set k v d) = Some v.
Proof.
  induction d as [|[k' v'] d IH]; cbn [dict_set dict_get].
  - rewrite String.eqb_refl. reflexivity.
  - destruct (k =? k')%string eqn:E; cbn [dict_get]; rewrite E.
    + reflexivity.
    + exact IH.
Qed.

Lemma dict_get_set_other (k k' : string) (v : pyval) (d : pydict) :
  k <> k' -> dict_get k (dict_set k' v d) = dict_get k d.
Proof.
  intro Hne. induction d as [|[k0 v0] d IH]; cbn [dict_set dict_get].
  - destruct (String.eqb_spec k k'); [contradiction | reflexivity].
  - destruct (String.eqb_spec k' k0) as [->|Hk0]; cbn [dict_get].
    + destruct (String.eqb_spec k k0); [contradiction | reflexivity].
    + destruct (k =? k0)%string; [reflexivity | exact IH].
Qed.

Lemma _flatten_tree_app (l1 l2 : list pyval) (prefix : pyval) :
  _flatten_tree (PList (l1 ++ l2)) prefix =
  (a <- _flatten_tree (PList l1) prefix ;;
   b <- _flatten_tree (PList l2) prefix ;;
   Ok (a ++ b)%list).
Proof.
  induction l1 as [|item l1 IH]; cbn [app].
  - rewrite _flatten_tree_nil. cbn [bind app]. symmetry. apply bind_ret_r.
  - destruct item as [| | | | |d];
      try (rewrite !_flatten_tree_cons_other by discriminate; reflexivity).
    rewrite !_flatten_tree_cons. cbv zeta. rewrite IH.
    destruct (is_folder d).
    + destruct (_flatten_tree (get_or d "children" (PList [])) _) as [sub|e];
        [|reflexivity].
      cbn [bind].
      destruct (_flatten_tree (PList l1) prefix) as [a|e]; [|reflexivity].
      cbn [bind].
      destruct (_flatten_tree (PList l2) prefix) as [b|e]; [|reflexivity].
      cbn [bind]. rewrite app_assoc. reflexivity.
    + destruct (_flatten_tree (PList l1) prefix) as [a|e]; [|reflexivity].
      cbn [bind].
      destruct (_flatten_tree (PList l2) prefix) as [b|e]; reflexivity.
Qed.

Lemma _flatten_tree_empty_folder (item : pyval) (rest : list pyval) (prefix : pyval) :
  empty_folder item ->
  _flatten_tree (PList (item :: rest)) prefix = _flatten_tree (PList rest) prefix.
Proof.
  intros [d [-> [Hf Hempty]]]. rewrite _flatten_tree_cons. cbv zeta.
  rewrite Hf, Hempty. cbn [bind app]. apply bind_ret_r.
Qed.

(** One more empty folder in the tree: the flattened list is the same. *)
Lemma _flatten_tree_adds_empty_folder (t t' : pyval) :
  adds_empty_folder t t' ->
  forall prefix, _flatten_tree t' prefix = _flatten_tree t prefix.
Proof.
  induction 1 as [l1 l2 item Hitem | l1 l2 d children children' Hf Hc _ IH];
    intro prefix.
  - rewrite !_flatten_tree_app. rewrite (_flatten_tree_empty_folder _ _ _ Hitem).
    reflexivity.
  - rewrite !_flatten_tree_app. rewrite !_flatten_tree_cons. cbv zeta.
    assert (Hf' : is_folder (dict_set "children" children' d) = true).
    { unfold is_folder, get_or in *.
      rewrite dict_get_set_other by discriminate. exact Hf. }
    rewrite Hf, Hf'. unfold get_or.
    rewrite dict_get_set_same, Hc, (dict_get_set_other "name") by discriminate.
    rewrite IH. reflexivity.
Qed.

(** What [_flatten_tree] yields never comes from a folder item. *)
Lemma _flatten_tree_yields_no_folder (items : pyval) :
  forall prefix out e,
    _flatten_tree items prefix = Ok out -> In e out -> is_folder e = false.
Proof.
  assert (G : forall v,
            (forall prefix out e,
               _flatten_tree v prefix = Ok out -> In e out -> is_folder e = false) /\
            (forall d k x, v = PDict d -> dict_get k d = Some x ->
               forall prefix out e,
                 _flatten_tree x prefix = Ok out -> In e out -> is_folder e = false)).
  { induction v as [|b|n|s|l IHl|d IHd] using pyval_nested_ind;
      try (split; [intros prefix out e H; inversion H; subst; intros []
                  | intros d' k x E; discriminate E]).
    - split; [|intros d' k x E; discriminate E].
      induction l as [|item rest IHrest]; intros prefix out e H Hin.
      + inversion H; subst. destruct Hin.
      + inversion IHl as [|? ? [_ Hitem] Hrest]; subst.
        specialize (IHrest Hrest).
        destruct item as [| | | | |d];
          try (rewrite _flatten_tree_cons_other in H by discriminate; discriminate H).
        rewrite _flatten_tree_cons in H. cbv zeta in H.
        destruct (is_folder d) eqn:Hf.
        * bind_inv H. bind_inv H. inversion H; subst.
          apply in_app_iff in Hin. destruct Hin as [Hin|Hin].
          -- unfold get_or in Ha.
             destruct (dict_get "children" d) as [x|] eqn:Ec.
             ++ exact (Hitem d "children" x eq_refl Ec _ _ _ Ha Hin).
             ++ inversion Ha; subst. destruct Hin.
          -- exact (IHrest _ _ _ Ha0 Hin).
        * bind_inv H. inversion H; subst. destruct Hin as [<-|Hin].
          -- unfold is_folder, get_or in *.
             rewrite dict_get_set_other by discriminate. exact Hf.
          -- exact (IHrest _ _ _ Ha Hin).
    - split; [intros prefix out e H; inversion H; subst; intros []|].
      intros d' k x E Hget. inversion E; subst d'. clear E.
      induction d as [|[k0 x0] d IH]; [discriminate Hget|].
      inversion IHd as [|? ? [Hx0 _] Hd]; subst. cbn [dict_get] in Hget.
      destruct (k =? k0)%string.
      + inversion Hget; subst. exact Hx0.
      + exact (IH Hd Hget). }
  exact (proj1 (G items)).
Qed.

(** *** Sorting by integer ids *)

Lemma insert_by_key_int {A : Type} (kx : Z) (x : A) (l : list (Z * A)) :
  insert_by_key (PInt kx) x (map int_key l) = Ok (map int_key (insert_int kx x l)).
Proof.
  induction l as [|[ky y] rest IH]; cbn [map insert_by_key insert_int int_key fst snd].
  - reflexivity.
  - cbn [py_lt bind]. destruct (ky <? kx).
    + rewrite IH. reflexivity.
    + reflexivity.
Qed.

Lemma sort_keyed_int {A : Type} (l : list (Z * A)) :
  sort_keyed (map int_key l) = Ok (map int_key (sort_int l)).
Proof.
  induction l as [|[kx x] rest IH]; cbn [map sort_keyed sort_int int_key fst snd].
  - reflexivity.
  - rewrite IH. cbn [bind]. apply insert_by_key_int.
Qed.

Lemma insert_int_In {A : Type} (kx : Z) (x : A) (l : list (Z * A)) (e : Z * A) :
  In e (insert_int kx x l) <-> e = (kx, x) \/ In e l.
Proof.
  induction l as [|[ky y] rest IH]; cbn [insert_int In].
  - intuition.
  - destruct (ky <? kx); cbn [In]; rewrite ?IH; intuition.
Qed.

Lemma sort_int_In {A : Type} (l : list (Z * A)) (e : Z * A) :
  In e (sort_int l) <-> In e l.
Proof.
  induction l as [|[kx x] rest IH]; cbn [sort_int In].
  - reflexivity.
  - rewrite insert_int_In, IH. intuition.
Qed.

Lemma insert_int_below {A : Type} (kx : Z) (x : A) (l : list (Z * A)) :
  Forall (fun e => kx <= fst e) l -> insert_int kx x l = (kx, x) :: l.
Proof.
  destruct l as [|[ky y] rest]; cbn [insert_int]; intro H.
  - reflexivity.
  - inversion H; subst. cbn [fst] in *.
    destruct (Z.ltb_spec ky kx); [lia | reflexivity].
Qed.

Lemma insert_int_sorted {A : Type} (kx : Z) (x : A) (l : list (Z * A)) :
  StronglySorted (fun a b => fst a <= fst b) l ->
  StronglySorted (fun a b => fst a <= fst b) (insert_int kx x l).
Proof.
  induction l as [|[ky y] rest IH]; cbn [insert_int]; intro H.
  - constructor; constructor.
  - inversion H as [|? ? Hrest Hall]; subst.
    destruct (Z.ltb_spec ky kx).
    + constructor; [apply IH; exact Hrest|].
      apply Forall_forall. intros e He. apply insert_int_In in He.
      destruct He as [->|He].
      * cbn [fst]. lia.
      * rewrite Forall_forall in Hall. apply Hall. exact He.
    + constructor; [exact H|].
      constructor; [cbn [fst]; lia|].
      eapply Forall_impl; [|exact Hall]. cbn [fst]. intros. lia.
Qed.

Lemma sort_int_sorted {A : Type} (l : list (Z * A)) :
  StronglySorted (fun a b => fst a <= fst b) (sort_int l).
Proof.
  induction l as [|[kx x] rest IH]; cbn [sort_int].
  - constructor.
  - apply insert_int_sorted. exact IH.
Qed.

Lemma filter_insert_int {A : Type} (keep : Z * A -> bool) (kx : Z) (x : A)
  (l : list (Z * A)) :
  StronglySorted (fun a b => fst a <= fst b) l ->
  filter keep (insert_int kx x l) =
  if keep (kx, x) then insert_int kx x (filter keep l) else filter keep l.
Proof.
  induction l as [|[ky y] rest IH]; cbn [insert_int filter]; intro H.
  - destruct (keep (kx, x)); reflexivity.
  - inversion H as [|? ? Hrest Hall]; subst.
    destruct (Z.ltb_spec ky kx) as [Hlt|Hge]; cbn [filter].
    + rewrite (IH Hrest).
      destruct (keep (ky, y)); destruct (keep (kx, x)); cbn [insert_int];
        try reflexivity.
      destruct (Z.ltb_spec ky kx); [reflexivity | lia].
    + destruct (keep (kx, x)); [|reflexivity].
      symmetry. apply insert_int_below.
      assert (Hall' : Forall (fun e => kx <= fst e) ((ky, y) :: rest)).
      { constructor; [exact Hge|].
        eapply Forall_impl; [|exact Hall]. cbn [fst]. intros. lia. }
      apply Forall_forall. intros e He.
      assert (He' : In e ((ky, y) :: rest)).
      { change (In e (filter keep ((ky, y) :: rest))) in He.
        apply filter_In in He. tauto. }
      rewrite Forall_forall in Hall'. apply Hall'. exact He'.
Qed.

Lemma filter_sort_int {A : Type} (keep : Z * A -> bool) (l : list (Z * A)) :
  filter keep (sort_int l) = sort_int (filter keep l).
Proof.
  induction l as [|[kx x] rest IH]; cbn [sort_int filter].
  - reflexivity.
  - rewrite filter_insert_int by apply sort_int_sorted.
    rewrite IH. destruct (keep (kx, x)); reflexivity.
Qed.

Lemma folder_ids_py_get (folder : pyval) (i p : Z) :
  folder_ids folder = Some (i, p) ->
  exists d, folder = PDict d /\
            get_or d "id" (PInt 0) = PInt i /\
            get_or d "parent_id" (PInt 0) = PInt p.
Proof.
  destruct folder as [| | | | |d]; cbn [folder_ids]; try discriminate.
  destruct (get_or d "id" (PInt 0)) eqn:Ei; try discriminate.
  destruct (get_or d "parent_id" (PInt 0)) eqn:Ep; try discriminate.
  intro H. inversion H; subst. exists d. repeat split; assumption.
Qed.

Lemma sorted_by_id (folders : list pyval) :
  Forall (fun f => folder_ids f <> None) folders ->
  sorted_by (fun f => py_get f "id" (PInt 0)) folders =
  Ok (map snd (sort_int (map keyed_by_id folders))).
Proof.
  intro H. unfold sorted_by.
  assert (E : map_res (fun x => k <- py_get x "id" (PInt 0) ;; Ok (k, x)) folders =
              Ok (map int_key (map keyed_by_id folders))).
  { rewrite map_map. apply map_res_pure. intros f Hf.
    rewrite Forall_forall in H. specialize (H f Hf).
    destruct (folder_ids f) as [[i p]|] eqn:E; [|contradiction].
    unfold keyed_by_id, folder_id, int_key. rewrite E. cbn [fst snd].
    destruct (folder_ids_py_get f i p E) as [d [-> [Hi _]]].
    unfold py_get. fold (get_or d "id" (PInt 0)). rewrite Hi. reflexivity. }
  rewrite E. cbn [bind]. rewrite sort_keyed_int. cbn [bind].
  rewrite map_map. reflexivity.
Qed.

(** *** Folder maps with integer keys *)

Lemma amap_get_set_int (a b : Z) (v : pyval) (m : amap pyval) :
  int_keyed m ->
  amap_get (PInt a) (amap_set (PInt b) v m) =
  if a =? b then Some v else amap_get (PInt a) m.
Proof.
  unfold int_keyed. induction m as [|[k w] rest IH]; intro H.
  - cbn [amap_set amap_get py_eq]. destruct (a =? b); reflexivity.
  - inversion H as [|? ? [c Hc] Hrest]; subst. cbn [fst] in Hc. subst k.
    cbn [amap_set py_eq].
    destruct (Z.eqb_spec b c) as [->|Hbc]; cbn [amap_get py_eq].
    + destruct (a =? c); reflexivity.
    + destruct (Z.eqb_spec a c) as [->|Hac].
      * destruct (Z.eqb_spec c b); [congruence | reflexivity].
      * apply IH. exact Hrest.
Qed.

Lemma amap_set_int_keyed (b : Z) (v : pyval) (m : amap pyval) :
  int_keyed m -> int_keyed (amap_set (PInt b) v m).
Proof.
  unfold int_keyed. induction m as [|[k w] rest IH]; intro H; cbn [amap_set].
  - constructor; [exists b; reflexivity | constructor].
  - inversion H as [|? ? Hk Hrest]; subst.
    destruct (py_eq (PInt b) k).
    + constructor; assumption.
    + constructor; [exact Hk | apply IH; exact Hrest].
Qed.

(** [add_folder] on a record with integer ids. *)
Lemma add_folder_ids (folder : pyval) (i p : Z) :
  folder_ids folder = Some (i, p) ->
  exists name, forall m,
    add_folder m folder = Ok (amap_set (PInt i) (join_path (path_of m p) name) m).
Proof.
  intro H. destruct (folder_ids_py_get folder i p H) as [d [-> [Hi Hp]]].
  exists (get_or d "name" (PStr (py_str (PInt i)))). intro m.
  unfold add_folder, py_get.
  fold (get_or d "id" (PInt 0)). rewrite Hi. cbn [bind].
  fold (get_or d "parent_id" (PInt 0)). rewrite Hp. cbn [bind].
  unfold map_get, map_set. cbn [check_hashable hashable bind]. reflexivity.
Qed.

(** Building the folder map with or without the records of the folder [X]:
    the two maps agree on every other id. *)
Lemma for_each_add_folder_apart (X : Z) (records : list (Z * pyval)) :
  Forall (fun e => exists p, folder_ids (snd e) = Some (fst e, p) /\
                             (fst e = X \/ p <> X)) records ->
  forall m m',
    int_keyed m -> int_keyed m' -> agree_off X m m' ->
    exists r r',
      for_each add_folder (map snd (filter (not_folder X) records)) m = Ok r /\
      for_each add_folder (map snd records) m' = Ok r' /\
      agree_off X r r'.
Proof.
  induction records as [|[i f] rest IH]; intros Hall m m' Hm Hm' Hagree.
  - exists m, m'. repeat split. exact Hagree.
  - inversion Hall as [|? ? [p [Hids Hcase]] Hrest]; subst. cbn [fst snd] in *.
    destruct (add_folder_ids f i p Hids) as [name Hadd].
    cbn [filter map for_each fst snd]. unfold not_folder at 1. cbn [fst].
    rewrite (Hadd m'). cbn [bind].
    destruct (Z.eqb_spec i X) as [->|HiX]; cbn [negb map for_each].
    + apply IH; try assumption.
      * apply amap_set_int_keyed. exact Hm'.
      * intros n Hn. rewrite (amap_get_set_int n X _ m' Hm').
        destruct (Z.eqb_spec n X); [contradiction | apply Hagree; exact Hn].
    + cbn [snd]. rewrite (Hadd m). cbn [bind].
      destruct Hcase as [Hcase|HpX]; [contradiction|].
      assert (Epath : path_of m p = path_of m' p).
      { unfold path_of. rewrite (Hagree p HpX). reflexivity. }
      rewrite Epath. apply IH; try assumption.
      * apply amap_set_int_keyed. exact Hm.
      * apply amap_set_int_keyed. exact Hm'.
      * intros n Hn.
        rewrite (amap_get_set_int n i _ m Hm), (amap_get_set_int n i _ m' Hm').
        destruct (n =? i); [reflexivity | apply Hagree; exact Hn].
Qed.

Lemma folder_apart_ids (X : Z) (folder : pyval) :
  folder_apart X folder = true ->
  exists i p, folder_ids folder = Some (i, p) /\ i <> X /\ p <> X.
Proof.
  unfold folder_apart. destruct (folder_ids folder) as [[i p]|]; [|discriminate].
  intro H. apply andb_prop in H. destruct H as [Hi Hp].
  apply negb_true_iff in Hi, Hp. apply Z.eqb_neq in Hi, Hp.
  exists i, p. auto.
Qed.

Lemma build_folder_map_apart (X px : Z) (l1 l2 : list pyval) (extra : pyval) :
  forallb (folder_apart X) (l1 ++ l2) = true ->
  folder_ids extra = Some (X, px) ->
  exists r r',
    build_folder_map (l1 ++ l2) = Ok r /\
    build_folder_map (l1 ++ extra :: l2) = Ok r' /\
    agree_off X r r'.
Proof.
  intros Hall Hextra. rewrite forallb_forall in Hall.
  assert (Hids : forall f, In f (l1 ++ extra :: l2) ->
            exists p, folder_ids f = Some (folder_id f, p) /\
                      (folder_id f = X \/ p <> X)).
  { intros f Hf. apply in_app_iff in Hf. cbn [In] in Hf.
    assert (C : f = extra \/ In f (l1 ++ l2)).
    { rewrite in_app_iff. intuition congruence. }
    destruct C as [->|C].
    - exists px. unfold folder_id. rewrite Hextra. auto.
    - destruct (folder_apart_ids X f (Hall f C)) as [i [p [E [_ Hp]]]].
      exists p. unfold folder_id. rewrite E. auto. }
  unfold build_folder_map.
  rewrite !sorted_by_id.
  2:{ apply Forall_forall. intros f Hf. destruct (Hids f Hf) as [p [E _]].
      rewrite E. discriminate. }
  2:{ apply Forall_forall. intros f Hf.
      assert (Hf' : In f (l1 ++ extra :: l2)).
      { apply in_app_iff in Hf. apply in_app_iff. cbn [In]. tauto. }
      destruct (Hids f Hf') as [p [E _]]. rewrite E. discriminate. }
  cbn [bind].
  assert (Efilter : filter (not_folder X) (map keyed_by_id (l1 ++ extra :: l2)) =
                    map keyed_by_id (l1 ++ l2)).
  { assert (K : forall l, (forall f, In f l -> folder_apart X f = true) ->
                filter (not_folder X) (map keyed_by_id l) = map keyed_by_id l).
    { induction l as [|f l IHl]; intro Hl; cbn [map filter].
      - reflexivity.
      - destruct (folder_apart_ids X f (Hl f (or_introl eq_refl)))
          as [i [p [E [Hi _]]]].
        unfold not_folder at 1, keyed_by_id at 1, folder_id. rewrite E. cbn [fst].
        destruct (Z.eqb_spec i X); [contradiction|]. cbn [negb].
        f_equal. apply IHl. intros f' Hf'. apply Hl. right. exact Hf'. }
    rewrite !map_app, filter_app. cbn [map filter].
    unfold not_folder at 2, keyed_by_id at 2, folder_id. rewrite Hextra. cbn [fst].
    rewrite Z.eqb_refl. cbn [negb].
    rewrite !K; [reflexivity | |];
      intros f Hf; apply Hall; apply in_app_iff; tauto. }
  rewrite <- Efilter, <- filter_sort_int.
  apply for_each_add_folder_apart.
  - apply Forall_forall. intros [i f] He.
    apply (proj1 (sort_int_In _ _)) in He.
    apply in_map_iff in He. destruct He as [f' [E Hf']].
    unfold keyed_by_id in E. inversion E; subst. cbn [fst snd].
    apply Hids. exact Hf'.
  - constructor; [exists 0; reflexivity | constructor].
  - constructor; [exists 0; reflexivity | constructor].
  - intros n _. reflexivity.
Qed.

Lemma lib_entry_apart (X : Z) (m m' : amap pyval) (f : pyval) :
  agree_off X m m' -> file_apart X f = true -> lib_entry m' f = lib_entry m f.
Proof.
  intros Hagree Hf. unfold file_apart, file_parent in Hf.
  destruct f as [| | | | |d]; try discriminate.
  destruct (get_or d "parent_id" (PInt 0)) as [| |p| | |] eqn:Ep; try discriminate.
  apply negb_true_iff, Z.eqb_neq in Hf.
  unfold lib_entry. rewrite Ep. unfold map_get.
  cbn [check_hashable hashable bind]. rewrite (Hagree p Hf). reflexivity.
Qed.

Lemma map_res_ext_in {A B : Type} (f g : A -> res B) (l : list A) :
  (forall x, In x l -> f x = g x) -> map_res f l = map_res g l.
Proof.
  induction l as [|x rest IH]; cbn [map_res]; intro H.
  - reflexivity.
  - rewrite (H x (or_introl eq_refl)).
    rewrite IH by (intros; apply H; right; assumption). reflexivity.
Qed.

(** A libmtp folder record that no file and no folder lies in: the file
    lists are the same with and without it. *)
Lemma _normalise_files_extra_folder (_parse_iso_or_ctime : string -> option Z)
  (X px : Z) (l1 l2 libmtp_files : list pyval) (extra swiftmtp_ls : pyval) :
  forallb (folder_apart X) (l1 ++ l2) = true ->
  folder_ids extra = Some (X, px) ->
  forallb (file_apart X) libmtp_files = true ->
  _normalise_files _parse_iso_or_ctime libmtp_files (l1 ++ extra :: l2) swiftmtp_ls =
  _normalise_files _parse_iso_or_ctime libmtp_files (l1 ++ l2) swiftmtp_ls.
Proof.
  intros Hfolders Hextra Hfiles.
  destruct (build_folder_map_apart X px l1 l2 extra Hfolders Hextra)
    as [r [r' [Er [Er' Hagree]]]].
  unfold _normalise_files. rewrite Er, Er'. cbn [bind].
  unfold _lib_files.
  rewrite (map_res_ext_in (lib_entry r') (lib_entry r)); [reflexivity|].
  intros f Hf. apply (lib_entry_apart X); [exact Hagree|].
  rewrite forallb_forall in Hfiles. apply Hfiles. exact Hf.
Qed.

Lemma _lib_files_length (folder_map : amap pyval) (libmtp_files : list pyval)
  (out : list pydict) :
  _lib_files folder_map libmtp_files = Ok out ->
  List.length out = List.length libmtp_files.
Proof.
  unfold _lib_files. intro H. bind_inv H.
  rewrite (sorted_by_length _ _ _ H). apply (map_res_length _ _ _ Ha).
Qed.

Lemma _swift_files_entries (_parse_iso_or_ctime : string -> option Z)
  (swiftmtp_ls : pyval) (out : list pydict) (e : pydict) :
  _swift_files _parse_iso_or_ctime swiftmtp_ls = Ok out ->
  In e out ->
  exists item, is_folder item = false /\ e = swift_entry _parse_iso_or_ctime item.
Proof.
  unfold _swift_files. intros H He. bind_inv H.
  apply (proj1 (sorted_by_In _ _ _ e H)) in He.
  apply in_map_iff in He. destruct He as [item [<- Hitem]].
  exists item. split; [|reflexivity].
  exact (_flatten_tree_yields_no_folder _ _ _ _ Ha Hitem).
Qed.

(** C10 (folders are never compared).  What [_flatten_tree] yields never
    comes from a folder item, so every normalised SwiftMTP entry is made
    from a non-folder leaf; the libmtp list has one entry per file record,
    whatever the folder records.  A libmtp folder record [extra] with id
    [X] in which no file and no folder lies, and an empty folder added
    anywhere in the SwiftMTP tree, leave both normalised file lists as they
    are, each alone and both together; hence the file diff of the inputs
    with the folder is the file diff of the inputs without it. *)
Theorem folders_are_never_compared (_parse_iso_or_ctime : string -> option Z)
  (X px : Z) (l1 l2 libmtp_files : list pyval)
  (extra swiftmtp_ls swiftmtp_ls' : pyval) (ts_tol : Z) :
  forallb (folder_apart X) (l1 ++ l2) = true ->
  folder_ids extra = Some (X, px) ->
  forallb (file_apart X) libmtp_files = true ->
  adds_empty_folder (swift_items swiftmtp_ls) (swift_items swiftmtp_ls') ->
  (forall items prefix out e,
     _flatten_tree items prefix = Ok out -> In e out -> is_folder e = false) /\
  (forall ls out e,
     _swift_files _parse_iso_or_ctime ls = Ok out -> In e out ->
     exists item, is_folder item = false /\ e = swift_entry _parse_iso_or_ctime item) /\
  (forall folder_map out,
     _lib_files folder_map libmtp_files = Ok out ->
     List.length out = List.length libmtp_files) /\
  _normalise_files _parse_iso_or_ctime libmtp_files (l1 ++ extra :: l2) swiftmtp_ls =
    _normalise_files _parse_iso_or_ctime libmtp_files (l1 ++ l2) swiftmtp_ls /\
  _normalise_files _parse_iso_or_ctime libmtp_files (l1 ++ l2) swiftmtp_ls' =
    _normalise_files _parse_iso_or_ctime libmtp_files (l1 ++ l2) swiftmtp_ls /\
  main_file_diffs _parse_iso_or_ctime libmtp_files (l1 ++ extra :: l2) swiftmtp_ls ts_tol =
    main_file_diffs _parse_iso_or_ctime libmtp_files (l1 ++ l2) swiftmtp_ls ts_tol /\
  main_file_diffs _parse_iso_or_ctime libmtp_files (l1 ++ l2) swiftmtp_ls' ts_tol =
    main_file_diffs _parse_iso_or_ctime libmtp_files (l1 ++ l2) swiftmtp_ls ts_tol /\
  main_file_diffs _parse_iso_or_ctime libmtp_files (l1 ++ extra :: l2) swiftmtp_ls' ts_tol =
    main_file_diffs _parse_iso_or_ctime libmtp_files (l1 ++ l2) swiftmtp_ls ts_tol.
Proof.
  intros Hfolders Hextra Hfiles Hadds.
  assert (Eswift : forall folders,
            _normalise_files _parse_iso_or_ctime libmtp_files folders swiftmtp_ls' =
            _normalise_files _parse_iso_or_ctime libmtp_files folders swiftmtp_ls).
  { intro folders. unfold _normalise_files, _swift_files.
    rewrite (_flatten_tree_adds_empty_folder _ _ Hadds). reflexivity. }
  assert (Elib : forall ls,
            _normalise_files _parse_iso_or_ctime libmtp_files (l1 ++ extra :: l2) ls =
            _normalise_files _parse_iso_or_ctime libmtp_files (l1 ++ l2) ls).
  { intro ls. exact (_normalise_files_extra_folder _ X px l1 l2 libmtp_files extra ls
                       Hfolders Hextra Hfiles). }
  split; [exact _flatten_tree_yields_no_folder|].
  split; [exact (_swift_files_entries _parse_iso_or_ctime)|].
  split; [intros fm out; apply _lib_files_length|].
  split; [apply Elib|]. split; [apply Eswift|].
  unfold main_file_diffs.
  split; [rewrite Elib; reflexivity|].
  split; [rewrite Eswift; reflexivity|].
  rewrite Eswift, Elib. reflexivity.
Qed.

(** One file in DCIM on both sides; the folder Empty as a libmtp folder
    record, and as an item of the SwiftMTP tree. *)
Lemma folders_are_never_compared_witness :
  let dcim := PDict [("id", PInt 1); ("parent_id", PInt 0); ("name", PStr "DCIM")] in
  let extra := PDict [("id", PInt 7); ("parent_id", PInt 0); ("name", PStr "Empty")] in
  let libmtp_files :=
    [PDict [("id", PInt 2); ("parent_id", PInt 1); ("name", PStr "IMG_0001.JPG");
            ("size_bytes", PInt 204800)]] in
  let tree_dcim :=
    PDict [("name", PStr "DCIM"); ("type", PStr "folder");
           ("children", PList [PDict [("name", PStr "IMG_0001.JPG");
                                      ("type", PStr "file");
                                      ("sizeBytes", PInt 204800)]])] in
  let tree_empty :=
    PDict [("name", PStr "Empty"); ("type", PStr "folder"); ("children", PList [])] in
  main_file_diffs (fun _ => None) libmtp_files [dcim; extra]
    (PList [tree_dcim]) 120 = Ok [] /\
  main_file_diffs (fun _ => None) libmtp_files [dcim]
    (PList [tree_dcim; tree_empty]) 120 = Ok [].
Proof.
  intros dcim extra libmtp_files tree_dcim tree_empty.
  assert (Hempty : empty_folder tree_empty).
  { eexists. split; [reflexivity|]. split; [reflexivity|]. intro prefix. reflexivity. }
  pose (T := folders_are_never_compared (fun _ => None) 7 0 [dcim] [] libmtp_files
               extra (PList [tree_dcim]) (PList [tree_dcim; tree_empty]) 120
               eq_refl eq_refl eq_refl (add_here [tree_dcim] [] tree_empty Hempty)).
  destruct T as [_ [_ [_ [_ [_ [Dlib [Dswift _]]]]]]].
  split.
  - exact (eq_trans Dlib eq_refl).
  - exact (eq_trans Dswift eq_refl).
Defined.

(* ===================================================================== *)
(** ** Path resolution on the libmtp side *)
(* ===================================================================== *)

(** C9 (path resolution).  The folder map is filled in one pass over the
    folder records in the order of their ids.  A folder with a smaller id
    than its parent is reached before its parent has a path, and is entered
    under its bare name: the file [f.txt] in the folder [child] (id 1) of
    the folder [top] (id 2) resolves to [child/f.txt], while the same
    folders with the ids the other way round give [top/child/f.txt]. *)
Theorem parent_with_larger_id_is_not_resolved
  (_parse_iso_or_ctime : string -> option Z) :
  let folder (i p : Z) (name : string) :=
    PDict [("id", PInt i); ("parent_id", PInt p); ("name", PStr name)] in
  let file (p : Z) :=
    PDict [("id", PInt 3); ("parent_id", PInt p); ("name", PStr "f.txt");
           ("size_bytes", PInt 10)] in
  build_folder_map [folder 1 2 "child"; folder 2 0 "top"] =
    Ok [(PInt 0, PStr ""); (PInt 1, PStr "child"); (PInt 2, PStr "top")] /\
  _normalise_files _parse_iso_or_ctime [file 1]
    [folder 1 2 "child"; folder 2 0 "top"] (PList []) =
    Ok ([[("path", PStr "child/f.txt"); ("size_bytes", PInt 10)]], []) /\
  _normalise_files _parse_iso_or_ctime [file 2]
    [folder 2 1 "child"; folder 1 0 "top"] (PList []) =
    Ok ([[("path", PStr "top/child/f.txt"); ("size_bytes", PInt 10)]], []).
Proof. repeat split. Qed.

(* ===================================================================== *)
(** ** Dicts keyed by hashable values *)
(* ===================================================================== *)

Lemma py_eq_sym_hashable (a b : pyval) :
  hashable a = true -> hashable b = true -> py_eq a b = py_eq b a.
Proof.
  destruct a as [|x|x|x|x|x], b as [|y|y|y|y|y]; cbn [hashable py_eq];
    intros Ha Hb; try discriminate; try reflexivity.
  - destruct x, y; reflexivity.
  - apply Z.eqb_sym.
  - apply Z.eqb_sym.
  - apply Z.eqb_sym.
  - apply String.eqb_sym.
Qed.

Lemma py_eq_trans_hashable (a b c : pyval) :
  hashable b = true ->
  py_eq a b = true -> py_eq b c = true -> py_eq a c = true.
Proof.
  destruct a as [|x|x|x|x|x], b as [|y|y|y|y|y]; cbn [hashable py_eq];
    intros Hb Hab; try discriminate;
    destruct c as [|z|z|z|z|z]; cbn [py_eq]; intro Hbc; try discriminate;
    try reflexivity;
    rewrite ?Z.eqb_eq, ?Bool.eqb_true_iff, ?String.eqb_eq in *;
    subst; try reflexivity; try congruence;
    repeat match goal with b : bool |- _ => destruct b end;
    cbn in *; congruence || lia.
Qed.

Lemma amap_get_eq_key {V : Type} (k k' : pyval) (m : amap V) :
  hashable k = true -> hashable k' = true ->
  (forall x, In x (amap_keys m) -> hashable x = true) ->
  py_eq k k' = true -> amap_get k m = amap_get k' m.
Proof.
  intros Hk Hk' Hm Heq. induction m as [|[k0 v0] rest IH]; cbn [amap_get].
  - reflexivity.
  - assert (H0 : hashable k0 = true) by (apply Hm; left; reflexivity).
    destruct (py_eq k k0) eqn:E; destruct (py_eq k' k0) eqn:E'.
    + reflexivity.
    + rewrite (py_eq_sym_hashable k k' Hk Hk') in Heq.
      rewrite (py_eq_trans_hashable k' k k0 Hk Heq E) in E'. discriminate E'.
    + rewrite (py_eq_trans_hashable k k' k0 Hk' Heq E') in E. discriminate E.
    + apply IH. intros x Hx. apply Hm. right. exact Hx.
Qed.

Lemma amap_get_set {V : Type} (k k' : pyval) (v : V) (m : amap V) :
  hashable k = true -> hashable k' = true ->
  (forall x, In x (amap_keys m) -> hashable x = true) ->
  amap_get k (amap_set k' v m) = if py_eq k k' then Some v else amap_get k m.
Proof.
  intros Hk Hk' Hm. induction m as [|[k0 v0] rest IH]; cbn [amap_set amap_get].
  - destruct (py_eq k k'); reflexivity.
  - assert (H0 : hashable k0 = true) by (apply Hm; left; reflexivity).
    assert (Hrest : forall x, In x (amap_keys rest) -> hashable x = true)
      by (intros x Hx; apply Hm; right; exact Hx).
    destruct (py_eq k' k0) eqn:E'; cbn [amap_get].
    + destruct (py_eq k k0) eqn:E.
      * rewrite (py_eq_sym_hashable k' k0 Hk' H0) in E'.
        rewrite (py_eq_trans_hashable k k0 k' H0 E E'). reflexivity.
      * destruct (py_eq k k') eqn:E''; [|reflexivity].
        rewrite (py_eq_trans_hashable k k' k0 Hk' E'' E') in E. discriminate E.
    + destruct (py_eq k k0) eqn:E.
      * destruct (py_eq k k') eqn:E''; [|reflexivity].
        rewrite (py_eq_sym_hashable k k' Hk Hk') in E''.
        rewrite (py_eq_trans_hashable k' k k0 Hk E'' E) in E'. discriminate E'.
      * apply IH. exact Hrest.
Qed.

Lemma amap_set_keys_hashable {V : Type} (k : pyval) (v : V) (m : amap V) :
  hashable k = true ->
  (forall x, In x (amap_keys m) -> hashable x = true) ->
  forall x, In x (amap_keys (amap_set k v m)) -> hashable x = true.
Proof.
  intros Hk Hm x Hx. destruct (amap_set_keys k v m x Hx) as [->|Hin]; auto.
Qed.

Lemma amap_set_keeps_keys {V : Type} (k : pyval) (v : V) (m : amap V) (x : pyval) :
  In x (amap_keys m) -> In x (amap_keys (amap_set k v m)).
Proof.
  induction m as [|[k0 v0] rest IH]; cbn [amap_set amap_keys map fst In].
  - intros [].
  - destruct (py_eq k k0); cbn [map fst In]; intros [H|H]; auto.
Qed.

(** *** The counts of the summary *)

Lemma counts_total_set (k : pyval) (m : amap Z) :
  counts_total (amap_set k (count_of m k + 1) m) = counts_total m + 1.
Proof.
  unfold counts_total, count_of.
  induction m as [|[k0 v0] rest IH]; cbn [amap_set amap_get map snd fold_right].
  - lia.
  - destruct (py_eq k k0); cbn [map snd fold_right].
    + lia.
    + rewrite IH. lia.
Qed.

Lemma labelled_cons (lbl : pyval) (d : DiffEntry) (rest : list DiffEntry) :
  labelled lbl (d :: rest) =
  (if py_eq lbl (label d) then 1 else 0) + labelled lbl rest.
Proof.
  unfold labelled. cbn [filter]. destruct (py_eq lbl (label d)); cbn [List.length]; lia.
Qed.

Lemma count_entries_spec (diffs : list DiffEntry) (acc : amap Z) :
  (forall x, In x (amap_keys acc) -> hashable x = true) ->
  (forall d, In d diffs -> hashable (label d) = true) ->
  exists counts,
    for_each count_entry diffs acc = Ok counts /\
    (forall x, In x (amap_keys counts) -> hashable x = true) /\
    (forall x, In x (amap_keys acc) -> In x (amap_keys counts)) /\
    (forall lbl, hashable lbl = true ->
       count_of counts lbl = count_of acc lbl + labelled lbl diffs) /\
    counts_total counts = counts_total acc + Z.of_nat (List.length diffs).
Proof.
  revert acc. induction diffs as [|d rest IH]; intros acc Hacc Hlabels.
  - exists acc. cbn [for_each List.length]. unfold labelled. cbn.
    repeat split; auto; intros; lia.
  - assert (Hd : hashable (label d) = true) by (apply Hlabels; left; reflexivity).
    cbn [for_each]. unfold count_entry at 1, map_get, map_set, check_hashable.
    rewrite Hd. cbn [bind]. fold (count_of acc (label d)).
    destruct (IH (amap_set (label d) (count_of acc (label d) + 1) acc))
      as [counts [E [Hk [Hkeep [Hcount Htotal]]]]].
    + apply amap_set_keys_hashable; assumption.
    + intros d' Hd'. apply Hlabels. right. exact Hd'.
    + exists counts. split; [exact E|]. split; [exact Hk|]. split; [|split].
      * intros x Hx. apply Hkeep. apply amap_set_keeps_keys. exact Hx.
      * intros lbl Hlbl. rewrite (Hcount lbl Hlbl), labelled_cons.
        unfold count_of at 1. rewrite (amap_get_set lbl (label d) _ acc Hlbl Hd Hacc).
        destruct (py_eq lbl (label d)) eqn:Eq.
        -- unfold count_of. rewrite (amap_get_eq_key lbl (label d) acc Hlbl Hd Hacc Eq).
           lia.
        -- unfold count_of. lia.
      * rewrite Htotal, counts_total_set. cbn [List.length]. lia.
Qed.

Lemma _summary_counts_for_each (diffs : list DiffEntry) :
  _summary_counts diffs =
  for_each count_entry diffs (map (fun lbl => (PStr lbl, 0)) _ALL_LABELS).
Proof. reflexivity. Qed.

Lemma initial_counts_hashable (x : pyval) :
  In x (amap_keys (map (fun lbl => (PStr lbl, 0)) _ALL_LABELS)) -> hashable x = true.
Proof.
  cbn. intros H. repeat (destruct H as [<-|H]; [reflexivity|]). destruct H.
Qed.

Lemma count_of_initial (lbl : pyval) :
  count_of (map (fun l => (PStr l, 0)) _ALL_LABELS) lbl = 0.
Proof.
  unfold count_of. cbn [map _ALL_LABELS amap_get].
  repeat match goal with
         | |- context [py_eq lbl ?x] => destruct (py_eq lbl x)
         end; reflexivity.
Qed.

Lemma count_entries_unhashable (diffs : list DiffEntry) (acc : amap Z) (d : DiffEntry) :
  In d diffs -> hashable (label d) = false ->
  for_each count_entry diffs acc = Raise TypeError.
Proof.
  revert acc. induction diffs as [|d0 rest IH]; intros acc Hin Hd.
  - destruct Hin.
  - cbn [for_each]. unfold count_entry at 1, map_get, map_set, check_hashable.
    destruct (hashable (label d0)) eqn:H0; cbn [bind].
    + destruct Hin as [->|Hin]; [congruence|]. apply IH; assumption.
    + reflexivity.
Qed.

Lemma _summary_counts_Ok_hashable (diffs : list DiffEntry) (counts : amap Z) :
  _summary_counts diffs = Ok counts ->
  forall d, In d diffs -> hashable (label d) = true.
Proof.
  intros H d Hd. destruct (hashable (label d)) eqn:E; [reflexivity|].
  rewrite _summary_counts_for_each, (count_entries_unhashable _ _ d Hd E) in H.
  discriminate H.
Qed.

Lemma labelled_zero (s : string) (diffs : list DiffEntry) :
  labelled (PStr s) diffs = 0 <-> forall d, In d diffs -> label d <> PStr s.
Proof.
  induction diffs as [|d rest IH].
  - split; [intros _ d []|reflexivity].
  - rewrite labelled_cons. split.
    + intros H d' [<-|Hd'].
      * intro E. rewrite E in H. cbn [py_eq] in H. rewrite String.eqb_refl in H.
        unfold labelled in H. lia.
      * apply (proj1 IH); [|exact Hd'].
        unfold labelled in *. destruct (py_eq (PStr s) (label d)); lia.
    + intro H. destruct (py_eq (PStr s) (label d)) eqn:E.
      * apply py_eq_PStr_l in E. exfalso. apply (H d (or_introl eq_refl)). exact E.
      * rewrite (proj2 IH); [reflexivity|].
        intros d' Hd'. apply H. right. exact Hd'.
Qed.

Lemma labelled_nonneg (lbl : pyval) (diffs : list DiffEntry) : 0 <= labelled lbl diffs.
Proof. unfold labelled. lia. Qed.

(* ===================================================================== *)
(** ** Summary counts and exit status *)
(* ===================================================================== *)

(** X1.  When every label can be hashed, [_summary_counts] returns a dict
    that has each of the five labels as a key and holds, under every label,
    the number of entries that carry it (0 under a label no entry carries). *)
Theorem summary_counts_are_exact (diffs : list DiffEntry) :
  (forall d, In d diffs -> hashable (label d) = true) ->
  exists counts,
    _summary_counts diffs = Ok counts /\
    (forall lbl, In lbl _ALL_LABELS -> In (PStr lbl) (amap_keys counts)) /\
    (forall lbl, hashable lbl = true -> count_of counts lbl = labelled lbl diffs).
Proof.
  intro H. rewrite _summary_counts_for_each.
  destruct (count_entries_spec diffs _ initial_counts_hashable H)
    as [counts [E [_ [Hkeep [Hcount _]]]]].
  exists counts. split; [exact E|]. split.
  - intros lbl Hlbl. apply Hkeep. unfold amap_keys. rewrite map_map. cbn [fst].
    apply in_map. exact Hlbl.
  - intros lbl Hlbl. rewrite (Hcount lbl Hlbl), count_of_initial. lia.
Qed.

Lemma summary_counts_are_exact_witness :
  let diffs := [mkDiffEntry "device.model" (PStr "a") (PStr "b")
                  (PStr "intentional") (PStr "redacted");
                new_DiffEntry "file.x" PNone (PDict []);
                new_DiffEntry "file.y" PNone (PDict [])] in
  exists counts,
    _summary_counts diffs = Ok counts /\
    count_of counts (PStr "unknown") = 2 /\
    count_of counts (PStr "bug_libmtp") = 0.
Proof.
  intro diffs.
  destruct (summary_counts_are_exact diffs) as [counts [E [_ C]]].
  - intros d [<-|[<-|[<-|[]]]]; reflexivity.
  - exists counts. split; [exact E|].
    split; [exact (C (PStr "unknown") eq_refl) | exact (C (PStr "bug_libmtp") eq_refl)].
Defined.

(** X2.  The counts of the summary add up to the number of diffs, labels
    outside the five included. *)
Theorem summary_counts_add_up (diffs : list DiffEntry) (counts : amap Z) :
  _summary_counts diffs = Ok counts ->
  counts_total counts = Z.of_nat (List.length diffs).
Proof.
  intro H. pose proof (_summary_counts_Ok_hashable diffs counts H) as Hh.
  rewrite _summary_counts_for_each in H.
  destruct (count_entries_spec diffs _ initial_counts_hashable Hh)
    as [counts' [E [_ [_ [_ Htotal]]]]].
  rewrite E in H. inversion H; subst counts'. rewrite Htotal. reflexivity.
Qed.

Lemma summary_counts_add_up_witness :
  let diffs := [mkDiffEntry "device.model" (PStr "a") (PStr "b")
                  (PStr "wontfix") (PStr "");
                new_DiffEntry "file.x" PNone (PDict [])] in
  exists counts, _summary_counts diffs = Ok counts /\ counts_total counts = 2.
Proof.
  intro diffs. eexists. split; [reflexivity|].
  exact (summary_counts_add_up diffs _ eq_refl).
Defined.

(** X3.  A label that cannot be hashed (a list or a dict taken from the
    overlay) makes [_summary_counts] raise [TypeError], wherever the entry
    stands in the list. *)
Theorem summary_counts_raise_on_unhashable_label (diffs : list DiffEntry)
  (d : DiffEntry) :
  In d diffs -> hashable (label d) = false ->
  _summary_counts diffs = Raise TypeError.
Proof.
  intros Hin Hd. rewrite _summary_counts_for_each.
  exact (count_entries_unhashable diffs _ d Hin Hd).
Qed.

(** The label [[bug_libmtp]], a YAML list, reaches the entry through
    classification and stops the summary. *)
Lemma summary_counts_raise_on_unhashable_label_witness :
  let d := new_DiffEntry "device.model" (PStr "a") (PStr "b") in
  let expectations :=
    PDict [("known_bugs",
            PList [PDict [("key", PStr "device.model");
                          ("label", PList [PStr "bug_libmtp"])]])] in
  exists out,
    _classify_diffs [d] expectations = Ok out /\
    _summary_counts out = Raise TypeError.
Proof.
  intros d expectations. eexists. split; [reflexivity|].
  eapply summary_counts_raise_on_unhashable_label; [left; reflexivity | reflexivity].
Defined.

(** X4.  The exit status of [main] is 0 or 1, and it is 0 exactly when no
    diff is left with the label unknown or bug_swiftmtp. *)
Theorem exit_code_zero_iff_nothing_unresolved (diffs : list DiffEntry)
  (counts : amap Z) :
  _summary_counts diffs = Ok counts ->
  (main_exit_code counts = 0 \/ main_exit_code counts = 1) /\
  (main_exit_code counts = 0 <->
   forall d, In d diffs ->
     label d <> PStr LABEL_UNKNOWN /\ label d <> PStr LABEL_BUG_SWIFTMTP).
Proof.
  intro H. pose proof (_summary_counts_Ok_hashable diffs counts H) as Hh.
  rewrite _summary_counts_for_each in H.
  destruct (count_entries_spec diffs _ initial_counts_hashable Hh)
    as [counts' [E [_ [_ [Hcount _]]]]].
  rewrite E in H. inversion H; subst counts'. clear H.
  unfold main_exit_code.
  rewrite (Hcount (PStr LABEL_UNKNOWN) eq_refl),
          (Hcount (PStr LABEL_BUG_SWIFTMTP) eq_refl), !count_of_initial.
  pose proof (labelled_nonneg (PStr LABEL_UNKNOWN) diffs) as N1.
  pose proof (labelled_nonneg (PStr LABEL_BUG_SWIFTMTP) diffs) as N2.
  pose proof (labelled_zero LABEL_UNKNOWN diffs) as Z1.
  pose proof (labelled_zero LABEL_BUG_SWIFTMTP diffs) as Z2.
  cbv zeta.
  destruct (Z.gtb_spec (0 + labelled (PStr LABEL_UNKNOWN) diffs +
                        (0 + labelled (PStr LABEL_BUG_SWIFTMTP) diffs)) 0) as [Hgt|Hle].
  - split; [right; reflexivity|]. split; [discriminate|].
    intro Hall. exfalso.
    assert (labelled (PStr LABEL_UNKNOWN) diffs = 0)
      by (apply Z1; intros d Hd; apply (Hall d Hd)).
    assert (labelled (PStr LABEL_BUG_SWIFTMTP) diffs = 0)
      by (apply Z2; intros d Hd; apply (Hall d Hd)).
    lia.
  - split; [left; reflexivity|]. split; [|reflexivity].
    intros _ d Hd. split.
    + apply (proj1 Z1); [lia | exact Hd].
    + apply (proj1 Z2); [lia | exact Hd].
Qed.

Lemma exit_code_zero_iff_nothing_unresolved_witness :
  let diffs := [mkDiffEntry "device.model" (PStr "a") (PStr "b")
                  (PStr "intentional") (PStr "redacted");
                mkDiffEntry "file.x.mtime" (PInt 1) (PInt 900)
                  (PStr "bug_libmtp") (PStr "clock")] in
  exists counts, _summary_counts diffs = Ok counts /\ main_exit_code counts = 0.
Proof.
  intro diffs. eexists. split; [reflexivity|].
  apply (proj2 (proj2 (exit_code_zero_iff_nothing_unresolved diffs _ eq_refl))).
  intros d [<-|[<-|[]]]; split; discriminate.
Defined.

(* ===================================================================== *)
(** ** Classification: what it keeps *)
(* ===================================================================== *)

Lemma classify_one_same (all_patterns : amap (pyval * pyval)) (d d' : DiffEntry) :
  classify_one all_patterns d = Ok d' -> same_difference d d'.
Proof.
  unfold classify_one. intro H. bind_inv H. inversion H; subst.
  destruct a as [[lbl rsn]|]; repeat split.
Qed.

Lemma classify_one_again (all_patterns : amap (pyval * pyval)) (d d' : DiffEntry) :
  classify_one all_patterns d = Ok d' -> classify_one all_patterns d' = Ok d'.
Proof.
  intro H. pose proof (classify_one_same _ _ _ H) as [Hk _].
  unfold classify_one in *. rewrite Hk. bind_inv H. rewrite Ha. cbn [bind].
  inversion H; subst. destruct a as [[lbl rsn]|]; reflexivity.
Qed.

Lemma map_res_fixed {A : Type} (f : A -> res A) (l l' : list A) :
  (forall x y, f x = Ok y -> f y = Ok y) ->
  map_res f l = Ok l' -> map_res f l' = Ok l'.
Proof.
  intros Hf H. apply map_res_Forall2 in H.
  induction H as [|x y l l' Hxy _ IH]; cbn [map_res].
  - reflexivity.
  - rewrite (Hf x y Hxy). cbn [bind]. rewrite IH. reflexivity.
Qed.

(** X5.  Whenever [_classify_diffs] returns, it returns as many entries as
    it was given, in the same order, each with the key and the two values
    of the entry it comes from: only label and reason are ever set. *)
Theorem classification_keeps_the_differences (diffs out : list DiffEntry)
  (expectations : pyval) :
  _classify_diffs diffs expectations = Ok out ->
  List.length out = List.length diffs /\ Forall2 same_difference diffs out.
Proof.
  unfold _classify_diffs. intro H. bind_inv H. bind_inv H. bind_inv H.
  split; [exact (map_res_length _ _ _ H)|].
  apply map_res_Forall2 in H.
  eapply Forall2_impl; [|exact H].
  intros d d' Hd. exact (classify_one_same _ _ _ Hd).
Qed.

Lemma classification_keeps_the_differences_witness :
  let diffs := [new_DiffEntry "device.model" (PStr "a") (PStr "b");
                new_DiffEntry "file.x" PNone (PDict [])] in
  let expectations :=
    PDict [("intentional_differences", PList [PDict [("key", PStr "device")]])] in
  exists out,
    _classify_diffs diffs expectations = Ok out /\ List.length out = 2%nat.
Proof.
  intros diffs expectations. eexists. split; [reflexivity|].
  exact (proj1 (classification_keeps_the_differences diffs _ expectations eq_refl)).
Defined.

(** X6.  Classification is idempotent: classifying its own result with the
    same overlay returns that result again. *)
Theorem classification_is_idempotent (diffs out : list DiffEntry)
  (expectations : pyval) :
  _classify_diffs diffs expectations = Ok out ->
  _classify_diffs out expectations = Ok out.
Proof.
  unfold _classify_diffs. intro H. bind_inv H. bind_inv H. bind_inv H.
  rewrite Ha, Ha0, Ha1. cbn [bind].
  eapply map_res_fixed; [|exact H].
  intros x y. apply classify_one_again.
Qed.

Lemma classification_is_idempotent_witness :
  let diffs := [new_DiffEntry "device.model" (PStr "a") (PStr "b");
                new_DiffEntry "file.x" PNone (PDict [])] in
  let expectations :=
    PDict [("quirk_needed", PList [PDict [("key", PStr "file"); ("reason", PStr "r")]])] in
  exists out,
    _classify_diffs diffs expectations = Ok out /\
    _classify_diffs out expectations = Ok out.
Proof.
  intros diffs expectations. eexists. split; [reflexivity|].
  exact (classification_is_idempotent diffs _ expectations eq_refl).
Defined.

Lemma map_relabel_nil (diffs : list DiffEntry) : map (relabel []) diffs = diffs.
Proof.
  induction diffs as [|d rest IH]; cbn [map].
  - reflexivity.
  - rewrite IH. reflexivity.
Qed.

Lemma labelled_all (lbl : pyval) (diffs : list DiffEntry) :
  (forall d, In d diffs -> label d = lbl) -> py_eq lbl lbl = true ->
  labelled lbl diffs = Z.of_nat (List.length diffs).
Proof.
  intros H Hrefl. induction diffs as [|d rest IH].
  - reflexivity.
  - rewrite labelled_cons, (H d (or_introl eq_refl)), Hrefl.
    rewrite IH by (intros d' Hd'; apply H; right; exact Hd').
    cbn [List.length]. lia.
Qed.

(** X7.  An overlay in which each of the three sections is missing or an
    empty list leaves every diff list as it is.  When the entries carry the
    label unknown, as the diff engine makes them, [main] then returns 1
    unless there is no diff at all.  A section that is there with the value
    [None] (a YAML header without entries) is not such an overlay:
    [_classify_diffs] raises. *)
Theorem without_overlay_every_diff_needs_investigation (diffs : list DiffEntry) :
  (forall expectations,
     overlay_sections expectations [] [] [] ->
     _classify_diffs diffs expectations = Ok diffs /\
     ((forall d, In d diffs -> label d = PStr "unknown") ->
      exists counts,
        _summary_counts diffs = Ok counts /\
        main_exit_code counts = match diffs with [] => 0 | _ => 1 end)) /\
  (forall fields section,
     In section ["intentional_differences"; "quirk_needed"; "known_bugs"] ->
     dict_get section fields = Some PNone ->
     exists e, _classify_diffs diffs (PDict fields) = Raise e).
Proof.
  split.
  - intros expectations Hsec. split.
    + rewrite (_classify_diffs_spec diffs expectations [] [] [] Hsec eq_refl).
      unfold declarations. cbn [section_declarations flat_map app].
      rewrite map_relabel_nil. reflexivity.
    + intro Hlab.
      assert (Hh : forall d, In d diffs -> hashable (label d) = true).
      { intros d Hd. rewrite (Hlab d Hd). reflexivity. }
      rewrite _summary_counts_for_each.
      destruct (count_entries_spec diffs _ initial_counts_hashable Hh)
        as [counts [E [_ [_ [Hcount _]]]]].
      exists counts. split; [exact E|].
      unfold main_exit_code.
      rewrite (Hcount (PStr LABEL_UNKNOWN) eq_refl),
              (Hcount (PStr LABEL_BUG_SWIFTMTP) eq_refl), !count_of_initial.
      rewrite (labelled_all (PStr LABEL_UNKNOWN) diffs Hlab eq_refl).
      pose proof (labelled_nonneg (PStr LABEL_BUG_SWIFTMTP) diffs) as N.
      cbv zeta. destruct diffs as [|d rest].
      * reflexivity.
      * cbn [List.length].
        destruct (Z.gtb_spec (0 + Z.of_nat (S (List.length rest)) +
                              (0 + labelled (PStr LABEL_BUG_SWIFTMTP) (d :: rest))) 0);
          [reflexivity | lia].
  - intros fields section Hsec Hnone.
    assert (B : _build_map (PDict fields) section = Raise TypeError).
    { unfold _build_map. cbn [py_get bind]. rewrite Hnone. reflexivity. }
    unfold _classify_diffs.
    destruct Hsec as [<-|[<-|[<-|[]]]].
    + rewrite B. exists TypeError. reflexivity.
    + destruct (_build_map (PDict fields) "intentional_differences") as [im|e];
        [|exists e; reflexivity].
      cbn [bind]. rewrite B. exists TypeError. reflexivity.
    + destruct (_build_map (PDict fields) "intentional_differences") as [im|e];
        [|exists e; reflexivity].
      cbn [bind].
      destruct (_build_map (PDict fields) "quirk_needed") as [qm|e];
        [|exists e; reflexivity].
      cbn [bind]. rewrite B. exists TypeError. reflexivity.
Qed.

Lemma without_overlay_every_diff_needs_investigation_witness :
  let diffs := [new_DiffEntry "file.DCIM/IMG_0001.JPG"
                  (PDict [("path", PStr "DCIM/IMG_0001.JPG");
                          ("size_bytes", PInt 204800)]) PNone] in
  _classify_diffs diffs (PDict [("quirk_needed", PList [])]) = Ok diffs /\
  (exists counts, _summary_counts diffs = Ok counts /\ main_exit_code counts = 1) /\
  exists e, _classify_diffs diffs (PDict [("known_bugs", PNone)]) = Raise e.
Proof.
  intro diffs.
  pose (T := without_overlay_every_diff_needs_investigation diffs).
  assert (S : overlay_sections (PDict [("quirk_needed", PList [])]) [] [] []).
  { eexists. repeat split. }
  destruct (proj1 T _ S) as [C E].
  split; [exact C|]. split.
  - apply E. intros d [<-|[]]. reflexivity.
  - exact (proj2 T [("known_bugs", PNone)] "known_bugs"
             (or_intror (or_intror (or_introl eq_refl))) eq_refl).
Defined.

Lemma prefix_app (a b : string) :
  prefix a b = true <-> exists rest, b = a ++ rest.
Proof.
  revert b. induction a as [|c a IH]; intro b.
  - destruct b; cbn [prefix]; split; intros; try reflexivity; eexists; reflexivity.
  - destruct b as [|c' b]; cbn [prefix].
    + split; [discriminate | intros [rest H]; discriminate H].
    + destruct (Ascii.ascii_dec c c') as [->|Hne].
      * rewrite IH. split; intros [rest H]; exists rest.
        -- cbn [append]. congruence.
        -- cbn [append] in H. congruence.
      * split; [discriminate|]. intros [rest H]. cbn [append] in H. congruence.
Qed.

Lemma string_app_assoc (a b c : string) : (a ++ b) ++ c = a ++ (b ++ c).
Proof.
  induction a as [|x a IH]; cbn [append].
  - reflexivity.
  - rewrite IH. reflexivity.
Qed.

(* ===================================================================== *)
(** ** The order of strings and [sorted] on strings *)
(* ===================================================================== *)

Lemma ascii_compare_refl (c : ascii) : Ascii.compare c c = Eq.
Proof. unfold Ascii.compare. apply N.compare_refl. Qed.

Lemma str_compare_refl (s : string) : String.compare s s = Eq.
Proof.
  induction s as [|c s IH]; cbn [String.compare].
  - reflexivity.
  - rewrite ascii_compare_refl. exact IH.
Qed.

Lemma str_compare_trans (a b c : string) :
  String.compare a b = Lt -> String.compare b c = Lt -> String.compare a c = Lt.
Proof.
  revert b c. induction a as [|x a IH]; intros [|y b] [|z c];
    cbn [String.compare]; try discriminate; try reflexivity.
  destruct (Ascii.compare x y) eqn:Exy; try discriminate;
    destruct (Ascii.compare y z) eqn:Eyz; try discriminate; intros Hab Hbc.
  - apply Ascii.compare_eq_iff in Exy, Eyz. subst.
    rewrite ascii_compare_refl. exact (IH _ _ Hab Hbc).
  - apply Ascii.compare_eq_iff in Exy. subst. rewrite Eyz. reflexivity.
  - apply Ascii.compare_eq_iff in Eyz. subst. rewrite Exy. reflexivity.
  - unfold Ascii.compare in *. rewrite N.compare_lt_iff in Exy, Eyz.
    replace (N_of_ascii x ?= N_of_ascii z)%N with Lt; [reflexivity|].
    symmetry. apply N.compare_lt_iff. lia.
Qed.

Lemma str_ltb_irrefl (s : string) : (s <? s)%string = false.
Proof. unfold String.ltb. rewrite str_compare_refl. reflexivity. Qed.

Lemma str_ltb_asym (a b : string) : (a <? b)%string = true -> (b <? a)%string = false.
Proof.
  unfold String.ltb. rewrite (String.compare_antisym b a).
  destruct (String.compare a b); cbn; congruence.
Qed.

Lemma str_ltb_trans (a b c : string) :
  (a <? b)%string = true -> (b <? c)%string = true -> (a <? c)%string = true.
Proof.
  unfold String.ltb.
  destruct (String.compare a b) eqn:Eab; try discriminate.
  destruct (String.compare b c) eqn:Ebc; try discriminate.
  rewrite (str_compare_trans a b c Eab Ebc). reflexivity.
Qed.

Lemma str_ltb_total (a b : string) :
  (a <? b)%string = false -> (b <? a)%string = false -> a = b.
Proof.
  unfold String.ltb. rewrite (String.compare_antisym b a).
  destruct (String.compare a b) eqn:E; cbn; try discriminate.
  intros _ _. apply String.compare_eq_iff. exact E.
Qed.

(** [a <= b] *)
Lemma str_le_trans (a b c : string) :
  (b <? a)%string = false -> (c <? b)%string = false -> (c <? a)%string = false.
Proof.
  intros Hab Hbc. destruct (c <? a)%string eqn:E; [|reflexivity].
  destruct (a <? b)%string eqn:E1.
  - rewrite (str_ltb_trans c a b E E1) in Hbc. discriminate Hbc.
  - rewrite (str_ltb_total a b E1 Hab) in E. congruence.
Qed.

Lemma insert_str_In (x : string) (l : list string) (y : string) :
  In y (insert_str x l) <-> y = x \/ In y l.
Proof.
  induction l as [|z rest IH]; cbn [insert_str In].
  - intuition.
  - destruct (z <? x)%string; cbn [In]; rewrite ?IH; intuition.
Qed.

Lemma insert_str_sorted (x : string) (l : list string) :
  StronglySorted (fun a b => (b <? a)%string = false) l ->
  StronglySorted (fun a b => (b <? a)%string = false) (insert_str x l).
Proof.
  induction l as [|z rest IH]; cbn [insert_str]; intro H.
  - constructor; constructor.
  - inversion H as [|? ? Hrest Hall]; subst.
    destruct (z <? x)%string eqn:E.
    + constructor; [apply IH; exact Hrest|].
      apply Forall_forall. intros y Hy. apply insert_str_In in Hy.
      destruct Hy as [->|Hy].
      * apply str_ltb_asym. exact E.
      * rewrite Forall_forall in Hall. apply Hall. exact Hy.
    + constructor; [exact H|]. constructor; [exact E|].
      eapply Forall_impl; [|exact Hall]. cbv beta. intros y Hy.
      exact (str_le_trans x z y E Hy).
Qed.

Lemma sorted_str_sorted (l : list string) :
  StronglySorted (fun a b => (b <? a)%string = false) (sorted_str l).
Proof.
  induction l as [|x rest IH]; cbn [sorted_str fold_right].
  - constructor.
  - apply insert_str_sorted. exact IH.
Qed.

(** Two ascending lists without repetition that hold the same strings are
    one list. *)
Lemma ascending_unique (l l' : list string) :
  StronglySorted (fun a b => (b <? a)%string = false) l ->
  StronglySorted (fun a b => (b <? a)%string = false) l' ->
  NoDup l -> NoDup l' ->
  (forall x, In x l <-> In x l') ->
  l = l'.
Proof.
  revert l'. induction l as [|a l IH]; intros [|a' l'] Hs Hs' Hn Hn' Hin.
  - reflexivity.
  - exfalso. apply (proj2 (Hin a')). left. reflexivity.
  - exfalso. apply (proj1 (Hin a)). left. reflexivity.
  - inversion Hs as [|? ? Hs1 Ha]; inversion Hs' as [|? ? Hs1' Ha']; subst.
    inversion Hn as [|? ? Hna Hn1]; inversion Hn' as [|? ? Hna' Hn1']; subst.
    rewrite Forall_forall in Ha, Ha'.
    assert (E : a = a').
    { destruct (proj1 (Hin a) (or_introl eq_refl)) as [E|Hal']; [congruence|].
      destruct (proj2 (Hin a') (or_introl eq_refl)) as [E|Ha'l]; [congruence|].
      apply str_ltb_total; [apply Ha'; exact Hal' | apply Ha; exact Ha'l]. }
    subst a'. f_equal. apply IH; try assumption.
    intro x. split; intro Hx.
    + destruct (proj1 (Hin x) (or_intror Hx)) as [E|H]; [subst; contradiction | exact H].
    + destruct (proj2 (Hin x) (or_intror Hx)) as [E|H]; [subst; contradiction | exact H].
Qed.

Lemma sorted_str_NoDup (l : list string) : NoDup l -> NoDup (sorted_str l).
Proof.
  intro H. eapply Permutation_NoDup; [apply sorted_str_perm | exact H].
Qed.

(** [sorted] of strings without repetition depends on the set only. *)
Lemma sorted_str_canonical (l l' : list string) :
  NoDup l -> NoDup l' -> (forall x, In x l <-> In x l') ->
  sorted_str l = sorted_str l'.
Proof.
  intros Hn Hn' Hin. apply ascending_unique.
  - apply sorted_str_sorted.
  - apply sorted_str_sorted.
  - apply sorted_str_NoDup. exact Hn.
  - apply sorted_str_NoDup. exact Hn'.
  - intro x. rewrite !sorted_str_In. apply Hin.
Qed.

(** The model of [sorted] on a list of strings is the pure sort. *)
Lemma insert_by_key_str {A : Type} (f : string -> A) (x : string) (l : list string) :
  insert_by_key (PStr x) (f x) (map (fun s => (PStr s, f s)) l) =
  Ok (map (fun s => (PStr s, f s)) (insert_str x l)).
Proof.
  induction l as [|y rest IH]; cbn [map insert_by_key insert_str].
  - reflexivity.
  - cbn [py_lt bind]. destruct (y <? x)%string.
    + rewrite IH. reflexivity.
    + reflexivity.
Qed.

Lemma sort_keyed_str {A : Type} (f : string -> A) (l : list string) :
  sort_keyed (map (fun s => (PStr s, f s)) l) =
  Ok (map (fun s => (PStr s, f s)) (sorted_str l)).
Proof.
  induction l as [|x rest IH]; cbn [map sort_keyed sorted_str fold_right].
  - reflexivity.
  - rewrite IH. cbn [bind]. apply insert_by_key_str.
Qed.

Lemma sorted_strings (l : list string) :
  sorted (map PStr l) = Ok (map PStr (sorted_str l)).
Proof.
  unfold sorted, sorted_by.
  rewrite (map_res_pure _ (fun k => (k, k))) by reflexivity. cbn [bind].
  rewrite map_map. rewrite (sort_keyed_str PStr l). cbn [bind].
  rewrite map_map. reflexivity.
Qed.

(* ===================================================================== *)
(** ** The path maps of the file diff *)
(* ===================================================================== *)

Lemma for_each_app {A S : Type} (body : S -> A -> res S) (l1 l2 : list A) (acc : S) :
  for_each body (l1 ++ l2) acc =
  (acc' <- for_each body l1 acc ;; for_each body l2 acc').
Proof.
  revert acc. induction l1 as [|x l1 IH]; intro acc; cbn [app for_each bind].
  - reflexivity.
  - destruct (body acc x) as [acc'|e]; cbn [bind]; [apply IH | reflexivity].
Qed.

(** The body of the dict comprehension of [_diff_files]. *)
Lemma path_map_snoc (files : list pydict) (f : pydict) :
  path_map (files ++ [f]) =
  (m <- path_map files ;;
   match dict_get "path" f with
   | Some p => map_set m p f
   | None => Raise KeyError
   end).
Proof.
  unfold path_map. rewrite for_each_app.
  match goal with
  | |- context [for_each ?b files ?acc] =>
      destruct (for_each b files acc) as [m|e]
  end; cbn [bind for_each]; [|reflexivity].
  destruct (dict_get "path" f) as [p|]; [|reflexivity].
  destruct (map_set m p f); reflexivity.
Qed.

(** Of the records of one path, the dict keeps the last. *)
Lemma path_map_lookup (files : list pydict) (m : amap pydict) (k : pyval) :
  path_map files = Ok m -> hashable k = true ->
  amap_get k m = last_with_path k files.
Proof.
  unfold last_with_path. revert m.
  induction files as [|f files IH] using rev_ind; intros m H Hk.
  - inversion H; subst. reflexivity.
  - rewrite path_map_snoc in H. bind_inv H. rename a into m0.
    destruct (dict_get "path" f) as [p|] eqn:Ep; [|discriminate].
    unfold map_set, check_hashable in H.
    destruct (hashable p) eqn:Hp; [|discriminate]. cbn [bind] in H.
    inversion H; subst m. clear H.
    rewrite rev_app_distr. cbn [rev app find]. unfold has_path at 1. rewrite Ep.
    rewrite (amap_get_set k p f m0 Hk Hp (path_map_keys_hashable _ _ Ha)).
    destruct (py_eq k p); [reflexivity|]. apply IH; assumption.
Qed.

Lemma amap_set_str_keys {V : Type} (p : string) (v : V) (m : amap V) (ps : list string) :
  amap_keys m = map PStr ps ->
  amap_keys (amap_set (PStr p) v m) =
  map PStr (if in_dec string_dec p ps then ps else ps ++ [p]).
Proof.
  revert ps. induction m as [|[k0 v0] rest IH]; intros [|q ps] H;
    cbn [amap_keys map fst] in H; try discriminate.
  - reflexivity.
  - inversion H as [[Hk Hrest]]. subst k0. cbn [amap_set py_eq].
    destruct (String.eqb_spec p q) as [->|Hne].
    + cbn [amap_keys map fst]. destruct (in_dec string_dec q (q :: ps)) as [_|N].
      * cbn [map]. f_equal. exact Hrest.
      * exfalso. apply N. left. reflexivity.
    + cbn [amap_keys map fst]. fold (amap_keys (amap_set (PStr p) v rest)).
      rewrite (IH ps Hrest).
      destruct (in_dec string_dec p ps) as [Hin|Hnin];
        destruct (in_dec string_dec p (q :: ps)) as [Hin'|Hnin']; cbn [map app];
        try reflexivity.
      * exfalso. apply Hnin'. right. exact Hin.
      * exfalso. destruct Hin' as [E|Hin']; [congruence | contradiction].
Qed.

Lemma path_strings_app (l1 l2 : list pydict) :
  path_strings (l1 ++ l2) = (path_strings l1 ++ path_strings l2)%list.
Proof. unfold path_strings. apply flat_map_app. Qed.

(** On records with string paths the comprehension cannot fail; its keys
    are the paths, each once, in the order of their first record. *)
Lemma path_map_str (files : list pydict) :
  str_paths files = true ->
  exists m ps,
    path_map files = Ok m /\
    amap_keys m = map PStr ps /\
    NoDup ps /\
    (forall p, In p ps <-> In p (path_strings files)).
Proof.
  induction files as [|f files IH] using rev_ind; intro H.
  - exists [], []. repeat split; try constructor; intros [].
  - unfold str_paths in H. rewrite forallb_app in H. apply andb_prop in H.
    destruct H as [Hfiles Hf]. cbn [forallb] in Hf.
    destruct (str_path f) as [p|] eqn:Ep; [|discriminate]. clear Hf.
    destruct (IH Hfiles) as [m [ps [Hm [Hkeys [Hnd Hin]]]]].
    exists (amap_set (PStr p) f m),
           (if in_dec string_dec p ps then ps else ps ++ [p])%list.
    assert (Epath : dict_get "path" f = Some (PStr p)).
    { unfold str_path in Ep. destruct (dict_get "path" f) as [[| | |s| |]|];
        try discriminate. inversion Ep. reflexivity. }
    split; [|split; [|split]].
    + rewrite path_map_snoc, Hm. cbn [bind]. rewrite Epath. reflexivity.
    + apply amap_set_str_keys. exact Hkeys.
    + destruct (in_dec string_dec p ps) as [Hp|Hp]; [exact Hnd|].
      apply NoDup_app; [exact Hnd | constructor; [intros [] | constructor] |].
      intros x Hx [<-|[]]. contradiction.
    + intro x. rewrite path_strings_app, in_app_iff, <- Hin.
      unfold path_strings at 1. cbn [flat_map]. rewrite Ep. cbn [app In].
      destruct (in_dec string_dec p ps) as [Hp|Hp].
      * split; [tauto|]. intros [Hx|[<-|[]]]; assumption.
      * rewrite in_app_iff. cbn [In]. tauto.
Qed.

Lemma existsb_py_eq_str (q : string) (ps : list string) :
  existsb (py_eq (PStr q)) (map PStr ps) = existsb (String.eqb q) ps.
Proof.
  induction ps as [|p ps IH]; cbn [map existsb].
  - reflexivity.
  - rewrite IH. reflexivity.
Qed.

Lemma key_union_str (ps qs : list string) :
  key_union (map PStr ps) (map PStr qs) =
  map PStr (ps ++ filter (fun q => negb (existsb (String.eqb q) ps)) qs).
Proof.
  unfold key_union. rewrite map_app. f_equal.
  induction qs as [|q qs IH].
  - reflexivity.
  - change (map PStr (q :: qs)) with (PStr q :: map PStr qs).
    cbn [filter]. rewrite existsb_py_eq_str.
    destruct (existsb (String.eqb q) ps); cbn [negb map].
    + exact IH.
    + f_equal. exact IH.
Qed.

Lemma existsb_eqb_In (q : string) (ps : list string) :
  existsb (String.eqb q) ps = true <-> In q ps.
Proof.
  rewrite existsb_exists. split.
  - intros [x [Hx E]]. apply String.eqb_eq in E. subst. exact Hx.
  - intro H. exists q. split; [exact H | apply String.eqb_refl].
Qed.

Lemma union_NoDup (ps qs : list string) :
  NoDup ps -> NoDup qs ->
  NoDup (ps ++ filter (fun q => negb (existsb (String.eqb q) ps)) qs).
Proof.
  intros Hp Hq. apply NoDup_app.
  - exact Hp.
  - apply NoDup_filter. exact Hq.
  - intros x Hx Hx'. apply filter_In in Hx'. destruct Hx' as [_ N].
    apply negb_true_iff in N.
    rewrite (proj2 (existsb_eqb_In x ps) Hx) in N. discriminate N.
Qed.

Lemma union_In (ps qs : list string) (x : string) :
  In x (ps ++ filter (fun q => negb (existsb (String.eqb q) ps)) qs) <->
  In x ps \/ In x qs.
Proof.
  rewrite in_app_iff, filter_In, negb_true_iff. split.
  - tauto.
  - intros [H|H]; [left; exact H|].
    destruct (existsb (String.eqb x) ps) eqn:E.
    + left. apply existsb_eqb_In. exact E.
    + right. tauto.
Qed.

(** The loop of [_diff_files] on lists with string paths: the paths of
    both lists, each once, in ascending order. *)
Lemma _diff_files_visits (lib_files swift_files : list pydict) (ts_tol : Z)
  (lib_map swift_map : amap pydict) :
  str_paths lib_files = true -> str_paths swift_files = true ->
  path_map lib_files = Ok lib_map -> path_map swift_files = Ok swift_map ->
  _diff_files lib_files swift_files ts_tol =
  (parts <- map_res (diff_path lib_map swift_map ts_tol)
              (map PStr (visited lib_files swift_files)) ;;
   Ok (List.concat parts)).
Proof.
  intros Sl Ss Hl Hs.
  destruct (path_map_str lib_files Sl) as [lm [ps [Hlm [Kl [Nl Il]]]]].
  destruct (path_map_str swift_files Ss) as [sm [qs [Hsm [Ks [Ns Is]]]]].
  rewrite Hl in Hlm. inversion Hlm; subst lm.
  rewrite Hs in Hsm. inversion Hsm; subst sm.
  unfold _diff_files. rewrite Hl, Hs. cbn [bind].
  rewrite Kl, Ks, key_union_str, sorted_strings. cbn [bind].
  unfold visited.
  rewrite (sorted_str_canonical _
             (str_union (path_strings lib_files) (path_strings swift_files))).
  - reflexivity.
  - apply union_NoDup; assumption.
  - unfold str_union. apply NoDup_nodup.
  - intro x. rewrite union_In, str_union_In, Il, Is. reflexivity.
Qed.

Lemma visited_In (lib_files swift_files : list pydict) (p : string) :
  In p (visited lib_files swift_files) <->
  In p (path_strings lib_files) \/ In p (path_strings swift_files).
Proof. unfold visited. rewrite sorted_str_In. apply str_union_In. Qed.

Lemma diff_path_lookup_ext (lm sm lm' sm' : amap pydict) (ts_tol : Z) (k : pyval) :
  amap_get k lm' = amap_get k lm -> amap_get k sm' = amap_get k sm ->
  diff_path lm' sm' ts_tol k = diff_path lm sm ts_tol k.
Proof. unfold diff_path. intros -> ->. reflexivity. Qed.

(* ===================================================================== *)
(** ** The file diff: tolerance, empty sides, malformed records *)
(* ===================================================================== *)

Lemma diff_mtime_monotone (path : pyval) (a b : pydict) (t t' : Z)
  (part : list DiffEntry) :
  t <= t' -> diff_mtime path a b t = Ok part ->
  exists part', diff_mtime path a b t' = Ok part' /\ incl part' part.
Proof.
  unfold diff_mtime. intros Ht H.
  destruct (negb (is_none (get_none a "mtime")) && negb (is_none (get_none b "mtime"))).
  - bind_inv H. rewrite Ha. cbn [bind].
    destruct (Z.gtb_spec (Z.abs a0) t'); destruct (Z.gtb_spec (Z.abs a0) t);
      try lia; inversion H; subst; eexists; split; try reflexivity;
      try apply incl_refl. intros x [].
  - inversion H; subst. exists []. split; [reflexivity | apply incl_refl].
Qed.

Lemma diff_path_monotone (lm sm : amap pydict) (t t' : Z) (k : pyval)
  (part : list DiffEntry) :
  t <= t' -> diff_path lm sm t k = Ok part ->
  exists part', diff_path lm sm t' k = Ok part' /\ incl part' part.
Proof.
  unfold diff_path. intros Ht H.
  destruct (amap_get k lm) as [a|]; destruct (amap_get k sm) as [b|];
    try (exists part; split; [exact H | apply incl_refl]).
  bind_inv H. inversion H; subst.
  destruct (diff_mtime_monotone k a b t t' _ Ht Ha) as [mt' [E I]].
  rewrite E. cbn [bind]. eexists. split; [reflexivity|].
  apply incl_app; [apply incl_appl, incl_refl | apply incl_appr; exact I].
Qed.

Lemma map_res_incl {A B : Type} (f g : A -> res (list B)) (l : list A)
  (parts : list (list B)) :
  (forall x part, f x = Ok part -> exists part', g x = Ok part' /\ incl part' part) ->
  map_res f l = Ok parts ->
  exists parts', map_res g l = Ok parts' /\
                 incl (List.concat parts') (List.concat parts).
Proof.
  intros Hfg H. apply map_res_Forall2 in H.
  induction H as [|x part l parts Hx _ IH]; cbn [map_res].
  - exists []. split; [reflexivity | apply incl_refl].
  - destruct (Hfg x part Hx) as [part' [E I]].
    destruct IH as [parts' [E' I']].
    rewrite E, E'. cbn [bind]. eexists. split; [reflexivity|].
    cbn [List.concat].
    apply incl_app; [apply incl_appl; exact I | apply incl_appr; exact I'].
Qed.

(** X9.  A larger tolerance never adds a diff: when [_diff_files] returns
    for the tolerance [t], it returns for every [t' >= t], and every entry
    it reports for [t'] it reports for [t]. *)
Theorem larger_tolerance_reports_less (lib_files swift_files : list pydict)
  (t t' : Z) (out : list DiffEntry) :
  t <= t' ->
  _diff_files lib_files swift_files t = Ok out ->
  exists out',
    _diff_files lib_files swift_files t' = Ok out' /\
    forall d, In d out' -> In d out.
Proof.
  unfold _diff_files. intros Ht H.
  bind_inv H. bind_inv H. bind_inv H. bind_inv H. inversion H; subst out.
  rewrite Ha, Ha0. cbn [bind]. rewrite Ha1. cbn [bind].
  destruct (map_res_incl (diff_path a a0 t) (diff_path a a0 t') a1 a2
              (fun k part => diff_path_monotone a a0 t t' k part Ht) Ha2)
    as [parts' [E I]].
  rewrite E. cbn [bind]. eexists. split; [reflexivity | exact I].
Qed.

Lemma larger_tolerance_reports_less_witness :
  let a := [("path", PStr "a.txt"); ("size_bytes", PInt 1); ("mtime", PInt 1000)] in
  let b := [("path", PStr "a.txt"); ("size_bytes", PInt 2); ("mtime", PInt 1090)] in
  exists out out',
    _diff_files [a] [b] 60 = Ok out /\ _diff_files [a] [b] 120 = Ok out' /\
    List.length out = 2%nat /\ List.length out' = 1%nat /\
    forall d, In d out' -> In d out.
Proof.
  intros a b.
  destruct (larger_tolerance_reports_less [a] [b] 60 120 _ ltac:(lia) eq_refl)
    as [out' [E I]].
  eexists. exists out'. split; [reflexivity|]. split; [exact E|].
  split; [reflexivity|]. split; [|exact I].
  assert (E' : _diff_files [a] [b] 120 =
               Ok [new_DiffEntry "file.a.txt.size_bytes" (PInt 1) (PInt 2)])
    by reflexivity.
  rewrite E' in E. inversion E. reflexivity.
Defined.

Lemma path_map_app_raise (l1 l2 : list pydict) (f : pydict) (e : exn) :
  str_paths l1 = true ->
  (forall m, match dict_get "path" f with
             | Some p => map_set m p f
             | None => Raise KeyError
             end = Raise e) ->
  path_map (l1 ++ f :: l2) = Raise e.
Proof.
  intros Hl1 Hf. destruct (path_map_str l1 Hl1) as [m [ps [Hm _]]].
  unfold path_map in *. rewrite for_each_app, Hm. cbn [bind for_each].
  rewrite (Hf m). reflexivity.
Qed.

(** X11.  Malformed records stop [_diff_files]: after records with string
    paths, a record without ["path"] raises [KeyError], and a record whose
    path is a list or a dict raises [TypeError], on either side. *)
Theorem malformed_record_stops_the_file_diff (l1 l2 good : list pydict)
  (f : pydict) (ts_tol : Z) :
  str_paths l1 = true -> str_paths good = true ->
  (dict_get "path" f = None ->
   _diff_files (l1 ++ f :: l2) good ts_tol = Raise KeyError /\
   _diff_files good (l1 ++ f :: l2) ts_tol = Raise KeyError) /\
  (forall p, dict_get "path" f = Some p -> hashable p = false ->
   _diff_files (l1 ++ f :: l2) good ts_tol = Raise TypeError /\
   _diff_files good (l1 ++ f :: l2) ts_tol = Raise TypeError).
Proof.
  intros Hl1 Hgood.
  destruct (path_map_str good Hgood) as [gm [ps [Hgm _]]].
  split.
  - intro Hf.
    assert (E : path_map (l1 ++ f :: l2) = Raise KeyError).
    { apply path_map_app_raise; [exact Hl1|]. intro m. rewrite Hf. reflexivity. }
    unfold _diff_files. rewrite E, Hgm. split; reflexivity.
  - intros p Hf Hp.
    assert (E : path_map (l1 ++ f :: l2) = Raise TypeError).
    { apply path_map_app_raise; [exact Hl1|]. intro m. rewrite Hf.
      unfold map_set, check_hashable. rewrite Hp. reflexivity. }
    unfold _diff_files. rewrite E, Hgm. split; reflexivity.
Qed.

Lemma malformed_record_stops_the_file_diff_witness :
  _diff_files [[("path", PStr "a"); ("size_bytes", PInt 1)]; [("size_bytes", PInt 2)]]
    [] 120 = Raise KeyError /\
  _diff_files [] [[("path", PList [PStr "a"]); ("size_bytes", PInt 2)]] 120 =
    Raise TypeError.
Proof.
  split.
  - exact (proj1 (proj1 (malformed_record_stops_the_file_diff
             [[("path", PStr "a"); ("size_bytes", PInt 1)]] [] []
             [("size_bytes", PInt 2)] 120 eq_refl eq_refl) eq_refl)).
  - exact (proj2 (proj2 (malformed_record_stops_the_file_diff
             [] [] [] [("path", PList [PStr "a"]); ("size_bytes", PInt 2)] 120
             eq_refl eq_refl) _ eq_refl eq_refl)).
Defined.

(* ===================================================================== *)
(** ** The file diff and the order of its input *)
(* ===================================================================== *)

Lemma find_app_ {A : Type} (P : A -> bool) (l1 l2 : list A) :
  find P (l1 ++ l2) = match find P l1 with Some x => Some x | None => find P l2 end.
Proof.
  induction l1 as [|x l1 IH]; cbn [app find].
  - reflexivity.
  - destruct (P x); [reflexivity | exact IH].
Qed.

Lemma str_path_Some (f : pydict) (p : string) :
  str_path f = Some p <-> dict_get "path" f = Some (PStr p).
Proof.
  unfold str_path. destruct (dict_get "path" f) as [[| | |s| |]|]; split; intro H;
    try discriminate; inversion H; reflexivity.
Qed.

Lemma has_path_str (q : string) (f : pydict) :
  has_path (PStr q) f = true <-> str_path f = Some q.
Proof.
  unfold has_path, str_path. destruct (dict_get "path" f) as [[| | |s| |]|];
    cbn [py_eq]; split; intro H; try discriminate.
  - apply String.eqb_eq in H. subst. reflexivity.
  - inversion H. apply String.eqb_refl.
Qed.

Lemma path_strings_In (files : list pydict) (p : string) :
  In p (path_strings files) <-> exists f, In f files /\ str_path f = Some p.
Proof.
  unfold path_strings. rewrite in_flat_map. split.
  - intros [f [Hf Hp]]. exists f. split; [exact Hf|].
    destruct (str_path f) as [q|]; [|destruct Hp].
    destruct Hp as [->|[]]. reflexivity.
  - intros [f [Hf Hp]]. exists f. split; [exact Hf|]. rewrite Hp. left. reflexivity.
Qed.

(** Two pairs of lists with the same paths and the same last record under
    every path have the same file diff. *)
Lemma _diff_files_ext (lib swift lib' swift' : list pydict) (ts_tol : Z) :
  str_paths lib = true -> str_paths swift = true ->
  str_paths lib' = true -> str_paths swift' = true ->
  (forall p, In p (path_strings lib') <-> In p (path_strings lib)) ->
  (forall p, In p (path_strings swift') <-> In p (path_strings swift)) ->
  (forall p, last_with_path (PStr p) lib' = last_with_path (PStr p) lib) ->
  (forall p, last_with_path (PStr p) swift' = last_with_path (PStr p) swift) ->
  _diff_files lib' swift' ts_tol = _diff_files lib swift ts_tol.
Proof.
  intros Sl Ss Sl' Ss' Pl Ps Ll Ls.
  destruct (path_map_str lib Sl) as [lm [? [Hlm _]]].
  destruct (path_map_str swift Ss) as [sm [? [Hsm _]]].
  destruct (path_map_str lib' Sl') as [lm' [? [Hlm' _]]].
  destruct (path_map_str swift' Ss') as [sm' [? [Hsm' _]]].
  rewrite (_diff_files_visits lib swift ts_tol lm sm Sl Ss Hlm Hsm).
  rewrite (_diff_files_visits lib' swift' ts_tol lm' sm' Sl' Ss' Hlm' Hsm').
  assert (V : visited lib' swift' = visited lib swift).
  { unfold visited. apply sorted_str_canonical.
    - apply NoDup_nodup.
    - apply NoDup_nodup.
    - intro p. rewrite !str_union_In, Pl, Ps. reflexivity. }
  rewrite V.
  rewrite (map_res_ext_in (diff_path lm' sm' ts_tol) (diff_path lm sm ts_tol));
    [reflexivity|].
  intros k Hk. apply in_map_iff in Hk. destruct Hk as [p [<- _]].
  apply diff_path_lookup_ext.
  - rewrite (path_map_lookup _ _ (PStr p) Hlm' eq_refl),
            (path_map_lookup _ _ (PStr p) Hlm eq_refl).
    apply Ll.
  - rewrite (path_map_lookup _ _ (PStr p) Hsm' eq_refl),
            (path_map_lookup _ _ (PStr p) Hsm eq_refl).
    apply Ls.
Qed.

Lemma str_paths_app (l1 l2 : list pydict) :
  str_paths (l1 ++ l2) = str_paths l1 && str_paths l2.
Proof. unfold str_paths. apply forallb_app. Qed.

(** X12.  Of two records with one path in a list only the later one is
    compared: taking the earlier one away does not change the diff. *)
Theorem earlier_record_of_a_path_is_ignored (l1 l2 other : list pydict)
  (f g : pydict) (p : string) (ts_tol : Z) :
  str_paths (l1 ++ f :: l2) = true -> str_paths other = true ->
  str_path f = Some p -> In g l2 -> str_path g = Some p ->
  _diff_files (l1 ++ f :: l2) other ts_tol = _diff_files (l1 ++ l2) other ts_tol /\
  _diff_files other (l1 ++ f :: l2) ts_tol = _diff_files other (l1 ++ l2) ts_tol.
Proof.
  intros S So Hf Hg Hgp.
  assert (S' : str_paths (l1 ++ l2) = true).
  { rewrite str_paths_app in *. apply andb_prop in S. destruct S as [S1 S2].
    change (str_paths (f :: l2)) with
      ((match str_path f with Some _ => true | None => false end) && str_paths l2) in S2.
    apply andb_prop in S2. rewrite S1. tauto. }
  assert (P : forall q, In q (path_strings (l1 ++ l2)) <->
                        In q (path_strings (l1 ++ f :: l2))).
  { intro q. rewrite !path_strings_In. split; intros [x [Hx Hq]].
    - exists x. split; [|exact Hq]. rewrite in_app_iff in *. cbn [In]. tauto.
    - rewrite in_app_iff in Hx. cbn [In] in Hx.
      destruct Hx as [Hx|[<-|Hx]].
      + exists x. rewrite in_app_iff. tauto.
      + exists g. rewrite in_app_iff. split; [tauto|congruence].
      + exists x. rewrite in_app_iff. tauto. }
  assert (L : forall q, last_with_path (PStr q) (l1 ++ l2) =
                        last_with_path (PStr q) (l1 ++ f :: l2)).
  { intro q. unfold last_with_path. rewrite !rev_app_distr. cbn [rev].
    rewrite <- app_assoc. cbn [app]. rewrite !find_app_.
    destruct (find (has_path (PStr q)) (rev l2)) as [x|] eqn:F; [reflexivity|].
    cbn [find]. destruct (has_path (PStr q) f) eqn:Hq; [|reflexivity].
    exfalso. apply has_path_str in Hq.
    assert (q = p) by congruence. subst q.
    assert (N : has_path (PStr p) g = false).
    { apply (find_none _ _ F g). apply in_rev in Hg. exact Hg. }
    rewrite (proj2 (has_path_str p g) Hgp) in N. discriminate N. }
  split.
  - symmetry. apply _diff_files_ext; try assumption; reflexivity.
  - symmetry. apply _diff_files_ext; try assumption; reflexivity.
Qed.

Lemma earlier_record_of_a_path_is_ignored_witness :
  let f := [("path", PStr "a.txt"); ("size_bytes", PInt 1)] in
  let g := [("path", PStr "a.txt"); ("size_bytes", PInt 2)] in
  let b := [("path", PStr "a.txt"); ("size_bytes", PInt 2)] in
  _diff_files [f; g] [b] 120 = Ok [].
Proof.
  intros f g b.
  exact (eq_trans
           (proj1 (earlier_record_of_a_path_is_ignored [] [g] [b] f g "a.txt" 120
                     eq_refl eq_refl eq_refl (or_introl eq_refl) eq_refl))
           eq_refl).
Defined.

Lemma path_strings_unique (files : list pydict) (x y : pydict) (p : string) :
  NoDup (path_strings files) ->
  In x files -> In y files -> str_path x = Some p -> str_path y = Some p -> x = y.
Proof.
  induction files as [|f files IH]; intros Hn Hx Hy Px Py.
  - destruct Hx.
  - change (path_strings (f :: files)) with
      ((match str_path f with Some q => [q] | None => [] end) ++ path_strings files)%list
      in Hn.
    destruct Hx as [<-|Hx]; destruct Hy as [<-|Hy].
    + reflexivity.
    + exfalso. rewrite Px in Hn. cbn [app] in Hn. inversion Hn as [|? ? N _]; subst.
      apply N. apply path_strings_In. exists y. auto.
    + exfalso. rewrite Py in Hn. cbn [app] in Hn. inversion Hn as [|? ? N _]; subst.
      apply N. apply path_strings_In. exists x. auto.
    + apply IH; try assumption.
      destruct (str_path f); [inversion Hn; assumption | exact Hn].
Qed.

Lemma find_unique_perm {A : Type} (P : A -> bool) (l l' : list A) :
  (forall x y, In x l -> In y l -> P x = true -> P y = true -> x = y) ->
  Permutation l l' -> find P l = find P l'.
Proof.
  intros U Hp.
  destruct (find P l) as [x|] eqn:F; destruct (find P l') as [x'|] eqn:F';
    try reflexivity.
  - apply find_some in F, F'. destruct F as [Hx Px]. destruct F' as [Hx' Px'].
    f_equal. apply U; try assumption.
    eapply Permutation_in; [apply Permutation_sym; exact Hp | exact Hx'].
  - apply find_some in F. destruct F as [Hx Px].
    rewrite (find_none _ _ F' x) in Px; [discriminate Px|].
    eapply Permutation_in; [exact Hp | exact Hx].
  - apply find_some in F'. destruct F' as [Hx' Px'].
    rewrite (find_none _ _ F x') in Px'; [discriminate Px'|].
    eapply Permutation_in; [apply Permutation_sym; exact Hp | exact Hx'].
Qed.

Lemma str_paths_perm (l l' : list pydict) :
  Permutation l l' -> str_paths l = true -> str_paths l' = true.
Proof.
  unfold str_paths. intros Hp H. rewrite forallb_forall in *.
  intros x Hx. apply H. eapply Permutation_in; [apply Permutation_sym; exact Hp | exact Hx].
Qed.

Lemma path_strings_perm (l l' : list pydict) (p : string) :
  Permutation l l' -> (In p (path_strings l') <-> In p (path_strings l)).
Proof.
  intro Hp. rewrite !path_strings_In. split; intros [f [Hf E]]; exists f; split;
    try exact E.
  - eapply Permutation_in; [apply Permutation_sym; exact Hp | exact Hf].
  - eapply Permutation_in; [exact Hp | exact Hf].
Qed.

Lemma last_with_path_perm (l l' : list pydict) (p : string) :
  NoDup (path_strings l) -> Permutation l l' ->
  last_with_path (PStr p) l' = last_with_path (PStr p) l.
Proof.
  intros Hn Hp. unfold last_with_path. symmetry. apply find_unique_perm.
  - intros x y Hx Hy Px Py. apply in_rev in Hx, Hy.
    apply has_path_str in Px, Py.
    exact (path_strings_unique l x y p Hn Hx Hy Px Py).
  - eapply perm_trans; [apply Permutation_sym, Permutation_rev|].
    eapply perm_trans; [exact Hp | apply Permutation_rev].
Qed.

(** X13.  The file diff does not depend on the order of the records: two
    lists of records with string paths, no path twice in a list, give the
    same diff in whatever order each list comes. *)
Theorem file_diff_ignores_the_order_of_records
  (lib_files lib_files' swift_files swift_files' : list pydict) (ts_tol : Z) :
  str_paths lib_files = true -> str_paths swift_files = true ->
  NoDup (path_strings lib_files) -> NoDup (path_strings swift_files) ->
  Permutation lib_files lib_files' -> Permutation swift_files swift_files' ->
  _diff_files lib_files' swift_files' ts_tol = _diff_files lib_files swift_files ts_tol.
Proof.
  intros Sl Ss Nl Ns Pl Ps. apply _diff_files_ext; try assumption.
  - exact (str_paths_perm _ _ Pl Sl).
  - exact (str_paths_perm _ _ Ps Ss).
  - intro p. apply path_strings_perm. exact Pl.
  - intro p. apply path_strings_perm. exact Ps.
  - intro p. apply last_with_path_perm; assumption.
  - intro p. apply last_with_path_perm; assumption.
Qed.

Lemma file_diff_ignores_the_order_of_records_witness :
  let a := [("path", PStr "a.txt"); ("size_bytes", PInt 1)] in
  let b := [("path", PStr "b.txt"); ("size_bytes", PInt 2)] in
  let b' := [("path", PStr "b.txt"); ("size_bytes", PInt 3)] in
  _diff_files [b; a] [b'; a] 120 = _diff_files [a; b] [a; b'] 120.
Proof.
  intros a b b'.
  apply file_diff_ignores_the_order_of_records; try reflexivity.
  - repeat constructor; cbn; intuition discriminate.
  - repeat constructor; cbn; intuition discriminate.
  - apply perm_swap.
  - apply perm_swap.
Defined.

Lemma diff_size_mirror (k : pyval) (a b : pydict) :
  py_eq (get_none b "size_bytes") (get_none a "size_bytes") =
  py_eq (get_none a "size_bytes") (get_none b "size_bytes") ->
  diff_size k b a = map mirror (diff_size k a b).
Proof.
  unfold diff_size. intros ->.
  destruct (py_eq (get_none a "size_bytes") (get_none b "size_bytes")); reflexivity.
Qed.

Lemma py_sub_swap (x y : pyval) :
  py_sub y x = match py_sub x y with Ok n => Ok (- n) | Raise e => Raise e end.
Proof.
  destruct x, y; cbn [py_sub]; try reflexivity; f_equal; lia.
Qed.

Lemma diff_mtime_mirror (k : pyval) (a b : pydict) (ts_tol : Z) :
  diff_mtime k b a ts_tol =
  (mt <- diff_mtime k a b ts_tol ;; Ok (map mirror mt)).
Proof.
  unfold diff_mtime. rewrite (andb_comm (negb (is_none (get_none b "mtime")))).
  destruct (negb (is_none (get_none a "mtime")) && negb (is_none (get_none b "mtime")));
    [|reflexivity].
  rewrite (py_sub_swap (get_none a "mtime") (get_none b "mtime")).
  destruct (py_sub (get_none a "mtime") (get_none b "mtime")) as [n|e];
    cbn [bind]; [|reflexivity].
  rewrite Z.abs_opp. destruct (Z.abs n >? ts_tol); reflexivity.
Qed.

Lemma map_res_mirror {A : Type} (f g : A -> res (list DiffEntry)) (l : list A) :
  (forall x, In x l -> g x = (part <- f x ;; Ok (map mirror part))) ->
  (parts <- map_res g l ;; Ok (List.concat parts)) =
  (parts <- map_res f l ;; Ok (map mirror (List.concat parts))).
Proof.
  induction l as [|x l IH]; intro H; cbn [map_res].
  - reflexivity.
  - rewrite (H x (or_introl eq_refl)).
    specialize (IH (fun y Hy => H y (or_intror Hy))).
    destruct (f x) as [part|e]; cbn [bind]; [|reflexivity].
    destruct (map_res g l) as [parts'|e']; destruct (map_res f l) as [parts|e];
      cbn [bind] in *; try discriminate; try congruence.
    inversion IH as [E]. cbn [List.concat]. rewrite map_app, E. reflexivity.
Qed.

Lemma last_with_path_In (k : pyval) (files : list pydict) (f : pydict) :
  last_with_path k files = Some f -> In f files.
Proof.
  unfold last_with_path. intro H. apply find_some in H. apply in_rev. tauto.
Qed.

(** X14.  Exchanging the two sides exchanges the two values of every entry
    and nothing else: the same keys in the same order (records with string
    paths and sizes that can be hashed). *)
Theorem exchanging_the_sides_mirrors_the_diff (lib_files swift_files : list pydict)
  (ts_tol : Z) :
  str_paths lib_files = true -> str_paths swift_files = true ->
  sizes_hashable lib_files = true -> sizes_hashable swift_files = true ->
  _diff_files swift_files lib_files ts_tol =
  (out <- _diff_files lib_files swift_files ts_tol ;; Ok (map mirror out)).
Proof.
  intros Sl Ss Zl Zs.
  destruct (path_map_str lib_files Sl) as [lm [? [Hlm _]]].
  destruct (path_map_str swift_files Ss) as [sm [? [Hsm _]]].
  rewrite (_diff_files_visits lib_files swift_files ts_tol lm sm Sl Ss Hlm Hsm).
  rewrite (_diff_files_visits swift_files lib_files ts_tol sm lm Ss Sl Hsm Hlm).
  assert (V : visited swift_files lib_files = visited lib_files swift_files).
  { unfold visited. apply sorted_str_canonical; try apply NoDup_nodup.
    intro p. rewrite !str_union_In. tauto. }
  rewrite V.
  rewrite (map_res_mirror (diff_path lm sm ts_tol) (diff_path sm lm ts_tol)).
  - destruct (map_res (diff_path lm sm ts_tol) _); reflexivity.
  - intros k Hk. apply in_map_iff in Hk. destruct Hk as [p [<- _]].
    unfold diff_path.
    destruct (amap_get (PStr p) lm) as [a|] eqn:Ea;
      destruct (amap_get (PStr p) sm) as [b|] eqn:Eb; try reflexivity.
    rewrite diff_mtime_mirror.
    destruct (diff_mtime (PStr p) a b ts_tol) as [mt|e]; cbn [bind]; [|reflexivity].
    rewrite map_app, diff_size_mirror; [reflexivity|].
    rewrite (path_map_lookup _ _ (PStr p) Hlm eq_refl) in Ea.
    rewrite (path_map_lookup _ _ (PStr p) Hsm eq_refl) in Eb.
    apply last_with_path_In in Ea, Eb.
    unfold sizes_hashable in Zl, Zs. rewrite forallb_forall in Zl, Zs.
    apply py_eq_sym_hashable; [apply Zs | apply Zl]; assumption.
Qed.

Lemma exchanging_the_sides_mirrors_the_diff_witness :
  let a := [("path", PStr "a.txt"); ("size_bytes", PInt 1); ("mtime", PInt 10)] in
  let b := [("path", PStr "a.txt"); ("size_bytes", PInt 2); ("mtime", PInt 900)] in
  _diff_files [b] [a] 120 =
  Ok [new_DiffEntry "file.a.txt.size_bytes" (PInt 2) (PInt 1);
      new_DiffEntry "file.a.txt.mtime" (PInt 900) (PInt 10)].
Proof.
  intros a b.
  exact (eq_trans
           (exchanging_the_sides_mirrors_the_diff [a] [b] 120
              eq_refl eq_refl eq_refl eq_refl)
           eq_refl).
Defined.

Lemma py_sub_self (x : pyval) :
  match x with PNone | PInt _ | PBool _ => true | _ => false end = true ->
  is_none x = false -> py_sub x x = Ok 0.
Proof.
  destruct x; cbn; try discriminate; intros _ _; f_equal; lia.
Qed.

Lemma last_with_path_Some (files : list pydict) (p : string) :
  In p (path_strings files) -> exists f, last_with_path (PStr p) files = Some f.
Proof.
  intro H. apply path_strings_In in H. destruct H as [f [Hf Pf]].
  unfold last_with_path.
  destruct (find (has_path (PStr p)) (rev files)) as [g|] eqn:F.
  - exists g. reflexivity.
  - exfalso. assert (E : has_path (PStr p) f = false).
    { apply (find_none _ _ F). apply in_rev in Hf. exact Hf. }
    unfold has_path in E. unfold str_path in Pf.
    destruct (dict_get "path" f) as [[]|]; try discriminate.
    inversion Pf; subst. cbn in E. rewrite String.eqb_refl in E. discriminate.
Qed.

Lemma map_res_all_nil {A B : Type} (f : A -> res (list B)) (l : list A) :
  (forall x, In x l -> f x = Ok []) ->
  (parts <- map_res f l ;; Ok (List.concat parts)) = Ok [].
Proof.
  induction l as [|x l IH]; intro H; cbn [map_res].
  - reflexivity.
  - rewrite (H x (or_introl eq_refl)). cbn [bind].
    specialize (IH (fun y Hy => H y (or_intror Hy))).
    destruct (map_res f l) as [parts|e]; cbn [bind] in *; [|discriminate].
    inversion IH as [E]. cbn [List.concat app]. rewrite E. reflexivity.
Qed.

Lemma plain_hashable (v : pyval) : plain v = true -> hashable v = true.
Proof. destruct v; cbn; congruence. Qed.

(** X15.  A list of records without floats compared with itself gives no
    difference, for any tolerance that is not negative: string paths, sizes
    that are [None], booleans, integers or strings, mtimes that are
    integers, booleans or absent. *)
Theorem a_list_does_not_differ_from_itself (files : list pydict) (ts_tol : Z) :
  str_paths files = true -> sizes_plain files = true ->
  mtimes_numeric files = true -> 0 <= ts_tol ->
  _diff_files files files ts_tol = Ok [].
Proof.
  intros Sp Sz Mt Ht.
  destruct (path_map_str files Sp) as [m [? [Hm _]]].
  rewrite (_diff_files_visits files files ts_tol m m Sp Sp Hm Hm).
  apply map_res_all_nil. intros k Hk.
  apply in_map_iff in Hk. destruct Hk as [p [<- Hp]].
  apply visited_In in Hp. assert (Hp' : In p (path_strings files)) by tauto.
  destruct (last_with_path_Some files p Hp') as [a Ha].
  unfold diff_path. rewrite (path_map_lookup _ _ (PStr p) Hm eq_refl), Ha.
  apply last_with_path_In in Ha.
  unfold sizes_plain in Sz. unfold mtimes_numeric in Mt.
  rewrite forallb_forall in Sz, Mt. specialize (Sz a Ha). specialize (Mt a Ha).
  unfold diff_size. rewrite (py_eq_refl_hashable _ (plain_hashable _ Sz)).
  cbn [negb app].
  unfold diff_mtime.
  destruct (is_none (get_none a "mtime")) eqn:N; cbn [negb andb bind].
  - reflexivity.
  - rewrite (py_sub_self _ Mt N). cbn [bind].
    replace (Z.abs 0 >? ts_tol) with false; [reflexivity|].
    symmetry. rewrite Z.gtb_ltb. apply Z.ltb_ge. cbn. exact Ht.
Qed.

Lemma a_list_does_not_differ_from_itself_witness :
  _diff_files
    [[("path", PStr "a.txt"); ("size_bytes", PInt 1); ("mtime", PInt 10)];
     [("path", PStr "b.txt"); ("size_bytes", PInt 2)]]
    [[("path", PStr "a.txt"); ("size_bytes", PInt 1); ("mtime", PInt 10)];
     [("path", PStr "b.txt"); ("size_bytes", PInt 2)]] 0 = Ok [].
Proof.
  apply a_list_does_not_differ_from_itself; reflexivity.
Defined.

Lemma strictly_ascending (l : list string) :
  StronglySorted (fun a b => (b <? a)%string = false) l -> NoDup l ->
  StronglySorted (fun a b => (a <? b)%string = true) l.
Proof.
  induction 1 as [|a l Hs IH Hall]; intro Hn; constructor.
  - apply IH. inversion Hn; assumption.
  - inversion Hn as [|? ? Na _]; subst.
    rewrite Forall_forall in *. intros b Hb.
    destruct (a <? b)%string eqn:E; [reflexivity|].
    exfalso. apply Na. rewrite (str_ltb_total a b E (Hall b Hb)). exact Hb.
Qed.

Lemma visited_ascending (lib_files swift_files : list pydict) :
  StronglySorted (fun a b => (a <? b)%string = true) (visited lib_files swift_files).
Proof.
  unfold visited. apply strictly_ascending.
  - apply sorted_str_sorted.
  - apply sorted_str_NoDup. apply NoDup_nodup.
Qed.

Lemma diff_path_about (lm sm : amap pydict) (ts_tol : Z) (p : string)
  (part : list DiffEntry) :
  diff_path lm sm ts_tol (PStr p) = Ok part -> Forall (about_path p) part.
Proof.
  unfold diff_path, about_path.
  destruct (amap_get (PStr p) lm) as [a|]; [destruct (amap_get (PStr p) sm) as [b|]|].
  - unfold diff_mtime, diff_size. intro H.
    destruct (negb (is_none (get_none a "mtime")) && negb (is_none (get_none b "mtime")));
      [destruct (py_sub (get_none a "mtime") (get_none b "mtime")) as [n|e];
       cbn [bind] in H; [destruct (Z.abs n >? ts_tol)|discriminate]|];
      cbn [bind] in H;
      destruct (negb (py_eq (get_none a "size_bytes") (get_none b "size_bytes")));
      injection H as <-; cbn [app];
      repeat (apply Forall_cons); try apply Forall_nil;
      cbn [key new_DiffEntry py_str]; auto.
  - intro H. injection H as <-. apply Forall_cons; [|apply Forall_nil].
    cbn [key new_DiffEntry py_str]. auto.
  - intro H. injection H as <-. apply Forall_cons; [|apply Forall_nil].
    cbn [key new_DiffEntry py_str]. auto.
Qed.

(** X16.  The file diff goes through the paths of the two lists in strictly
    ascending order, each path once, and the entries it reports at a path
    are about that path. *)
Theorem file_diff_follows_the_sorted_paths (lib_files swift_files : list pydict)
  (ts_tol : Z) (out : list DiffEntry) :
  str_paths lib_files = true -> str_paths swift_files = true ->
  _diff_files lib_files swift_files ts_tol = Ok out ->
  exists parts,
    out = List.concat parts /\
    Forall2 (fun p part => Forall (about_path p) part)
      (visited lib_files swift_files) parts /\
    StronglySorted (fun a b => (a <? b)%string = true)
      (visited lib_files swift_files) /\
    forall p, In p (visited lib_files swift_files) <->
              In p (path_strings lib_files) \/ In p (path_strings swift_files).
Proof.
  intros Sl Ss H.
  destruct (path_map_str lib_files Sl) as [lm [? [Hlm _]]].
  destruct (path_map_str swift_files Ss) as [sm [? [Hsm _]]].
  rewrite (_diff_files_visits lib_files swift_files ts_tol lm sm Sl Ss Hlm Hsm) in H.
  destruct (map_res (diff_path lm sm ts_tol) (map PStr (visited lib_files swift_files)))
    as [parts|e] eqn:E; cbn [bind] in H; [|discriminate].
  injection H as <-. exists parts. split; [reflexivity|]. split; [|split].
  - apply map_res_Forall2 in E.
    remember (visited lib_files swift_files) as ps eqn:Eps. clear Eps.
    revert parts E. induction ps as [|p ps IH]; intros parts E; inversion E; subst.
    + constructor.
    + constructor; [eapply diff_path_about; eassumption | apply IH; assumption].
  - apply visited_ascending.
  - intro p. apply visited_In.
Qed.

Lemma file_diff_follows_the_sorted_paths_witness :
  exists parts,
    [new_DiffEntry "file.a.txt" PNone
       (PDict [("path", PStr "a.txt"); ("size_bytes", PInt 1)]);
     new_DiffEntry "file.b.txt"
       (PDict [("path", PStr "b.txt"); ("size_bytes", PInt 2)]) PNone]
    = List.concat parts /\
    Forall2 (fun p part => Forall (about_path p) part) ["a.txt"; "b.txt"] parts.
Proof.
  destruct (file_diff_follows_the_sorted_paths
              [[("path", PStr "b.txt"); ("size_bytes", PInt 2)]]
              [[("path", PStr "a.txt"); ("size_bytes", PInt 1)]] 120 _
              eq_refl eq_refl eq_refl) as [parts [H1 [H2 _]]].
  exists parts. split; [exact H1 | exact H2].
Defined.

(* ===================================================================== *)
(** ** The runners *)
(* ===================================================================== *)

Lemma _run_returncode (prog : string) (args : list string) (timeout : Z)
  (o : run_outcome) :
  (returncode (_run prog args timeout o) =? 127) = exit_127 o.
Proof. destruct o; reflexivity. Qed.

Lemma _run_stdout (prog : string) (args : list string) (timeout : Z)
  (o : run_outcome) :
  stdout (_run prog args timeout o) = out_text o.
Proof. destruct o; reflexivity. Qed.





(** X18.  When the libmtp tools end with return code 127 their output is
    not parsed: whatever the parsers are, the device is the zero device and
    the libmtp file list is empty. *)
Theorem missing_libmtp_tools_degrade
  (_parse_mtp_detect : string -> option string -> pyval)
  (_parse_mtp_folders _parse_mtp_files : string -> list pyval)
  (_parse_iso_or_ctime : string -> option Z)
  (vidpid : option string) (timeout : Z) (o_detect o_folders o_files : run_outcome)
  (swiftmtp_ls : pyval) :
  exit_127 o_detect = true -> exit_127 o_folders = true -> exit_127 o_files = true ->
  _norm_lib (fst (LibmtpRunner.detect _parse_mtp_detect vidpid timeout o_detect)) =
    Ok zero_device /\
  _normalise_files _parse_iso_or_ctime
    (fst (LibmtpRunner.files _parse_mtp_files timeout o_files))
    (fst (LibmtpRunner.folders _parse_mtp_folders timeout o_folders))
    swiftmtp_ls =
  (swift <- _swift_files _parse_iso_or_ctime swiftmtp_ls ;; Ok ([], swift)).
Proof.
  intros Hd Hf Hl.
  unfold LibmtpRunner.detect, LibmtpRunner.files, LibmtpRunner.folders.
  rewrite !_run_returncode, Hd, Hf, Hl. split; reflexivity.
Qed.

Lemma missing_libmtp_tools_degrade_witness :
  _norm_lib
    (fst (LibmtpRunner.detect (fun _ _ => PDict [("devices", PList [PInt 1])])
            None 120 NotFound)) = Ok zero_device.
Proof.
  exact (proj1 (missing_libmtp_tools_degrade
                  (fun _ _ => PDict [("devices", PList [PInt 1])])
                  (fun _ => [PInt 1]) (fun _ => [PInt 1]) (fun _ => None)
                  None 120 NotFound NotFound (Exited 127 "" "") (PList [])
                  eq_refl eq_refl eq_refl)).
Defined.



Lemma _norm_swift_dict (d : pyval) (c : pydict) :
  _norm_swift d = Ok c -> exists fields, d = PDict fields.
Proof.
  destruct d; try discriminate. intros _. eexists. reflexivity.
Qed.

Lemma _norm_lib_dict (d : pyval) (c : pydict) :
  _norm_lib d = Ok c -> exists fields, d = PDict fields.
Proof.
  destruct d; try discriminate. intros _. eexists. reflexivity.
Qed.

(** X20.  [main] reaches its exit code only with device records that are
    dicts.  A probe output that is JSON but no object (a list, a string, a
    number, [null]) is not turned into an error marker: it makes [main]
    raise. *)
Theorem main_needs_a_probe_object
  (_parse_mtp_detect : string -> option string -> pyval)
  (_parse_mtp_folders _parse_mtp_files : string -> list pyval)
  (json_loads : string -> string + pyval)
  (_parse_iso_or_ctime : string -> option Z)
  (int_of_str : string -> option Z)
  (args_vidpid : option string) (args_timeout args_ts_tolerance : Z)
  (expectations : pyval) (w : tool_runs) (code : Z) :
  main_run _parse_mtp_detect _parse_mtp_folders _parse_mtp_files json_loads
    _parse_iso_or_ctime int_of_str args_vidpid args_timeout args_ts_tolerance
    expectations w
  = Ok code ->
  (exists fields,
     fst (LibmtpRunner.detect _parse_mtp_detect args_vidpid args_timeout (run_detect w))
     = PDict fields) /\
  (exists fields,
     fst (SwiftMTPRunner.probe json_loads args_vidpid (args_timeout + 60) (run_probe w))
     = PDict fields) /\
  (forall v, exit_127 (run_probe w) = false ->
     json_loads (out_text (run_probe w)) = inr v -> exists fields, v = PDict fields).
Proof.
  intro H. unfold main_run in H.
  bind_inv H. bind_inv H. bind_inv H. bind_inv H. bind_inv H.
  match goal with P : main_pipeline _ _ _ _ _ _ _ _ _ = Ok _ |- _ =>
    unfold main_pipeline in P; bind_inv P; bind_inv P
  end.
  match goal with P : _normalise_device _ _ = Ok _ |- _ =>
    unfold _normalise_device in P; bind_inv P; bind_inv P
  end.
  match goal with P : _norm_lib _ = Ok _ |- _ =>
    pose proof (_norm_lib_dict _ _ P) as L
  end.
  match goal with P : _norm_swift _ = Ok _ |- _ =>
    pose proof (_norm_swift_dict _ _ P) as S
  end.
  split; [exact L|]. split; [exact S|].
  intros v N J. destruct S as [fields S]. exists fields.
  unfold SwiftMTPRunner.probe in S.
  rewrite _run_returncode, _run_stdout, N, J in S. exact S.
Qed.

Lemma main_needs_a_probe_object_witness :
  exists fields,
    fst (SwiftMTPRunner.probe (fun _ => inl "") (Some "18d1:4ee1") (120 + 60) NotFound)
    = PDict fields.
Proof.
  exact (proj1 (proj2 (main_needs_a_probe_object
                  (fun _ _ => PDict []) (fun _ => []) (fun _ => []) (fun _ => inl "")
                  (fun _ => None) (fun _ => None) (Some "18d1:4ee1") 120 120 (PDict [])
                  (mkToolRuns NotFound NotFound NotFound NotFound NotFound) 0
                  eq_refl))).
Defined.

(* ===================================================================== *)
(** ** The shape of the normalised file lists *)
(* ===================================================================== *)

Lemma lib_entry_canonical (folder_map : amap pyval) (f : pyval) (e : pydict) :
  lib_entry folder_map f = Ok e -> canonical_entry e.
Proof.
  destruct f as [| | | | |fd]; try discriminate.
  unfold lib_entry. intro H. bind_inv H. injection H as <-.
  destruct (dict_get "mtime" fd); [right | left]; reflexivity.
Qed.

Lemma swift_entry_canonical (_parse_iso_or_ctime : string -> option Z)
  (item : pydict) :
  canonical_entry (swift_entry _parse_iso_or_ctime item) /\
  int_mtime (swift_entry _parse_iso_or_ctime item).
Proof.
  unfold swift_entry, canonical_entry, int_mtime.
  destruct (get_or item "modificationDate" (get_or item "mtime" PNone))
    as [|b|n|s|l|d]; cbn.
  - split; [left; reflexivity | discriminate].
  - split; [right; reflexivity | intros v E; injection E as <-; eexists; reflexivity].
  - split; [right; reflexivity | intros v E; injection E as <-; eexists; reflexivity].
  - destruct (_parse_iso_or_ctime s); cbn.
    + split; [right; reflexivity | intros v E; injection E as <-; eexists; reflexivity].
    + split; [left; reflexivity | discriminate].
  - split; [left; reflexivity | discriminate].
  - split; [left; reflexivity | discriminate].
Qed.

(** X21.  Whatever the raw records hold, a normalised file entry has the
    keys path and size_bytes, then mtime or nothing: no id, type, storage
    or other field of a raw record reaches the file diff.  On the SwiftMTP
    side an mtime that is there is an integer. *)
Theorem file_entries_are_canonical (_parse_iso_or_ctime : string -> option Z)
  (libmtp_files libmtp_folders : list pyval) (swiftmtp_ls : pyval)
  (norm_lib_files norm_swift_files : list pydict) :
  _normalise_files _parse_iso_or_ctime libmtp_files libmtp_folders swiftmtp_ls =
    Ok (norm_lib_files, norm_swift_files) ->
  Forall canonical_entry norm_lib_files /\
  Forall (fun e => canonical_entry e /\ int_mtime e) norm_swift_files.
Proof.
  intro H. unfold _normalise_files in H.
  bind_inv H. bind_inv H. bind_inv H. injection H as <- <-.
  split; apply Forall_forall; intros e He.
  - match goal with P : _lib_files _ _ = Ok _ |- _ =>
      unfold _lib_files in P; bind_inv P;
      apply (proj1 (sorted_by_In _ _ _ e P)) in He
    end.
    match goal with P : map_res _ _ = Ok _ |- _ =>
      destruct (map_res_In _ _ _ e P He) as [f [_ Hf]]
    end.
    exact (lib_entry_canonical _ _ _ Hf).
  - match goal with P : _swift_files _ _ = Ok _ |- _ =>
      destruct (_swift_files_entries _ _ _ e P He) as [item [_ ->]]
    end.
    apply swift_entry_canonical.
Qed.

Lemma file_entries_are_canonical_witness :
  Forall canonical_entry
    [[("path", PStr "DCIM/a.jpg"); ("size_bytes", PInt 10); ("mtime", PInt 5)]].
Proof.
  exact (proj1 (file_entries_are_canonical (fun _ => None)
                  [PDict [("id", PInt 7); ("name", PStr "a.jpg");
                          ("size_bytes", PInt 10); ("parent_id", PInt 1);
                          ("mtime", PInt 5)]]
                  [PDict [("id", PInt 1); ("parent_id", PInt 0);
                          ("name", PStr "DCIM")]]
                  (PList []) _ _ eq_refl)).
Defined.

(* ===================================================================== *)
(** ** Paths of the SwiftMTP tree *)
(* ===================================================================== *)

Lemma join_cons2 (sep a b : string) (l : list string) :
  join sep (a :: b :: l) = a ++ sep ++ join sep (b :: l).
Proof. reflexivity. Qed.

Lemma join_snoc (sep x f : string) (l : list string) :
  join sep (x :: l) ++ sep ++ f = join sep (x :: l ++ [f]).
Proof.
  revert x. induction l as [|m l IH]; intro x.
  - reflexivity.
  - change ((x :: (m :: l) ++ [f])%list) with (x :: m :: (l ++ [f]))%list.
    rewrite !join_cons2, <- IH, !string_app_assoc. reflexivity.
Qed.

Lemma string_app_nonempty (a b : string) : a <> "" -> a ++ b <> "".
Proof. destruct a; [congruence | discriminate]. Qed.

Lemma descend_join (a : string) (names : list string) :
  a <> "" -> descend (PStr a) names = PStr (join "/" (a :: names)).
Proof.
  revert a. induction names as [|n names IH]; intros a Ha.
  - reflexivity.
  - unfold descend. cbn [fold_left]. fold (descend (join_path (PStr a) (PStr n)) names).
    assert (E : join_path (PStr a) (PStr n) = PStr (a ++ "/" ++ n)).
    { unfold join_path. cbn [truthy py_str].
      destruct (String.eqb_spec a ""); [contradiction | reflexivity]. }
    rewrite E, IH by (apply string_app_nonempty; exact Ha).
    f_equal. destruct names as [|m names].
    + reflexivity.
    + rewrite !join_cons2. rewrite !string_app_assoc. reflexivity.
Qed.

Lemma _flatten_tree_nested (names : list string) (item : pyval) (d : pydict) :
  is_folder d = false ->
  nested_in (PDict d) names item ->
  forall prefix,
    _flatten_tree (PList [item]) prefix =
    Ok [dict_set "path"
          (join_path (descend prefix names) (get_or d "name" (PStr ""))) d].
Proof.
  intros Hd Hn. induction Hn as [|f n names inner Hf Hname Hch _ IH]; intro prefix.
  - cbn [descend fold_left].
    rewrite _flatten_tree_cons, Hd. cbn zeta.
    rewrite _flatten_tree_nil. reflexivity.
  - rewrite _flatten_tree_cons, Hf, Hname, Hch. cbn zeta.
    rewrite IH, _flatten_tree_nil. cbn [bind app]. reflexivity.
Qed.

Lemma swift_entry_path (_parse_iso_or_ctime : string -> option Z) (item : pydict) :
  dict_get "path" (swift_entry _parse_iso_or_ctime item) =
  Some (get_or item "path" (get_or item "name" (PStr ""))).
Proof.
  unfold swift_entry.
  destruct (get_or item "modificationDate" (get_or item "mtime" PNone));
    try reflexivity.
  destruct (_parse_iso_or_ctime s); reflexivity.
Qed.

(** X22.  A file that lies in nested folders of the SwiftMTP tree is
    normalised under the names of the folders and its own name, joined by
    slashes.  A [path] field the item itself carries is overwritten. *)
Theorem nested_file_gets_the_joined_path (_parse_iso_or_ctime : string -> option Z)
  (top : string) (rest : list string) (item : pyval) (d : pydict) (f : string) :
  is_folder d = false ->
  get_or d "name" (PStr "") = PStr f ->
  nested_in (PDict d) (top :: rest) item ->
  top <> "" ->
  let path := PStr (join "/" (top :: rest ++ [f])) in
  _swift_files _parse_iso_or_ctime (PList [item]) =
    Ok [swift_entry _parse_iso_or_ctime (dict_set "path" path d)] /\
  dict_get "path" (swift_entry _parse_iso_or_ctime (dict_set "path" path d)) =
    Some path.
Proof.
  intros Hd Hf Hn Ht path.
  assert (P : dict_get "path" (swift_entry _parse_iso_or_ctime (dict_set "path" path d))
              = Some path).
  { rewrite swift_entry_path. unfold get_or at 1. rewrite dict_get_set_same.
    reflexivity. }
  split; [|exact P].
  unfold _swift_files. cbn [swift_items].
  rewrite (_flatten_tree_nested (top :: rest) item d Hd Hn (PStr "")), Hf.
  assert (E : join_path (descend (PStr "") (top :: rest)) (PStr f) = path).
  { unfold descend. cbn [fold_left]. fold (descend (join_path (PStr "") (PStr top)) rest).
    change (join_path (PStr "") (PStr top)) with (PStr top).
    rewrite (descend_join top rest Ht).
    assert (N : join "/" (top :: rest) <> "").
    { destruct rest; [exact Ht | rewrite join_cons2; apply string_app_nonempty, Ht]. }
    unfold join_path. cbn [truthy py_str].
    destruct (String.eqb_spec (join "/" (top :: rest)) ""); [contradiction|].
    cbn [negb]. unfold path. f_equal. apply join_snoc. }
  rewrite E. cbn [bind map]. unfold sorted_by. cbn [map_res].
  unfold entry_path. rewrite P. reflexivity.
Qed.

Lemma nested_file_gets_the_joined_path_witness :
  let leaf :=
    [("name", PStr "a.jpg"); ("path", PStr "/elsewhere/a.jpg");
     ("sizeBytes", PInt 10)] in
  let camera :=
    [("id", PInt 2); ("name", PStr "Camera"); ("type", PStr "folder");
     ("children", PList [PDict leaf])] in
  let dcim :=
    [("id", PInt 1); ("name", PStr "DCIM"); ("type", PStr "folder");
     ("children", PList [PDict camera])] in
  _swift_files (fun _ => None) (PList [PDict dcim]) =
  Ok [[("path", PStr "DCIM/Camera/a.jpg"); ("size_bytes", PInt 10)]].
Proof.
  intros leaf camera dcim.
  refine (proj1 (nested_file_gets_the_joined_path (fun _ => None)
                   "DCIM" ["Camera"] (PDict dcim) leaf "a.jpg" eq_refl eq_refl _ _)).
  - apply (nested_folder _ dcim "DCIM" ["Camera"] (PDict camera));
      [reflexivity | reflexivity | reflexivity |].
    apply (nested_folder _ camera "Camera" [] (PDict leaf));
      [reflexivity | reflexivity | reflexivity |].
    apply nested_here.
  - discriminate.
Defined.

(* ===================================================================== *)
(** ** The folder map when parents come first *)
(* ===================================================================== *)

Lemma insert_int_perm {A : Type} (kx : Z) (x : A) (l : list (Z * A)) :
  Permutation ((kx, x) :: l) (insert_int kx x l).
Proof.
  induction l as [|[ky y] rest IH]; cbn [insert_int].
  - apply Permutation_refl.
  - destruct (ky <? kx).
    + eapply perm_trans; [apply perm_swap|]. apply perm_skip. exact IH.
    + apply Permutation_refl.
Qed.

Lemma sort_int_perm {A : Type} (l : list (Z * A)) : Permutation l (sort_int l).
Proof.
  induction l as [|[kx x] rest IH]; cbn [sort_int].
  - apply Permutation_refl.
  - eapply perm_trans; [apply perm_skip; exact IH | apply insert_int_perm].
Qed.

Lemma strictly_sorted_ids {A : Type} (l : list (Z * A)) :
  StronglySorted (fun a b => fst a <= fst b) l -> NoDup (map fst l) ->
  StronglySorted (fun a b => fst a < fst b) l.
Proof.
  induction 1 as [|a l Hs IH Hall]; intro Hn; constructor.
  - apply IH. inversion Hn; assumption.
  - inversion Hn as [|? ? Na _]; subst.
    rewrite Forall_forall in *. intros b Hb.
    specialize (Hall b Hb).
    assert (fst a <> fst b).
    { intro E. apply Na. rewrite E. apply in_map. exact Hb. }
    lia.
Qed.

Lemma add_folder_named (folder : pyval) (i p : Z) (m : amap pyval) :
  folder_ids folder = Some (i, p) ->
  add_folder m folder =
  Ok (amap_set (PInt i) (join_path (path_of m p) (folder_name folder)) m).
Proof.
  intro H. destruct (folder_ids_py_get folder i p H) as [d [-> [Hi Hp]]].
  unfold folder_name, folder_id. rewrite H.
  unfold add_folder, py_get.
  fold (get_or d "id" (PInt 0)). rewrite Hi. cbn [bind].
  fold (get_or d "parent_id" (PInt 0)). rewrite Hp. cbn [bind].
  unfold map_get, map_set. cbn [check_hashable hashable bind]. reflexivity.
Qed.

Lemma path_of_set (a b : Z) (v : pyval) (m : amap pyval) :
  int_keyed m -> a <> b -> path_of (amap_set (PInt b) v m) a = path_of m a.
Proof.
  intros Hm Hne. unfold path_of. rewrite amap_get_set_int by exact Hm.
  destruct (Z.eqb_spec a b); [contradiction | reflexivity].
Qed.

Lemma for_each_add_folder_resolved (records : list (Z * pyval)) :
  StronglySorted (fun a b => fst a < fst b) records ->
  Forall (fun e => folder_ids (snd e) = Some (fst e, folder_parent (snd e)) /\
                   folder_parent (snd e) < fst e) records ->
  forall m, int_keyed m ->
    exists r,
      for_each add_folder (map snd records) m = Ok r /\
      int_keyed r /\
      (forall n, (forall e, In e records -> fst e <> n) ->
                 amap_get (PInt n) r = amap_get (PInt n) m) /\
      (forall e, In e records ->
         amap_get (PInt (fst e)) r =
         Some (join_path (path_of r (folder_parent (snd e))) (folder_name (snd e)))).
Proof.
  induction 1 as [|[i f] rest Hs IH Hall]; intros Hrec m Hm.
  - exists m. cbn [map for_each]. repeat split; try assumption.
    intros e [].
  - inversion Hrec as [|? ? [Hids Hlt] Hrest]; subst. cbn [fst snd] in Hids, Hlt.
    cbn [map for_each snd]. rewrite (add_folder_named f i _ m Hids). cbn [bind].
    set (m1 := amap_set (PInt i) (join_path (path_of m (folder_parent f)) (folder_name f)) m).
    assert (Hm1 : int_keyed m1) by (apply amap_set_int_keyed; exact Hm).
    destruct (IH Hrest m1 Hm1) as [r [Hr [Kr [Hkeep Hres]]]].
    exists r. split; [exact Hr|]. split; [exact Kr|].
    rewrite Forall_forall in Hall. cbn [fst] in Hall.
    split.
    + intros n Hn. rewrite Hkeep.
      * unfold m1. rewrite amap_get_set_int by exact Hm.
        destruct (Z.eqb_spec n i) as [->|]; [|reflexivity].
        exfalso. exact (Hn (i, f) (or_introl eq_refl) eq_refl).
      * intros e He. apply Hn. right. exact He.
    + intros e [<-|He]; [|exact (Hres e He)].
      cbn [fst snd].
      assert (Ki : amap_get (PInt i) r = amap_get (PInt i) m1).
      { apply Hkeep. intros e He. specialize (Hall e He). lia. }
      assert (Kp : path_of r (folder_parent f) = path_of m (folder_parent f)).
      { unfold path_of at 1. rewrite Hkeep.
        - fold (path_of m1 (folder_parent f)). unfold m1.
          apply path_of_set; [exact Hm | lia].
        - intros e He. specialize (Hall e He). lia. }
      rewrite Ki, Kp. unfold m1. rewrite amap_get_set_int by exact Hm.
      rewrite Z.eqb_refl. reflexivity.
Qed.

Lemma parent_first_ids (f : pyval) :
  parent_first f = true ->
  folder_ids f = Some (folder_id f, folder_parent f) /\ folder_parent f < folder_id f.
Proof.
  unfold parent_first, folder_id, folder_parent.
  destruct (folder_ids f) as [[i p]|]; [|discriminate].
  intro H. apply Z.ltb_lt in H. split; [reflexivity | exact H].
Qed.

(** X23.  When every folder record has a larger id than its parent and no
    id comes twice, the one pass over the records resolves every folder: the
    map is built without an exception, and the path of each folder is the
    path of its parent joined with its name (its bare name under the root,
    its id as text when it has no name). *)
Theorem folders_after_their_parents_are_resolved (libmtp_folders : list pyval) :
  forallb parent_first libmtp_folders = true ->
  NoDup (map folder_id libmtp_folders) ->
  exists folder_map,
    build_folder_map libmtp_folders = Ok folder_map /\
    forall f, In f libmtp_folders ->
      amap_get (PInt (folder_id f)) folder_map =
      Some (join_path (path_of folder_map (folder_parent f)) (folder_name f)).
Proof.
  intros Hpf Hnd. rewrite forallb_forall in Hpf.
  unfold build_folder_map.
  rewrite sorted_by_id.
  2:{ apply Forall_forall. intros f Hf.
      destruct (parent_first_ids f (Hpf f Hf)) as [E _]. rewrite E. discriminate. }
  cbn [bind].
  set (records := sort_int (map keyed_by_id libmtp_folders)).
  assert (Hin : forall e, In e records -> In (snd e) libmtp_folders /\
                                          fst e = folder_id (snd e)).
  { intros e He. unfold records in He. apply (proj1 (sort_int_In _ _)) in He.
    apply in_map_iff in He.
    destruct He as [f [<- Hf]]. split; [exact Hf | reflexivity]. }
  assert (Hs : StronglySorted (fun a b => fst a < fst b) records).
  { apply strictly_sorted_ids; [apply sort_int_sorted|].
    eapply Permutation_NoDup;
      [apply Permutation_map, sort_int_perm|].
    rewrite map_map. exact Hnd. }
  assert (Hrec : Forall (fun e => folder_ids (snd e) =
                                    Some (fst e, folder_parent (snd e)) /\
                                  folder_parent (snd e) < fst e) records).
  { apply Forall_forall. intros e He. destruct (Hin e He) as [Hf ->].
    apply parent_first_ids, Hpf, Hf. }
  destruct (for_each_add_folder_resolved records Hs Hrec [(PInt 0, PStr "")])
    as [r [Hr [_ [_ Hres]]]].
  { constructor; [exists 0; reflexivity | constructor]. }
  exists r. split; [exact Hr|].
  intros f Hf.
  assert (He : In (keyed_by_id f) records).
  { unfold records. apply (proj2 (sort_int_In _ _)). apply in_map, Hf. }
  exact (Hres _ He).
Qed.

Lemma folders_after_their_parents_are_resolved_witness :
  exists folder_map,
    build_folder_map
      [PDict [("id", PInt 5); ("parent_id", PInt 2); ("name", PStr "Camera")];
       PDict [("id", PInt 2); ("parent_id", PInt 0); ("name", PStr "DCIM")]]
    = Ok folder_map /\
    amap_get (PInt 5) folder_map = Some (PStr "DCIM/Camera").
Proof.
  destruct (folders_after_their_parents_are_resolved
              [PDict [("id", PInt 5); ("parent_id", PInt 2); ("name", PStr "Camera")];
               PDict [("id", PInt 2); ("parent_id", PInt 0); ("name", PStr "DCIM")]]
              eq_refl) as [m [Hm _]].
  - repeat constructor; cbn; intuition discriminate.
  - exists m. split; [exact Hm|].
    injection Hm as <-. reflexivity.
Defined.

(* ===================================================================== *)
(** ** Normalisation and the order of the raw records *)
(* ===================================================================== *)

Lemma map_res_perm {A B : Type} (f : A -> res B) (l l' : list A) :
  Permutation l l' ->
  forall out, map_res f l = Ok out ->
    exists out', map_res f l' = Ok out' /\ Permutation out out'.
Proof.
  induction 1 as [|x l l' _ IH|x y l|l l' l'' _ IH1 _ IH2]; intros out H.
  - exists out. split; [exact H | apply Permutation_refl].
  - cbn [map_res] in *. bind_inv H. bind_inv H. injection H as <-.
    match goal with P : map_res f l = Ok ?o |- _ =>
      destruct (IH o P) as [o' [E Po]]
    end.
    match goal with P : f x = Ok _ |- _ => rewrite P end.
    rewrite E. cbn [bind]. eexists. split; [reflexivity|].
    apply perm_skip. exact Po.
  - cbn [map_res] in *. bind_inv H. bind_inv H. injection H as <-.
    match goal with P : bind _ _ = Ok _ |- _ =>
      bind_inv P; bind_inv P; injection P as <-
    end.
    repeat match goal with P : _ = Ok _ |- _ => rewrite P; clear P end.
    cbn [bind]. eexists. split; [reflexivity | apply perm_swap].
  - destruct (IH1 out H) as [o1 [E1 P1]]. destruct (IH2 o1 E1) as [o2 [E2 P2]].
    exists o2. split; [exact E2 | eapply perm_trans; eassumption].
Qed.

Lemma find_by_key_unique {A : Type} (strkey : A -> string) (l : list A) (x : A) :
  NoDup (map strkey l) -> In x l ->
  find (fun y => (strkey y =? strkey x)%string) l = Some x.
Proof.
  induction l as [|y l IH]; intros Hn Hx; [destruct Hx|].
  cbn [find]. cbn [map] in Hn. inversion Hn as [|? ? Ny Hn']; subst.
  destruct Hx as [->|Hx].
  - rewrite String.eqb_refl. reflexivity.
  - destruct (String.eqb_spec (strkey y) (strkey x)) as [E|_].
    + exfalso. apply Ny. rewrite E. apply in_map. exact Hx.
    + apply IH; assumption.
Qed.

(** [sorted] by string keys that are all different: the result is the list
    of the items in the order of their keys, whatever the order they came
    in. *)
Lemma sorted_by_str_canonical {A : Type} (key : A -> res pyval)
  (strkey : A -> string) (l l' : list A) :
  (forall x, In x l -> key x = Ok (PStr (strkey x))) ->
  NoDup (map strkey l) -> Permutation l l' ->
  sorted_by key l' = sorted_by key l.
Proof.
  intros Hkey Hn Hp.
  destruct l as [|d l0].
  { apply Permutation_nil in Hp. subst l'. reflexivity. }
  set (l := d :: l0) in *.
  set (f := fun s => match find (fun y => (strkey y =? s)%string) l with
                     | Some x => x
                     | None => d
                     end).
  assert (Hf : forall x, In x l -> f (strkey x) = x).
  { intros x Hx. unfold f. rewrite (find_by_key_unique strkey l x Hn Hx). reflexivity. }
  assert (G : forall m, (forall x, In x m -> In x l) ->
                sorted_by key m = Ok (map f (sorted_str (map strkey m)))).
  { intros m Hm. unfold sorted_by.
    assert (E : map_res (fun x => k <- key x ;; Ok (k, x)) m =
                Ok (map (fun s => (PStr s, f s)) (map strkey m))).
    { rewrite map_map. apply map_res_pure. intros x Hx.
      rewrite (Hkey x (Hm x Hx)). cbn [bind]. rewrite (Hf x (Hm x Hx)). reflexivity. }
    rewrite E. cbn [bind]. rewrite sort_keyed_str. cbn [bind].
    rewrite map_map. reflexivity. }
  rewrite (G l (fun x Hx => Hx)).
  rewrite (G l').
  2:{ intros x Hx. eapply Permutation_in; [apply Permutation_sym; exact Hp | exact Hx]. }
  f_equal. f_equal. apply sorted_str_canonical.
  - eapply Permutation_NoDup; [apply Permutation_map; exact Hp | exact Hn].
  - exact Hn.
  - intro s. split; apply Permutation_in; [apply Permutation_sym|];
      apply Permutation_map; exact Hp.
Qed.

Lemma strictly_sorted_unique {A : Type} (l l' : list (Z * A)) :
  StronglySorted (fun a b => fst a < fst b) l ->
  StronglySorted (fun a b => fst a < fst b) l' ->
  (forall e, In e l <-> In e l') -> l = l'.
Proof.
  intro Hs. revert l'. induction Hs as [|a l Hs IH Hall]; intros l' Hs' Hin.
  - destruct l' as [|b l']; [reflexivity|].
    exfalso. exact (proj2 (Hin b) (or_introl eq_refl)).
  - destruct Hs' as [|b l' Hs' Hall'].
    { exfalso. exact (proj1 (Hin a) (or_introl eq_refl)). }
    rewrite Forall_forall in Hall, Hall'.
    assert (E : a = b).
    { destruct (proj1 (Hin a) (or_introl eq_refl)) as [E|Ha]; [congruence|].
      destruct (proj2 (Hin b) (or_introl eq_refl)) as [E|Hb]; [congruence|].
      specialize (Hall b Hb). specialize (Hall' a Ha). lia. }
    subst b. f_equal. apply IH; [exact Hs'|].
    intro e. split; intro He.
    + destruct (proj1 (Hin e) (or_intror He)) as [<-|H]; [|exact H].
      specialize (Hall a He). lia.
    + destruct (proj2 (Hin e) (or_intror He)) as [<-|H]; [|exact H].
      specialize (Hall' a He). lia.
Qed.

Lemma sort_int_canonical {A : Type} (l l' : list (Z * A)) :
  NoDup (map fst l) -> Permutation l l' -> sort_int l' = sort_int l.
Proof.
  intros Hn Hp. apply strictly_sorted_unique.
  - apply strictly_sorted_ids; [apply sort_int_sorted|].
    eapply Permutation_NoDup; [apply Permutation_map, sort_int_perm|].
    eapply Permutation_NoDup; [apply Permutation_map; exact Hp | exact Hn].
  - apply strictly_sorted_ids; [apply sort_int_sorted|].
    eapply Permutation_NoDup; [apply Permutation_map, sort_int_perm | exact Hn].
  - intro e. rewrite !sort_int_In. split; apply Permutation_in;
      [apply Permutation_sym|]; exact Hp.
Qed.

Lemma build_folder_map_perm (folders folders' : list pyval) :
  Forall (fun f => folder_ids f <> None) folders ->
  NoDup (map folder_id folders) -> Permutation folders folders' ->
  build_folder_map folders' = build_folder_map folders.
Proof.
  intros Hids Hn Hp. unfold build_folder_map.
  rewrite (sorted_by_id folders Hids).
  rewrite (sorted_by_id folders').
  2:{ rewrite Forall_forall in *. intros f Hf. apply Hids.
      eapply Permutation_in; [apply Permutation_sym; exact Hp | exact Hf]. }
  rewrite (sort_int_canonical (map keyed_by_id folders) (map keyed_by_id folders')).
  - reflexivity.
  - rewrite map_map. exact Hn.
  - apply Permutation_map. exact Hp.
Qed.

Lemma path_strings_text (files : list pydict) :
  str_paths files = true -> path_strings files = map path_text files.
Proof.
  unfold str_paths, path_strings, path_text.
  induction files as [|f files IH]; cbn [forallb flat_map map]; intro H.
  - reflexivity.
  - apply andb_prop in H. destruct H as [Hf H].
    destruct (str_path f); [|discriminate]. rewrite (IH H). reflexivity.
Qed.

Lemma entry_path_text (files : list pydict) (x : pydict) :
  str_paths files = true -> In x files -> entry_path x = Ok (PStr (path_text x)).
Proof.
  unfold str_paths. intros H Hx. rewrite forallb_forall in H. specialize (H x Hx).
  unfold path_text. destruct (str_path x) as [p|] eqn:E; [|discriminate].
  apply str_path_Some in E. unfold entry_path. rewrite E. reflexivity.
Qed.

(** Sorting by path a list whose sorted form has string paths, no path
    twice: any other order of the list sorts to the same. *)
Lemma sorted_by_path_perm (out out' s : list pydict) :
  sorted_by entry_path out = Ok s ->
  str_paths s = true -> NoDup (path_strings s) ->
  Permutation out out' ->
  sorted_by entry_path out' = Ok s.
Proof.
  intros Hs Sp Hn Hp. pose proof (sorted_by_perm _ _ _ Hs) as Ps.
  rewrite <- Hs. apply (sorted_by_str_canonical entry_path path_text).
  - intros x Hx. apply (entry_path_text s); [exact Sp|].
    eapply Permutation_in; [exact Ps | exact Hx].
  - rewrite (path_strings_text s Sp) in Hn.
    eapply Permutation_NoDup; [apply Permutation_map, Permutation_sym; exact Ps|].
    exact Hn.
  - exact Hp.
Qed.

Lemma _flatten_tree_perm (l l' : list pyval) :
  Permutation l l' ->
  forall prefix out, _flatten_tree (PList l) prefix = Ok out ->
    exists out', _flatten_tree (PList l') prefix = Ok out' /\ Permutation out out'.
Proof.
  induction 1 as [|x l l' _ IH|x y l|l l' l'' _ IH1 _ IH2]; intros prefix out H.
  - exists out. split; [exact H | apply Permutation_refl].
  - destruct x as [| | | | |d]; try discriminate H.
    rewrite _flatten_tree_cons in *. cbv zeta in *.
    destruct (is_folder d).
    + bind_inv H. bind_inv H. injection H as <-.
      match goal with P : _flatten_tree (PList l) prefix = Ok ?o |- _ =>
        destruct (IH prefix o P) as [o' [E Po]]
      end.
      match goal with P : _flatten_tree (get_or _ _ _) _ = Ok _ |- _ => rewrite P end.
      rewrite E. cbn [bind]. eexists. split; [reflexivity|].
      apply Permutation_app_head. exact Po.
    + bind_inv H. injection H as <-.
      match goal with P : _flatten_tree (PList l) prefix = Ok ?o |- _ =>
        destruct (IH prefix o P) as [o' [E Po]]
      end.
      rewrite E. cbn [bind]. eexists. split; [reflexivity|].
      apply perm_skip. exact Po.
  - destruct y as [| | | | |dy]; try discriminate H.
    rewrite _flatten_tree_cons in H. cbv zeta in H.
    destruct x as [| | | | |dx];
      try (exfalso; destruct (is_folder dy); bind_inv H; try bind_inv H;
           match goal with P : _flatten_tree (PList (_ :: _)) _ = Ok _ |- _ =>
             discriminate P
           end).
    rewrite (_flatten_tree_cons dx (PDict dy :: l)).
    rewrite (_flatten_tree_cons dy l). cbv zeta.
    rewrite (_flatten_tree_cons dx l) in H. cbv zeta in H.
    destruct (is_folder dy); destruct (is_folder dx);
      repeat match goal with
             | P : bind _ _ = Ok _ |- _ => bind_inv P
             | P : Ok _ = Ok ?v |- _ => is_var v; injection P as <-
             end;
      repeat match goal with P : _ = Ok _ |- _ => rewrite P; clear P end;
      cbn [bind]; eexists; (split; [reflexivity|]).
    + rewrite !app_assoc. apply Permutation_app_tail, Permutation_app_comm.
    + apply Permutation_sym, Permutation_middle.
    + apply Permutation_middle.
    + apply perm_swap.
  - destruct (IH1 prefix out H) as [o1 [E1 P1]].
    destruct (IH2 prefix o1 E1) as [o2 [E2 P2]].
    exists o2. split; [exact E2 | eapply perm_trans; eassumption].
Qed.

(** X24.  The normalised file lists do not depend on the order in which
    the tools list their records: the folder records (integer ids, no id
    twice), the file records and the top items of the SwiftMTP tree can
    come in any order, when the normalised paths are strings and no path
    comes twice on a side. *)
Theorem normalised_files_ignore_the_order_of_records
  (_parse_iso_or_ctime : string -> option Z)
  (libmtp_files libmtp_files' libmtp_folders libmtp_folders' items items' : list pyval)
  (norm_lib_files norm_swift_files : list pydict) :
  _normalise_files _parse_iso_or_ctime libmtp_files libmtp_folders (PList items) =
    Ok (norm_lib_files, norm_swift_files) ->
  str_paths norm_lib_files = true -> NoDup (path_strings norm_lib_files) ->
  str_paths norm_swift_files = true -> NoDup (path_strings norm_swift_files) ->
  Forall (fun f => folder_ids f <> None) libmtp_folders ->
  NoDup (map folder_id libmtp_folders) ->
  Permutation libmtp_files libmtp_files' ->
  Permutation libmtp_folders libmtp_folders' ->
  Permutation items items' ->
  _normalise_files _parse_iso_or_ctime libmtp_files' libmtp_folders' (PList items') =
    Ok (norm_lib_files, norm_swift_files).
Proof.
  intros H Sl Nl Ss Ns Hids Hn Pf Pd Pi.
  unfold _normalise_files in *.
  rewrite (build_folder_map_perm _ _ Hids Hn Pd).
  bind_inv H. bind_inv H. bind_inv H. injection H as <- <-.
  match goal with P : build_folder_map _ = Ok _ |- _ => rewrite P end.
  cbn [bind].
  match goal with P : _lib_files _ _ = Ok _ |- _ =>
    unfold _lib_files in P |- *; bind_inv P;
    match goal with Q : map_res _ libmtp_files = Ok ?o |- _ =>
      destruct (map_res_perm _ _ _ Pf o Q) as [o' [E Po]]
    end;
    rewrite E; cbn [bind];
    rewrite (sorted_by_path_perm _ _ _ P Sl Nl Po)
  end.
  cbn [bind].
  match goal with P : _swift_files _ _ = Ok _ |- _ =>
    unfold _swift_files in P |- *; cbn [swift_items] in P |- *; bind_inv P;
    match goal with Q : _flatten_tree (PList items) _ = Ok ?o |- _ =>
      destruct (_flatten_tree_perm _ _ Pi _ o Q) as [flat' [Ef Pflat]]
    end;
    rewrite Ef; cbn [bind];
    rewrite (sorted_by_path_perm _ _ _ P Ss Ns
               (Permutation_map (swift_entry _parse_iso_or_ctime) Pflat))
  end.
  reflexivity.
Qed.

Lemma normalised_files_ignore_the_order_of_records_witness :
  let file (i p : Z) (name : string) :=
    PDict [("id", PInt i); ("parent_id", PInt p); ("name", PStr name);
           ("size_bytes", PInt 10)] in
  let folder (i p : Z) (name : string) :=
    PDict [("id", PInt i); ("parent_id", PInt p); ("name", PStr name)] in
  let item (name : string) := PDict [("name", PStr name); ("sizeBytes", PInt 10)] in
  _normalise_files (fun _ => None)
    [file 8 1 "b.jpg"; file 7 2 "a.jpg"]
    [folder 2 1 "Camera"; folder 1 0 "DCIM"]
    (PList [item "y.txt"; item "x.txt"]) =
  Ok ([[("path", PStr "DCIM/Camera/a.jpg"); ("size_bytes", PInt 10)];
       [("path", PStr "DCIM/b.jpg"); ("size_bytes", PInt 10)]],
      [[("path", PStr "x.txt"); ("size_bytes", PInt 10)];
       [("path", PStr "y.txt"); ("size_bytes", PInt 10)]]).
Proof.
  intros file folder item.
  apply (normalised_files_ignore_the_order_of_records (fun _ => None)
           [file 7 2 "a.jpg"; file 8 1 "b.jpg"] _
           [folder 1 0 "DCIM"; folder 2 1 "Camera"] _
           [item "x.txt"; item "y.txt"] _).
  - reflexivity.
  - reflexivity.
  - repeat constructor; cbn; intuition discriminate.
  - reflexivity.
  - repeat constructor; cbn; intuition discriminate.
  - repeat constructor; discriminate.
  - repeat constructor; cbn; intuition discriminate.
  - apply perm_swap.
  - apply perm_swap.
  - apply perm_swap.
Defined.

(* ===================================================================== *)
(** ** The device normalisers on one record *)
(* ===================================================================== *)

Lemma sorted_by_perm_str {A : Type} (key : A -> res pyval) (strkey : A -> string)
  (out out' s : list A) :
  sorted_by key out = Ok s ->
  (forall x, In x s -> key x = Ok (PStr (strkey x))) ->
  NoDup (map strkey s) ->
  Permutation out out' ->
  sorted_by key out' = Ok s.
Proof.
  intros Hs Hkey Hn Hp. pose proof (sorted_by_perm _ _ _ Hs) as Ps.
  rewrite <- Hs. apply (sorted_by_str_canonical key strkey).
  - intros x Hx. apply Hkey. eapply Permutation_in; [exact Ps | exact Hx].
  - eapply Permutation_NoDup; [apply Permutation_map, Permutation_sym; exact Ps|].
    exact Hn.
  - exact Hp.
Qed.

Lemma storage_key_text (storages : list pydict) (s : pydict) :
  str_descriptions storages = true -> In s storages ->
  storage_key s = Ok (PStr (description_text s)).
Proof.
  unfold str_descriptions. intros H Hs. rewrite forallb_forall in H.
  specialize (H s Hs). unfold storage_key, description_text.
  destruct (get_or s "description" (PStr "")); try discriminate. reflexivity.
Qed.

Lemma map_PDict_inj (l l' : list pydict) : map PDict l = map PDict l' -> l = l'.
Proof.
  revert l'. induction l as [|x l IH]; intros [|y l'] H; try discriminate.
  - reflexivity.
  - cbn [map] in H. injection H as -> H. f_equal. exact (IH _ H).
Qed.

Lemma _norm_lib_one_device (dev : pydict) :
  _norm_lib (one_device dev) =
  (each <- py_iter (get_or dev "storages" (PList [])) ;;
   unsorted <- map_res lib_storage each ;;
   storages <- sorted_by storage_key unsorted ;;
   Ok [("manufacturer", get_or dev "manufacturer" (PStr ""));
       ("model", get_or dev "model" (PStr ""));
       ("firmware", get_or dev "firmware" (PStr ""));
       ("friendly_name", get_or dev "friendly_name" (PStr ""));
       ("storages", PList (map PDict storages))]).
Proof. reflexivity. Qed.

Lemma _norm_swift_flat (dev : pydict) :
  dict_get "device" dev = None ->
  _norm_swift (PDict dev) =
  (each <- py_iter (get_or dev "storages" (PList [])) ;;
   unsorted <- map_res swift_storage each ;;
   storages <- sorted_by storage_key unsorted ;;
   Ok [("manufacturer", get_or dev "manufacturer" (PStr ""));
       ("model", get_or dev "model" (get_or dev "friendlyName" (PStr "")));
       ("firmware", get_or dev "firmwareVersion" (get_or dev "firmware" (PStr "")));
       ("friendly_name",
        get_or dev "friendlyName" (get_or dev "friendly_name" (PStr "")));
       ("storages", PList (map PDict storages))]).
Proof.
  intro H. unfold _norm_swift. cbn [py_get]. rewrite H. cbn [bind py_get].
  reflexivity.
Qed.

Lemma get_or_set_other (k k' : string) (v default : pyval) (d : pydict) :
  k <> k' -> get_or (dict_set k' v d) k default = get_or d k default.
Proof. intro H. unfold get_or. rewrite dict_get_set_other by exact H. reflexivity. Qed.

Lemma get_or_set_same (k : string) (v default : pyval) (d : pydict) :
  get_or (dict_set k v d) k default = v.
Proof. unfold get_or. rewrite dict_get_set_same. reflexivity. Qed.

Lemma sorted_storages_perm (f : pyval -> res pydict) (ss ss' : list pyval)
  (c : pydict) (fields : list pydict -> pydict) :
  (forall storages, dict_get "storages" (fields storages) =
                    Some (PList (map PDict storages))) ->
  (unsorted <- map_res f ss ;;
   storages <- sorted_by storage_key unsorted ;; Ok (fields storages)) = Ok c ->
  distinct_descriptions c ->
  Permutation ss ss' ->
  (unsorted <- map_res f ss' ;;
   storages <- sorted_by storage_key unsorted ;; Ok (fields storages)) = Ok c.
Proof.
  intros Hfields H [storages0 [Hget [Hstr Hn]]] Hp.
  bind_inv H. bind_inv H. injection H as <-.
  rewrite Hfields in Hget. injection Hget as Hget. apply map_PDict_inj in Hget.
  subst storages0.
  match goal with Q : map_res f ss = Ok ?o |- _ =>
    destruct (map_res_perm _ _ _ Hp o Q) as [o' [E Po]]
  end.
  rewrite E. cbn [bind].
  match goal with Q : sorted_by storage_key _ = Ok _ |- _ =>
    rewrite (sorted_by_perm_str storage_key description_text _ _ _ Q
               (fun x Hx => storage_key_text _ x Hstr Hx) Hn Po)
  end.
  reflexivity.
Qed.

(** X25.  The order in which a tool lists the storages of the device does
    not reach the device diff: with the storages in another order both
    normalised devices are the same, when the normalised storages have
    string descriptions and no description twice. *)
Theorem storages_order_is_irrelevant (dev probe : pydict)
  (ss ss' ps ps' : list pyval) (norm_lib norm_swift : pydict) :
  dict_get "storages" dev = Some (PList ss) ->
  dict_get "storages" probe = Some (PList ps) ->
  dict_get "device" probe = None ->
  _normalise_device (one_device dev) (PDict probe) = Ok (norm_lib, norm_swift) ->
  distinct_descriptions norm_lib -> distinct_descriptions norm_swift ->
  Permutation ss ss' -> Permutation ps ps' ->
  _normalise_device (one_device (dict_set "storages" (PList ss') dev))
    (PDict (dict_set "storages" (PList ps') probe)) = Ok (norm_lib, norm_swift).
Proof.
  intros Hss Hps Hdev H Dl Ds Pl Ps.
  unfold _normalise_device in *. bind_inv H. bind_inv H. injection H as <- <-.
  assert (L : _norm_lib (one_device (dict_set "storages" (PList ss') dev)) = Ok a).
  { rewrite _norm_lib_one_device in *.
    rewrite get_or_set_same. rewrite !get_or_set_other by discriminate.
    unfold get_or at 1 in Ha. rewrite Hss in Ha. cbn [py_iter bind] in Ha |- *.
    exact (sorted_storages_perm lib_storage ss ss' a
             (fun storages =>
                [("manufacturer", get_or dev "manufacturer" (PStr ""));
                 ("model", get_or dev "model" (PStr ""));
                 ("firmware", get_or dev "firmware" (PStr ""));
                 ("friendly_name", get_or dev "friendly_name" (PStr ""));
                 ("storages", PList (map PDict storages))])
             (fun _ => eq_refl) Ha Dl Pl). }
  assert (S : _norm_swift (PDict (dict_set "storages" (PList ps') probe)) = Ok a0).
  { rewrite _norm_swift_flat in Ha0 by exact Hdev.
    rewrite _norm_swift_flat by (rewrite dict_get_set_other by discriminate; exact Hdev).
    rewrite get_or_set_same. rewrite !get_or_set_other by discriminate.
    unfold get_or at 1 in Ha0. rewrite Hps in Ha0. cbn [py_iter bind] in Ha0 |- *.
    exact (sorted_storages_perm swift_storage ps ps' a0
             (fun storages =>
                [("manufacturer", get_or probe "manufacturer" (PStr ""));
                 ("model", get_or probe "model" (get_or probe "friendlyName" (PStr "")));
                 ("firmware",
                  get_or probe "firmwareVersion" (get_or probe "firmware" (PStr "")));
                 ("friendly_name",
                  get_or probe "friendlyName" (get_or probe "friendly_name" (PStr "")));
                 ("storages", PList (map PDict storages))])
             (fun _ => eq_refl) Ha0 Ds Ps). }
  rewrite L, S. reflexivity.
Qed.

Lemma storages_order_is_irrelevant_witness :
  let sd := PDict [("description", PStr "SD card"); ("capacity_bytes", PInt 32)] in
  let internal := PDict [("description", PStr "Internal"); ("capacity_bytes", PInt 64)] in
  let sd' := PDict [("name", PStr "SD card"); ("capacityBytes", PInt 32)] in
  let internal' := PDict [("name", PStr "Internal"); ("capacityBytes", PInt 64)] in
  exists c,
    _normalise_device
      (one_device (dict_set "storages" (PList [sd; internal])
                     [("model", PStr "Pixel"); ("storages", PList [internal; sd])]))
      (PDict (dict_set "storages" (PList [internal'; sd'])
                [("model", PStr "Pixel"); ("storages", PList [sd'; internal'])]))
    = Ok (c, c).
Proof.
  intros sd internal sd' internal'. eexists.
  apply (storages_order_is_irrelevant
           [("model", PStr "Pixel"); ("storages", PList [internal; sd])]
           [("model", PStr "Pixel"); ("storages", PList [sd'; internal'])]
           [internal; sd] [sd; internal] [sd'; internal'] [internal'; sd']).
  - reflexivity.
  - reflexivity.
  - reflexivity.
  - reflexivity.
  - eexists. split; [reflexivity|]. split; [reflexivity|].
    repeat constructor; cbn; intuition discriminate.
  - eexists. split; [reflexivity|]. split; [reflexivity|].
    repeat constructor; cbn; intuition discriminate.
  - apply perm_swap.
  - apply perm_swap.
Defined.

Lemma swift_storage_lib (s : pyval) :
  match s with
  | PDict sd => negb (dict_has "name" sd) && negb (dict_has "capacityBytes" sd)
  | _ => true
  end = true ->
  swift_storage s = lib_storage s.
Proof.
  destruct s as [| | | | |sd]; try reflexivity.
  intro H. apply andb_prop in H. destruct H as [Hn Hc].
  apply dict_has_false in Hn, Hc.
  unfold swift_storage, lib_storage, py_get. rewrite Hn, Hc. reflexivity.
Qed.

Lemma get_or_missing (k : string) (d : pydict) (default : pyval) :
  negb (dict_has k d) = true -> get_or d k default = default.
Proof. intro H. unfold get_or. rewrite (dict_has_false k d H). reflexivity. Qed.

Lemma normalisers_agree (dev : pydict) :
  libmtp_schema dev = true -> _norm_swift (PDict dev) = _norm_lib (one_device dev).
Proof.
  unfold libmtp_schema. intro H. apply andb_prop in H. destruct H as [Hk Hs].
  cbn [forallb] in Hk.
  apply andb_prop in Hk. destruct Hk as [K1 Hk].
  apply andb_prop in Hk. destruct Hk as [K2 Hk].
  apply andb_prop in Hk. destruct Hk as [K3 _].
  rewrite _norm_swift_flat by (apply dict_has_false; exact K1).
  rewrite _norm_lib_one_device.
  rewrite !(get_or_missing "friendlyName" dev) by exact K2.
  rewrite (get_or_missing "firmwareVersion" dev) by exact K3.
  destruct (py_iter (get_or dev "storages" (PList []))) as [each|e] eqn:E;
    [|reflexivity].
  cbn [bind]. rewrite (map_res_ext_in swift_storage lib_storage each); [reflexivity|].
  intros s Hin. apply swift_storage_lib.
  destruct (get_or dev "storages" (PList [])) as [| | |t|l|d]; try discriminate E;
    cbn [py_iter] in E; injection E as <-.
  - apply in_map_iff in Hin. destruct Hin as [c [<- _]]. reflexivity.
  - rewrite forallb_forall in Hs. exact (Hs s Hin).
  - apply in_map_iff in Hin. destruct Hin as [c [<- _]]. reflexivity.
Qed.

Lemma py_eq_storages_refl (storages : list pydict) :
  Forall (fun s => dict_keys s = canonical_storage_keys) storages ->
  forallb (fun s => match s with
                    | PDict sd => forallb (fun kv => plain (snd kv)) sd
                    | _ => false
                    end) (map PDict storages) = true ->
  py_eq (PList (map PDict storages)) (PList (map PDict storages)) = true.
Proof.
  induction 1 as [|s storages Hk _ IH]; intro Hp.
  - reflexivity.
  - cbn [map forallb] in Hp. apply andb_prop in Hp. destruct Hp as [Hs Hp].
    specialize (IH Hp).
    change (py_eq (PDict s) (PDict s) &&
            py_eq (PList (map PDict storages)) (PList (map PDict storages)) = true).
    rewrite IH, andb_true_r.
    destruct s as [|[k1 a] [|[k2 b] [|]]]; try discriminate Hk.
    injection Hk as -> ->.
    cbn [forallb snd] in Hs. apply andb_prop in Hs. destruct Hs as [Ha Hb].
    apply andb_prop in Hb. destruct Hb as [Hb _].
    cbn. rewrite (py_eq_refl_hashable a (plain_hashable a Ha)),
      (py_eq_refl_hashable b (plain_hashable b Hb)). reflexivity.
Qed.

Lemma _diff_device_self (c : pydict) :
  canonical_device c -> plain_device c = true -> _diff_device c c = [].
Proof.
  intros [Hk [storages [Hst Hall]]] Hp.
  unfold plain_device in Hp. apply andb_prop in Hp. destruct Hp as [Hf Hs].
  rewrite Hst in Hs.
  cbn [forallb] in Hf.
  apply andb_prop in Hf. destruct Hf as [F1 Hf].
  apply andb_prop in Hf. destruct Hf as [F2 Hf].
  apply andb_prop in Hf. destruct Hf as [F3 Hf].
  apply andb_prop in Hf. destruct Hf as [F4 _].
  unfold _diff_device. rewrite Hk.
  change (sorted_str (str_union canonical_device_keys canonical_device_keys))
    with ["firmware"; "friendly_name"; "manufacturer"; "model"; "storages"].
  cbn [flat_map]. unfold diff_device_key.
  rewrite (py_eq_refl_hashable _ (plain_hashable _ F1)),
    (py_eq_refl_hashable _ (plain_hashable _ F2)),
    (py_eq_refl_hashable _ (plain_hashable _ F3)),
    (py_eq_refl_hashable _ (plain_hashable _ F4)).
  unfold get_none, get_or. rewrite Hst.
  rewrite (py_eq_storages_refl storages Hall Hs). reflexivity.
Qed.

(* ===================================================================== *)
(** ** The order of the device diff *)
(* ===================================================================== *)

Lemma str_ltb_app (p a b : string) : (p ++ a <? p ++ b)%string = (a <? b)%string.
Proof.
  unfold String.ltb. induction p as [|c p IH]; cbn [append String.compare].
  - reflexivity.
  - rewrite ascii_compare_refl. exact IH.
Qed.

Lemma flat_map_sorted_keys {A : Type} (lt : A -> A -> Prop) (f : A -> list DiffEntry)
  (keyof : A -> string) (l : list A) :
  (forall x, f x = [] \/ exists d, f x = [d] /\ key d = keyof x) ->
  (forall x y, lt x y -> (keyof x <? keyof y)%string = true) ->
  StronglySorted lt l ->
  StronglySorted (fun d d' => (key d <? key d')%string = true) (flat_map f l) /\
  forall d, In d (flat_map f l) -> exists x, In x l /\ key d = keyof x.
Proof.
  intros Hf Hlt. induction 1 as [|x l Hs [IH1 IH2] Hall]; cbn [flat_map].
  - split; [constructor | intros d []].
  - destruct (Hf x) as [E|[d [E Hd]]]; rewrite E; cbn [app].
    + split; [exact IH1|]. intros d Hd. destruct (IH2 d Hd) as [y [Hy Ky]].
      exists y. split; [right; exact Hy | exact Ky].
    + split.
      * constructor; [exact IH1|]. apply Forall_forall. intros d' Hd'.
        destruct (IH2 d' Hd') as [y [Hy Ky]]. rewrite Hd, Ky.
        apply Hlt. rewrite Forall_forall in Hall. exact (Hall y Hy).
      * intros d' [<-|Hd'].
        -- exists x. split; [left; reflexivity | exact Hd].
        -- destruct (IH2 d' Hd') as [y [Hy Ky]].
           exists y. split; [right; exact Hy | exact Ky].
Qed.

(** X27.  The device diff has at most one entry for a field, and its
    entries come in the ascending order of their keys: the keys are
    strictly ascending, each [device.<field>] for a field of one of the two
    devices. *)
Theorem device_diff_keys_are_strictly_ascending (norm_lib norm_swift : pydict) :
  StronglySorted (fun d d' => (key d <? key d')%string = true)
    (_diff_device norm_lib norm_swift) /\
  forall d, In d (_diff_device norm_lib norm_swift) ->
    exists k, (In k (dict_keys norm_lib) \/ In k (dict_keys norm_swift)) /\
              key d = "device." ++ k /\
              libmtp_val d = get_none norm_lib k /\
              swiftmtp_val d = get_none norm_swift k /\
              py_eq (libmtp_val d) (swiftmtp_val d) = false.
Proof.
  split.
  - unfold _diff_device.
    apply (flat_map_sorted_keys (fun a b => (a <? b)%string = true)
             (diff_device_key norm_lib norm_swift) (fun k => "device." ++ k)).
    + intro k. unfold diff_device_key.
      destruct (negb (py_eq (get_none norm_lib k) (get_none norm_swift k)));
        [right; eexists; split; reflexivity | left; reflexivity].
    + intros x y H. rewrite str_ltb_app. exact H.
    + apply strictly_ascending; [apply sorted_str_sorted|].
      apply sorted_str_NoDup, NoDup_nodup.
  - intros d Hd. unfold _diff_device in Hd. apply in_flat_map in Hd.
    destruct Hd as [k [Hk Hd]].
    apply sorted_str_In, str_union_In in Hk. exists k. split; [exact Hk|].
    unfold diff_device_key in Hd.
    destruct (py_eq (get_none norm_lib k) (get_none norm_swift k)) eqn:E;
      cbn [negb] in Hd; [destruct Hd|].
    destruct Hd as [<-|[]]. cbn [key libmtp_val swiftmtp_val new_DiffEntry].
    repeat split. exact E.
Qed.

(* ===================================================================== *)
(** ** Patterns that are no strings *)
(* ===================================================================== *)

Lemma amap_set_head {V : Type} (k k0 : pyval) (v v0 : V) (m : amap V) :
  exists v' m', amap_set k v ((k0, v0) :: m) = (k0, v') :: m'.
Proof.
  cbn [amap_set]. destruct (py_eq k k0); eexists; eexists; reflexivity.
Qed.

Lemma build_entries_head (implied : pyval) (entries : list pyval)
  (k0 : pyval) (v0 : pyval * pyval) (m r : amap (pyval * pyval)) :
  for_each (build_entry implied) entries ((k0, v0) :: m) = Ok r ->
  exists v r', r = (k0, v) :: r'.
Proof.
  revert v0 m. induction entries as [|entry entries IH]; intros v0 m H.
  - cbn [for_each] in H. injection H as <-. eexists; eexists; reflexivity.
  - cbn [for_each] in H. bind_inv H.
    match goal with P : build_entry _ _ _ = Ok ?a |- _ =>
      assert (Hd : exists v' m', a = (k0, v') :: m')
    end.
    { unfold build_entry in Ha. bind_inv Ha. bind_inv Ha. bind_inv Ha.
      destruct (truthy a0).
      - unfold map_set in Ha. bind_inv Ha. injection Ha as <-. apply amap_set_head.
      - injection Ha as <-. eexists; eexists; reflexivity. }
    destruct Hd as [v' [m' ->]]. exact (IH _ _ H).
Qed.

Lemma amap_merge_head {V : Type} (b : amap V) (k0 : pyval) (v0 : V) (m : amap V) :
  exists v m', amap_merge ((k0, v0) :: m) b = (k0, v) :: m'.
Proof.
  unfold amap_merge. revert v0 m. induction b as [|[k v] b IH]; intros v0 m.
  - eexists; eexists; reflexivity.
  - cbn [fold_left fst snd].
    destruct (amap_set_head k k0 v v0 m) as [v' [m' ->]]. apply IH.
Qed.

(** X28.  An overlay whose first entry under [intentional_differences] has
    a key that is no string (a number, say) and is not skipped as empty
    cannot classify anything: with at least one difference
    [_classify_diffs] raises. *)
Theorem non_string_pattern_stops_classification (fields entry : pydict)
  (rest : list pyval) (d : DiffEntry) (diffs : list DiffEntry) :
  get_or fields "intentional_differences" (PList []) = PList (PDict entry :: rest) ->
  truthy (get_or entry "key" (PStr "")) = true ->
  (forall s, get_or entry "key" (PStr "") <> PStr s) ->
  exists e, _classify_diffs (d :: diffs) (PDict fields) = Raise e.
Proof.
  intros Hi Ht Hs. unfold _classify_diffs.
  destruct (_build_map (PDict fields) "intentional_differences") as [im|e] eqn:Ei;
    [|exists e; reflexivity].
  cbn [bind].
  destruct (_build_map (PDict fields) "quirk_needed") as [qm|e];
    [|exists e; reflexivity].
  cbn [bind].
  destruct (_build_map (PDict fields) "known_bugs") as [bm|e];
    [|exists e; reflexivity].
  cbn [bind].
  assert (Him : exists v m', im = (get_or entry "key" (PStr ""), v) :: m').
  { unfold _build_map in Ei. cbn [py_get] in Ei.
    fold (get_or fields "intentional_differences" (PList [])) in Ei.
    rewrite Hi in Ei. cbn [bind py_iter for_each] in Ei.
    bind_inv Ei. unfold build_entry in Ha. cbn [py_get bind] in Ha.
    fold (get_or entry "key" (PStr "")) in Ha. rewrite Ht in Ha.
    unfold map_set in Ha. bind_inv Ha. injection Ha as <-.
    cbn [amap_set] in Ei. exact (build_entries_head _ _ _ _ _ _ Ei). }
  destruct Him as [v [m' ->]].
  destruct (amap_merge_head qm (get_or entry "key" (PStr "")) v m') as [v1 [m1 ->]].
  destruct (amap_merge_head bm (get_or entry "key" (PStr "")) v1 m1) as [v2 [m2 ->]].
  exists TypeError. cbn [map_res]. unfold classify_one at 1. cbn [first_match].
  unfold pattern_matches.
  destruct (get_or entry "key" (PStr "")) as [| | |s| |]; try reflexivity.
  exfalso. exact (Hs s eq_refl).
Qed.

Lemma non_string_pattern_stops_classification_witness :
  exists e,
    _classify_diffs [new_DiffEntry "device.model" (PStr "a") (PStr "b")]
      (PDict [("intentional_differences",
               PList [PDict [("key", PInt 404); ("reason", PStr "numeric key")]])])
    = Raise e.
Proof.
  apply (non_string_pattern_stops_classification
           [("intentional_differences",
             PList [PDict [("key", PInt 404); ("reason", PStr "numeric key")]])]
           [("key", PInt 404); ("reason", PStr "numeric key")] []).
  - reflexivity.
  - reflexivity.
  - discriminate.
Defined.

(* ===================================================================== *)
(** ** The file diff at one path of two lists *)
(* ===================================================================== *)

Lemma sorted_split {A : Type} (R : A -> A -> Prop) (l1 l2 : list A) (x : A) :
  StronglySorted R (l1 ++ x :: l2) ->
  Forall (fun y => R y x) l1 /\ Forall (R x) l2.
Proof.
  induction l1 as [|a l1 IH]; cbn [app]; intro H.
  - inversion H; subst. split; [constructor | assumption].
  - inversion H as [|? ? Hs Hall]; subst. destruct (IH Hs) as [H1 H2].
    split; [|exact H2]. constructor; [|exact H1].
    rewrite Forall_forall in Hall. apply Hall. apply in_elt.
Qed.

Lemma map_res_app_inv {A B : Type} (f : A -> res B) (l1 l2 : list A) (x : A)
  (parts : list B) :
  map_res f (l1 ++ x :: l2) = Ok parts ->
  exists p1 px p2,
    parts = (p1 ++ px :: p2)%list /\
    map_res f l1 = Ok p1 /\ f x = Ok px /\ map_res f l2 = Ok p2.
Proof.
  revert parts. induction l1 as [|a l1 IH]; cbn [app map_res]; intros parts H.
  - bind_inv H. bind_inv H. injection H as <-.
    exists [], a, a0. auto.
  - bind_inv H. bind_inv H. injection H as <-.
    destruct (IH _ Ha0) as [p1 [px [p2 [-> [H1 [Hx H2]]]]]].
    exists (a0 :: p1), px, p2. cbn [map_res]. rewrite Ha, H1.
    repeat split; assumption.
Qed.

Lemma map_res_total {A B : Type} (f : A -> res B) (l : list A) :
  (forall x, In x l -> exists y, f x = Ok y) -> exists ys, map_res f l = Ok ys.
Proof.
  induction l as [|x l IH]; intro H; cbn [map_res].
  - exists []. reflexivity.
  - destruct (H x (or_introl eq_refl)) as [y ->].
    destruct (IH (fun z Hz => H z (or_intror Hz))) as [ys ->].
    exists (y :: ys). reflexivity.
Qed.

Lemma diff_size_entries (p : string) (a b : pydict) :
  diff_size (PStr p) a b = size_entries p a b.
Proof.
  unfold diff_size, size_entries.
  destruct (py_eq (get_none a "size_bytes") (get_none b "size_bytes")); reflexivity.
Qed.

Lemma diff_path_entry_at (lm sm : amap pydict) (ts_tol : Z) (q : string)
  (part : list DiffEntry) :
  diff_path lm sm ts_tol (PStr q) = Ok part -> Forall (entry_at q) part.
Proof.
  unfold diff_path, entry_at.
  destruct (amap_get (PStr q) lm) as [a|]; [destruct (amap_get (PStr q) sm) as [b|]|].
  - unfold diff_mtime, diff_size. intro H.
    destruct (negb (is_none (get_none a "mtime")) && negb (is_none (get_none b "mtime")));
      [destruct (py_sub (get_none a "mtime") (get_none b "mtime")) as [n|e];
       cbn [bind] in H; [destruct (Z.abs n >? ts_tol)|discriminate]|];
      cbn [bind] in H;
      destruct (negb (py_eq (get_none a "size_bytes") (get_none b "size_bytes")));
      injection H as <-; cbn [app];
      repeat (apply Forall_cons); try apply Forall_nil;
      cbn [key new_DiffEntry py_str]; auto.
  - intro H. injection H as <-. apply Forall_cons; [|apply Forall_nil].
    cbn [key libmtp_val swiftmtp_val new_DiffEntry py_str]. auto.
  - intro H. injection H as <-. apply Forall_cons; [|apply Forall_nil].
    cbn [key libmtp_val swiftmtp_val new_DiffEntry py_str]. auto.
Qed.

Lemma parts_entry_at (lm sm : amap pydict) (ts_tol : Z) (P : string -> Prop)
  (l : list string) (parts : list (list DiffEntry)) :
  map_res (diff_path lm sm ts_tol) (map PStr l) = Ok parts ->
  Forall P l ->
  Forall (fun d => exists q, P q /\ entry_at q d) (List.concat parts).
Proof.
  revert parts. induction l as [|q l IH]; cbn [map map_res]; intros parts H HP.
  - injection H as <-. constructor.
  - bind_inv H. bind_inv H. injection H as <-. inversion HP; subst.
    cbn [List.concat]. apply Forall_app. split.
    + eapply Forall_impl; [|exact (diff_path_entry_at _ _ _ _ _ Ha)].
      intros d Hd. exists q. auto.
    + apply IH; assumption.
Qed.

Lemma last_with_path_str (files : list pydict) (p : string) (a : pydict) :
  last_with_path (PStr p) files = Some a ->
  In a files /\ str_path a = Some p /\ In p (path_strings files).
Proof.
  intro H. pose proof (last_with_path_In _ _ _ H) as Hin.
  unfold last_with_path in H. apply find_some in H. destruct H as [_ H].
  apply has_path_str in H. repeat split; try assumption.
  apply path_strings_In. exists a. auto.
Qed.

(** The output of [_diff_files] around the two records it compares at a
    path: before it the entries of the smaller paths, then the entries of
    the size and of the mtime comparison, after it the entries of the
    larger paths. *)
Lemma _diff_files_at_pair (lib_files swift_files : list pydict) (p : string)
  (a b : pydict) (x y ts_tol : Z) (out : list DiffEntry) :
  str_paths lib_files = true -> str_paths swift_files = true ->
  compared lib_files swift_files p a b ->
  dict_get "mtime" a = Some (PInt x) -> dict_get "mtime" b = Some (PInt y) ->
  _diff_files lib_files swift_files ts_tol = Ok out ->
  exists before after,
    out = (before ++ size_entries p a b ++
           (if Z.abs (x - y) <=? ts_tol then [] else [mtime_entry p x y]) ++
           after)%list /\
    Forall (fun d => exists q, (q <? p)%string = true /\ entry_at q d) before /\
    Forall (fun d => exists q, (p <? q)%string = true /\ entry_at q d) after.
Proof.
  intros Sl Ss [Ca Cb] Hx Hy H.
  destruct (path_map_str lib_files Sl) as [lm [? [Hlm _]]].
  destruct (path_map_str swift_files Ss) as [sm [? [Hsm _]]].
  rewrite (_diff_files_visits lib_files swift_files ts_tol lm sm Sl Ss Hlm Hsm) in H.
  bind_inv H. injection H as <-.
  match goal with P : map_res _ _ = Ok _ |- _ => rename P into Hparts end.
  assert (Hp : In p (visited lib_files swift_files)).
  { apply visited_In. left. exact (proj2 (proj2 (last_with_path_str _ _ _ Ca))). }
  apply in_split in Hp. destruct Hp as [l1 [l2 E]].
  pose proof (visited_ascending lib_files swift_files) as Hs.
  rewrite E in Hs, Hparts. apply sorted_split in Hs. destruct Hs as [H1 H2].
  rewrite map_app in Hparts. cbn [map] in Hparts.
  apply map_res_app_inv in Hparts.
  destruct Hparts as [p1 [px [p2 [-> [Hp1 [Hpx Hp2]]]]]].
  rewrite (diff_path_tolerance lm sm ts_tol (PStr p) a b x y) in Hpx.
  - injection Hpx as <-. exists (List.concat p1), (List.concat p2).
    split.
    + rewrite concat_app. cbn [List.concat]. rewrite diff_size_entries.
      rewrite <- !app_assoc. reflexivity.
    + split.
      * exact (parts_entry_at lm sm ts_tol _ l1 p1 Hp1 H1).
      * exact (parts_entry_at lm sm ts_tol _ l2 p2 Hp2 H2).
  - rewrite (path_map_lookup _ _ (PStr p) Hlm eq_refl). exact Ca.
  - rewrite (path_map_lookup _ _ (PStr p) Hsm eq_refl). exact Cb.
  - exact Hx.
  - exact Hy.
Qed.

Lemma py_sub_numeric (x y : pyval) :
  match x with PNone | PInt _ | PBool _ => true | _ => false end = true ->
  match y with PNone | PInt _ | PBool _ => true | _ => false end = true ->
  is_none x = false -> is_none y = false ->
  exists n, py_sub x y = Ok n.
Proof.
  destruct x, y; cbn; try discriminate; intros; eexists; reflexivity.
Qed.

(** On lists with string paths and numeric mtimes the file diff returns. *)
Lemma _diff_files_returns (lib_files swift_files : list pydict) (ts_tol : Z) :
  str_paths lib_files = true -> str_paths swift_files = true ->
  mtimes_numeric lib_files = true -> mtimes_numeric swift_files = true ->
  exists out, _diff_files lib_files swift_files ts_tol = Ok out.
Proof.
  intros Sl Ss Ml Ms.
  destruct (path_map_str lib_files Sl) as [lm [? [Hlm _]]].
  destruct (path_map_str swift_files Ss) as [sm [? [Hsm _]]].
  rewrite (_diff_files_visits lib_files swift_files ts_tol lm sm Sl Ss Hlm Hsm).
  destruct (map_res_total (diff_path lm sm ts_tol)
              (map PStr (visited lib_files swift_files))) as [parts E].
  - intros k Hk. apply in_map_iff in Hk. destruct Hk as [q [<- _]].
    unfold diff_path.
    rewrite (path_map_lookup _ _ (PStr q) Hlm eq_refl).
    rewrite (path_map_lookup _ _ (PStr q) Hsm eq_refl).
    destruct (last_with_path (PStr q) lib_files) as [a|] eqn:Ea;
      [destruct (last_with_path (PStr q) swift_files) as [b|] eqn:Eb|];
      try (eexists; reflexivity).
    apply last_with_path_In in Ea, Eb.
    unfold mtimes_numeric in Ml, Ms. rewrite forallb_forall in Ml, Ms.
    specialize (Ml a Ea). specialize (Ms b Eb).
    unfold diff_mtime.
    destruct (is_none (get_none a "mtime")) eqn:Na; cbn [negb andb bind];
      [eexists; reflexivity|].
    destruct (is_none (get_none b "mtime")) eqn:Nb; cbn [negb andb bind];
      [eexists; reflexivity|].
    destruct (py_sub_numeric _ _ Ml Ms Na Nb) as [n ->]. cbn [bind].
    destruct (Z.abs n >? ts_tol); eexists; reflexivity.
  - rewrite E. eexists. reflexivity.
Qed.

Lemma str_length_app (a b : string) :
  String.length (a ++ b) = (String.length a + String.length b)%nat.
Proof. induction a as [|c a IH]; cbn; [reflexivity | rewrite IH; reflexivity]. Qed.

Lemma string_app_inv_tail (q p s : string) : q ++ s = p ++ s -> q = p.
Proof.
  revert p. induction q as [|c q IH]; intros [|c' p] H.
  - reflexivity.
  - exfalso. apply (f_equal String.length) in H.
    rewrite !str_length_app in H. cbn [String.length] in H. lia.
  - exfalso. apply (f_equal String.length) in H.
    rewrite !str_length_app in H. cbn [String.length] in H. lia.
  - cbn [append] in H. injection H as -> H. f_equal. exact (IH _ H).
Qed.

Lemma size_key_is_no_mtime_key (q p : string) :
  "file." ++ q ++ ".size_bytes" <> "file." ++ p ++ ".mtime".
Proof.
  intro H. apply (string_app_inv_head "file.") in H.
  assert (G : forall u v : string, u ++ "s" <> v ++ "e").
  { induction u as [|c u IH]; intros [|c' v] E; cbn [append] in E.
    - discriminate E.
    - injection E as _ E. destruct v; discriminate E.
    - injection E as _ E. destruct u; discriminate E.
    - injection E as _ E. exact (IH _ E). }
  apply (G (q ++ ".size_byte") (p ++ ".mtim")).
  rewrite !string_app_assoc. exact H.
Qed.

(** Among the entries of the other paths and of the size comparison none
    has the key of the mtime entry of [p] with a value on both sides. *)
Lemma no_mtime_entry_around (p : string) (a b : pydict)
  (before after : list DiffEntry) (d : DiffEntry) :
  Forall (fun d => exists q, (q <? p)%string = true /\ entry_at q d) before ->
  Forall (fun d => exists q, (p <? q)%string = true /\ entry_at q d) after ->
  In d (before ++ size_entries p a b ++ after)%list ->
  key d = "file." ++ p ++ ".mtime" ->
  libmtp_val d = PNone \/ swiftmtp_val d = PNone.
Proof.
  intros Hb Ha Hin Hk.
  assert (G : forall q, q <> p -> entry_at q d ->
                libmtp_val d = PNone \/ swiftmtp_val d = PNone).
  { intros q Hq [[_ N]|[E|E]].
    - exact N.
    - exfalso. rewrite Hk in E. symmetry in E.
      exact (size_key_is_no_mtime_key q p E).
    - exfalso. rewrite Hk in E. apply (string_app_inv_head "file.") in E.
      apply string_app_inv_tail in E. congruence. }
  rewrite !in_app_iff in Hin. destruct Hin as [Hin|[Hin|Hin]].
  - rewrite Forall_forall in Hb. destruct (Hb d Hin) as [q [Hq He]].
    apply (G q); [|exact He]. intros ->. rewrite str_ltb_irrefl in Hq. discriminate.
  - exfalso. unfold size_entries in Hin.
    destruct (py_eq (get_none a "size_bytes") (get_none b "size_bytes"));
      [destruct Hin|].
    destruct Hin as [<-|[]]. cbn [key size_entry] in Hk.
    exact (size_key_is_no_mtime_key p p Hk).
  - rewrite Forall_forall in Ha. destruct (Ha d Hin) as [q [Hq He]].
    apply (G q); [|exact He]. intros ->. rewrite str_ltb_irrefl in Hq. discriminate.
Qed.

(* ===================================================================== *)
(** ** The tolerance boundary *)
(* ===================================================================== *)

(** C3, as the specification states it, fails for a path that comes twice
    in a list: the earlier record is not compared.  Its mtime differs from
    the mtime of the record of the other side by [t + 1], and no Diff Entry
    is produced. *)
Lemma shadowed_record_is_not_compared :
  let a0 := [("path", PStr "a.txt"); ("size_bytes", PInt 1); ("mtime", PInt 221)] in
  let a := [("path", PStr "a.txt"); ("size_bytes", PInt 1); ("mtime", PInt 100)] in
  let b := [("path", PStr "a.txt"); ("size_bytes", PInt 1); ("mtime", PInt 100)] in
  Z.abs (221 - 100) = 120 + 1 /\
  _diff_files [a0; a] [b] 120 = Ok [].
Proof. split; reflexivity. Qed.

(** C3, amended.  Two canonical file lists (string paths, mtimes that are
    numbers or absent) and a tolerance [t >= 0]: the file diff returns, and
    for the two records it compares at a path [p], the last record of the
    path in each list, both with an integer mtime, its output is the
    entries of the smaller paths, the size entries of [p], the mtime entry
    of [p] exactly when the mtimes differ by more than [t], and the entries
    of the larger paths.  So a difference of exactly [t] gives no mtime
    Diff Entry (no entry under the key [file.<p>.mtime] with a value on
    both sides), a difference of [t + 1] gives the entry with both
    timestamps, and with [t = 0] the entry is there exactly when the
    mtimes differ. *)
Theorem timestamp_tolerance_boundary (lib_files swift_files : list pydict)
  (p : string) (a b : pydict) (x y t : Z) :
  str_paths lib_files = true -> str_paths swift_files = true ->
  mtimes_numeric lib_files = true -> mtimes_numeric swift_files = true ->
  compared lib_files swift_files p a b ->
  dict_get "mtime" a = Some (PInt x) ->
  dict_get "mtime" b = Some (PInt y) ->
  0 <= t ->
  exists out before after,
    _diff_files lib_files swift_files t = Ok out /\
    out = (before ++ size_entries p a b ++
           (if Z.abs (x - y) <=? t then [] else [mtime_entry p x y]) ++
           after)%list /\
    Forall (fun d => exists q, (q <? p)%string = true /\ entry_at q d) before /\
    Forall (fun d => exists q, (p <? q)%string = true /\ entry_at q d) after /\
    (Z.abs (x - y) = t ->
     forall d, In d out -> key d = "file." ++ p ++ ".mtime" ->
       libmtp_val d = PNone \/ swiftmtp_val d = PNone) /\
    (Z.abs (x - y) = t + 1 -> In (mtime_entry p x y) out) /\
    (t = 0 -> (In (mtime_entry p x y) out <-> x <> y)).
Proof.
  intros Sl Ss Ml Ms C Hx Hy Ht.
  destruct (_diff_files_returns lib_files swift_files t Sl Ss Ml Ms) as [out Hout].
  destruct (_diff_files_at_pair _ _ p a b x y t out Sl Ss C Hx Hy Hout)
    as [before [after [E [Hb Ha]]]].
  exists out, before, after.
  split; [exact Hout|]. split; [exact E|]. split; [exact Hb|]. split; [exact Ha|].
  assert (Hin : (Z.abs (x - y) <=? t) = false -> In (mtime_entry p x y) out).
  { intro L. rewrite E, L. rewrite !in_app_iff. right. right. left. left. reflexivity. }
  assert (Hno : (Z.abs (x - y) <=? t) = true ->
                forall d, In d out -> key d = "file." ++ p ++ ".mtime" ->
                  libmtp_val d = PNone \/ swiftmtp_val d = PNone).
  { intros L d Hd Hk. rewrite E, L in Hd. cbn [app] in Hd.
    exact (no_mtime_entry_around p a b before after d Hb Ha Hd Hk). }
  split; [|split].
  - intro D. apply Hno. apply Z.leb_le. lia.
  - intro D. apply Hin. apply Z.leb_gt. lia.
  - intros ->. split.
    + intros Hd Exy. subst y.
      assert (L : (Z.abs (x - x) <=? 0) = true) by (apply Z.leb_le; lia).
      destruct (Hno L _ Hd eq_refl) as [N|N]; discriminate N.
    + intro Ne. apply Hin. apply Z.leb_gt. lia.
Qed.

(** Two paths on each side; the pair compared at the second path differs
    by [t + 1]. *)
Lemma timestamp_tolerance_boundary_witness :
  let r (p : string) (mt : Z) :=
    [("path", PStr p); ("size_bytes", PInt 1); ("mtime", PInt mt)] in
  In (mtime_entry "b.txt" 100 221)
     [mkDiffEntry "file.b.txt.mtime" (PInt 100) (PInt 221) (PStr "unknown") (PStr "")] /\
  exists out,
    _diff_files [r "b.txt" 7; r "a.txt" 50; r "b.txt" 100]
                [r "a.txt" 170; r "b.txt" 221] 120 = Ok out /\
    In (mtime_entry "b.txt" 100 221) out.
Proof.
  intro r. split; [left; reflexivity|].
  destruct (timestamp_tolerance_boundary
              [r "b.txt" 7; r "a.txt" 50; r "b.txt" 100]
              [r "a.txt" 170; r "b.txt" 221] "b.txt"
              (r "b.txt" 100) (r "b.txt" 221) 100 221 120
              eq_refl eq_refl eq_refl eq_refl (conj eq_refl eq_refl)
              eq_refl eq_refl ltac:(lia))
    as [out [before [after [Hout [_ [_ [_ [_ [H1 _]]]]]]]]].
  exists out. split; [exact Hout | exact (H1 eq_refl)].
Defined.

(* ===================================================================== *)
(** ** The tolerance override *)
(* ===================================================================== *)




(* ===================================================================== *)
(** ** Missing data *)
(* ===================================================================== *)

Lemma _norm_lib_first_device (fields dev : pydict) (others : list pyval) :
  get_or fields "devices" (PList []) = PList (PDict dev :: others) ->
  _norm_lib (PDict fields) =
  (each <- py_iter (get_or dev "storages" (PList [])) ;;
   unsorted <- map_res lib_storage each ;;
   storages <- sorted_by storage_key unsorted ;;
   Ok [("manufacturer", get_or dev "manufacturer" (PStr ""));
       ("model", get_or dev "model" (PStr ""));
       ("firmware", get_or dev "firmware" (PStr ""));
       ("friendly_name", get_or dev "friendly_name" (PStr ""));
       ("storages", PList (map PDict storages))]).
Proof.
  intro H. unfold _norm_lib. cbn [py_get bind].
  fold (get_or fields "devices" (PList [])). rewrite H. reflexivity.
Qed.

Lemma _norm_swift_device (fields dev : pydict) :
  probe_device fields = PDict dev ->
  _norm_swift (PDict fields) =
  (each <- py_iter (get_or dev "storages" (PList [])) ;;
   unsorted <- map_res swift_storage each ;;
   storages <- sorted_by storage_key unsorted ;;
   Ok [("manufacturer", get_or dev "manufacturer" (PStr ""));
       ("model", get_or dev "model" (get_or dev "friendlyName" (PStr "")));
       ("firmware", get_or dev "firmwareVersion" (get_or dev "firmware" (PStr "")));
       ("friendly_name",
        get_or dev "friendlyName" (get_or dev "friendly_name" (PStr "")));
       ("storages", PList (map PDict storages))]).
Proof.
  intro H. unfold _norm_swift. cbn [py_get bind].
  fold (get_or fields "device" (PDict fields)). fold (probe_device fields).
  rewrite H. reflexivity.
Qed.










(* ===================================================================== *)
(** ** The labels of an overlay *)
(* ===================================================================== *)

Lemma declaration_stated (section : string) (entry : pyval) (dc : string * (pyval * pyval)) :
  section = "intentional_differences" \/ section = "quirk_needed" \/
  section = "known_bugs" ->
  In dc (declaration (section_label_map section) entry) ->
  exists fields, entry = PDict fields /\ fst (snd dc) = stated_label section fields.
Proof.
  intros Hsec Hin. destruct entry as [| | | | |fields]; try destruct Hin.
  exists fields. split; [reflexivity|].
  cbn [declaration] in Hin.
  destruct (get_or fields "key" (PStr "")) as [| | |p| |]; try destruct Hin.
  destruct (p =? "")%string; [destruct Hin|].
  destruct Hin as [<-|[]]. cbn [fst snd].
  unfold stated_label, get_or, py_or.
  destruct (dict_get "label" fields) as [l|]; [reflexivity|].
  destruct Hsec as [->|[->| ->]]; reflexivity.
Qed.

Lemma declarations_stated (intentional quirk bugs : list pyval)
  (dc : string * (pyval * pyval)) :
  In dc (declarations intentional quirk bugs) ->
  exists section entry,
    in_section intentional quirk bugs section entry /\
    fst (snd dc) = stated_label section entry.
Proof.
  unfold declarations, section_declarations. rewrite !in_app_iff, !in_flat_map.
  intros [[e [He Hd]]|[[e [He Hd]]|[e [He Hd]]]].
  - destruct (declaration_stated "intentional_differences" e dc) as [f [-> E]];
      [tauto | exact Hd|].
    exists "intentional_differences", f. split; [left; auto | exact E].
  - destruct (declaration_stated "quirk_needed" e dc) as [f [-> E]];
      [tauto | exact Hd|].
    exists "quirk_needed", f. split; [right; left; auto | exact E].
  - destruct (declaration_stated "known_bugs" e dc) as [f [-> E]];
      [tauto | exact Hd|].
    exists "known_bugs", f. split; [right; right; auto | exact E].
Qed.

(** C7, amended.  On a well-formed overlay every label after classification
    is the label the entry had before, or the label of an entry of the
    overlay: the label that entry declares when it has a truth value,
    unknown when the declared label has none, and without a declared label
    the label its section implies (intentional, quirk_needed; unknown under
    known_bugs).  So when the diff list carries labels of the five-value
    set, as the diff engine produces them, and every label with a truth
    value that the overlay declares is of that set, every label after
    classification is one of the five and the summary counts have exactly
    the five keys. *)
Theorem labels_closed_when_overlay_is (diffs : list DiffEntry) (expectations : pyval)
  (intentional quirk bugs : list pyval) :
  overlay_sections expectations intentional quirk bugs ->
  forallb entry_ok (intentional ++ quirk ++ bugs) = true ->
  exists out,
    _classify_diffs diffs expectations = Ok out /\
    (forall d', In d' out ->
       (exists d, In d diffs /\ label d' = label d) \/
       (exists section entry,
          in_section intentional quirk bugs section entry /\
          label d' = stated_label section entry)) /\
    ((forall d, In d diffs -> labels_closed (label d)) ->
     (forall section entry l,
        in_section intentional quirk bugs section entry ->
        dict_get "label" entry = Some l -> truthy l = true -> labels_closed l) ->
     (forall d', In d' out -> labels_closed (label d')) /\
     exists counts, _summary_counts out = Ok counts /\
                    amap_keys counts = map PStr _ALL_LABELS).
Proof.
  intros Hsec Hok. set (decls := declarations intentional quirk bugs).
  exists (map (relabel decls) diffs).
  split; [exact (_classify_diffs_spec diffs _ _ _ _ Hsec Hok)|].
  assert (Hlab : forall d', In d' (map (relabel decls) diffs) ->
            (exists d, In d diffs /\ label d' = label d) \/
            (exists section entry,
               in_section intentional quirk bugs section entry /\
               label d' = stated_label section entry)).
  { intros d' Hd'. apply in_map_iff in Hd'. destruct Hd' as [d [<- Hd]].
    destruct (relabel_label decls d) as [E|[dc [Hdc E]]].
    - left. exists d. auto.
    - right. destruct (declarations_stated _ _ _ dc Hdc) as [section [entry [Hin Hs]]].
      exists section, entry. split; [exact Hin | congruence]. }
  split; [exact Hlab|].
  intros Hdiffs Hdecls.
  assert (Hclosed : forall d', In d' (map (relabel decls) diffs) ->
            labels_closed (label d')).
  { intros d' Hd'.
    destruct (Hlab d' Hd') as [[d [Hd ->]]|[section [entry [Hin ->]]]]; [auto|].
    unfold stated_label.
    destruct (dict_get "label" entry) as [l|] eqn:El.
    - destruct (truthy l) eqn:Tl; [exact (Hdecls section entry l Hin El Tl)|].
      unfold labels_closed. cbn. tauto.
    - unfold labels_closed.
      destruct (section =? "intentional_differences")%string; [cbn; tauto|].
      destruct (section =? "quirk_needed")%string; cbn; tauto. }
  split; [exact Hclosed|].
  apply _summary_counts_closed. exact Hclosed.
Qed.

(** An overlay with one entry per section: an implied label, a declared
    label without truth value under [intentional_differences], which gives
    unknown, and a known bug with a label of the set. *)
Lemma labels_closed_when_overlay_is_witness :
  let diffs := [new_DiffEntry "device.model" (PStr "a") (PStr "b");
                new_DiffEntry "file.x.mtime" (PInt 1) (PInt 500)] in
  let intentional :=
    [PDict [("key", PStr "device.model"); ("label", PNone); ("reason", PStr "redacted")]] in
  let quirk := [PDict [("key", PStr "file.x"); ("reason", PStr "clock")]] in
  let bugs := [PDict [("key", PStr "device"); ("label", PStr "bug_libmtp")]] in
  let expectations :=
    PDict [("intentional_differences", PList intentional);
           ("quirk_needed", PList quirk); ("known_bugs", PList bugs)] in
  _classify_diffs diffs expectations =
    Ok [mkDiffEntry "device.model" (PStr "a") (PStr "b") (PStr "unknown") (PStr "redacted");
        mkDiffEntry "file.x.mtime" (PInt 1) (PInt 500) (PStr "quirk_needed") (PStr "clock")] /\
  exists out,
    _classify_diffs diffs expectations = Ok out /\
    forall d', In d' out -> labels_closed (label d').
Proof.
  intros diffs intentional quirk bugs expectations.
  split; [reflexivity|].
  assert (S : overlay_sections expectations intentional quirk bugs).
  { eexists. repeat split. }
  destruct (labels_closed_when_overlay_is diffs expectations intentional quirk bugs
              S eq_refl) as [out [E [_ C]]].
  exists out. split; [exact E|].
  apply C.
  - intros d Hd. unfold labels_closed.
    destruct Hd as [<-|[<-|[]]]; cbn; tauto.
  - intros section entry l [[_ Hi]|[[_ Hi]|[_ Hi]]] Hl Tl;
      destruct Hi as [Hi|[]]; injection Hi as <-;
      cbn in Hl; try discriminate Hl;
      injection Hl as <-; try discriminate Tl.
    unfold labels_closed. cbn. tauto.
Defined.

(* ===================================================================== *)
(** ** One record on both sides *)
(* ===================================================================== *)

(** X26.  The two normalisers reconcile on a device record in the schema of
    libmtp: the first device of a detect result, given to the SwiftMTP side
    as it is or under ["device"], is normalised to one and the same device,
    and a normalised device without floats (fields that are [None],
    booleans, integers or strings) does not differ from itself, so the
    device diff is empty. *)
Theorem same_record_on_both_sides_has_no_device_diff (fields dev c : pydict)
  (others : list pyval) :
  get_or fields "devices" (PList []) = PList (PDict dev :: others) ->
  libmtp_schema dev = true ->
  _norm_lib (PDict fields) = Ok c ->
  plain_device c = true ->
  _normalise_device (PDict fields) (PDict dev) = Ok (c, c) /\
  _normalise_device (PDict fields) (PDict [("device", PDict dev)]) = Ok (c, c) /\
  _diff_device c c = [].
Proof.
  intros Hdev Hs Hn Hp.
  assert (L : _norm_lib (one_device dev) = Ok c).
  { rewrite <- Hn. rewrite (_norm_lib_first_device fields dev others Hdev).
    apply _norm_lib_one_device. }
  assert (F : _norm_swift (PDict dev) = Ok c).
  { rewrite (normalisers_agree dev Hs). exact L. }
  assert (W : _norm_swift (PDict [("device", PDict dev)]) = Ok c).
  { rewrite <- F. rewrite (_norm_swift_device [("device", PDict dev)] dev eq_refl).
    symmetry. apply _norm_swift_flat.
    unfold libmtp_schema in Hs. apply andb_prop in Hs. destruct Hs as [Hk _].
    cbn [forallb] in Hk. apply andb_prop in Hk. destruct Hk as [K1 _].
    apply dict_has_false. exact K1. }
  split; [unfold _normalise_device; rewrite Hn, F; reflexivity|].
  split; [unfold _normalise_device; rewrite Hn, W; reflexivity|].
  apply _diff_device_self; [exact (_norm_lib_canonical _ _ Hn) | exact Hp].
Qed.

Lemma same_record_on_both_sides_has_no_device_diff_witness :
  let dev :=
    [("manufacturer", PStr "Google"); ("model", PStr "Pixel 7");
     ("serial", PStr "2A111FDH200ABC"); ("firmware", PStr "1.0");
     ("storages", PList [PDict [("id", PInt 65537);
                                ("description", PStr "Internal storage");
                                ("capacity_bytes", PInt 64000000000);
                                ("free_bytes", PInt 1000)]])] in
  let libmtp_detect :=
    [("devices", PList [PDict dev]); ("_source", PStr "mtp-detect")] in
  exists c, _normalise_device (PDict libmtp_detect) (PDict dev) = Ok (c, c) /\
            _diff_device c c = [].
Proof.
  intros dev libmtp_detect. eexists.
  destruct (same_record_on_both_sides_has_no_device_diff libmtp_detect dev _ []
              eq_refl eq_refl eq_refl eq_refl) as [A [_ B]].
  split; [exact A | exact B].
Defined.

(* ===================================================================== *)
(** ** One side without files *)
(* ===================================================================== *)

Lemma concat_singletons {A B : Type} (g : A -> B) (l : list A) :
  List.concat (map (fun x => [g x]) l) = map g l.
Proof.
  induction l as [|x l IH]; cbn [map List.concat app]; [reflexivity | rewrite IH; reflexivity].
Qed.

Lemma last_with_path_found (files : list pydict) (p : string) :
  In p (path_strings files) ->
  exists a, last_with_path (PStr p) files = Some a /\ In a files /\
            str_path a = Some p.
Proof.
  intro H. apply path_strings_In in H. destruct H as [f [Hf Pf]].
  unfold last_with_path.
  destruct (find (has_path (PStr p)) (rev files)) as [g|] eqn:F.
  - exists g. split; [reflexivity|]. apply find_some in F. destruct F as [Hg Pg].
    split; [apply in_rev; exact Hg | apply has_path_str; exact Pg].
  - exfalso. assert (E : has_path (PStr p) f = false).
    { apply (find_none _ _ F). apply in_rev in Hf. exact Hf. }
    apply has_path_str in Pf. congruence.
Qed.

(** X10.  Against an empty file list (the other tool delivered nothing),
    [_diff_files] reports every path of the list, each once and in
    ascending order: one whole-file entry per path, with the last record of
    the path on its side and [None] on the empty side. *)
Theorem empty_side_reports_every_file (files : list pydict) (ts_tol : Z) :
  str_paths files = true ->
  exists paths,
    StronglySorted (fun p q => (p <? q)%string = true) paths /\
    (forall p, In p paths <-> In p (path_strings files)) /\
    (forall p, In p paths ->
       exists a, last_with_path (PStr p) files = Some a /\ In a files /\
                 str_path a = Some p) /\
    _diff_files files [] ts_tol =
      Ok (map (fun p => file_entry p
                          (record_or_none (last_with_path (PStr p) files)) PNone)
              paths) /\
    _diff_files [] files ts_tol =
      Ok (map (fun p => file_entry p PNone
                          (record_or_none (last_with_path (PStr p) files)))
              paths).
Proof.
  intro Sp. exists (visited files []).
  assert (Hin : forall p, In p (visited files []) <-> In p (path_strings files)).
  { intro p. rewrite visited_In.
    change (path_strings []) with (@nil string). cbn [In]. tauto. }
  assert (V : visited [] files = visited files []).
  { unfold visited. apply sorted_str_canonical; try apply NoDup_nodup.
    intro p. rewrite !str_union_In. tauto. }
  destruct (path_map_str files Sp) as [m [? [Hm _]]].
  assert (He : path_map [] = Ok []) by reflexivity.
  split; [apply visited_ascending|]. split; [exact Hin|]. split.
  { intros p Hp. apply last_with_path_found, Hin, Hp. }
  split.
  - rewrite (_diff_files_visits files [] ts_tol m [] Sp eq_refl Hm He).
    rewrite (map_res_pure (diff_path m [] ts_tol)
               (fun k => [file_entry (py_str k)
                            (record_or_none (last_with_path k files)) PNone])).
    + cbn [bind]. rewrite map_map. f_equal.
      exact (concat_singletons
               (fun p => file_entry p
                           (record_or_none (last_with_path (PStr p) files)) PNone)
               (visited files [])).
    + intros k Hk. apply in_map_iff in Hk. destruct Hk as [p [<- Hp]].
      destruct (last_with_path_found files p (proj1 (Hin p) Hp)) as [a [Ea _]].
      unfold diff_path. rewrite (path_map_lookup _ _ (PStr p) Hm eq_refl), Ea.
      reflexivity.
  - rewrite (_diff_files_visits [] files ts_tol [] m eq_refl Sp He Hm), V.
    rewrite (map_res_pure (diff_path [] m ts_tol)
               (fun k => [file_entry (py_str k) PNone
                            (record_or_none (last_with_path k files))])).
    + cbn [bind]. rewrite map_map. f_equal.
      exact (concat_singletons
               (fun p => file_entry p PNone
                           (record_or_none (last_with_path (PStr p) files)))
               (visited files [])).
    + intros k Hk. apply in_map_iff in Hk. destruct Hk as [p [<- Hp]].
      unfold diff_path. cbn [amap_get].
      rewrite (path_map_lookup _ _ (PStr p) Hm eq_refl). reflexivity.
Qed.

Lemma empty_side_reports_every_file_witness :
  let r (p : string) (size : Z) := [("path", PStr p); ("size_bytes", PInt size)] in
  let files := [r "b.txt" 2; r "a.txt" 1; r "b.txt" 3] in
  str_paths files = true /\
  exists paths,
    (forall p, In p paths <-> In p ["b.txt"; "a.txt"; "b.txt"]) /\
    _diff_files files [] 120 =
      Ok (map (fun p => file_entry p
                          (record_or_none (last_with_path (PStr p) files)) PNone)
              paths).
Proof.
  intros r files. split; [reflexivity|].
  destruct (empty_side_reports_every_file files 120 eq_refl)
    as [paths [_ [I [_ [A _]]]]].
  exists paths. split; [exact I | exact A].
Defined.

(** Two records of one path: the last one is reported, the path once. *)
Example empty_side_two_records_of_one_path :
  let r (p : string) (size : Z) := [("path", PStr p); ("size_bytes", PInt size)] in
  _diff_files [r "b.txt" 2; r "a.txt" 1; r "b.txt" 3] [] 120 =
  Ok [mkDiffEntry "file.a.txt" (PDict (r "a.txt" 1)) PNone (PStr "unknown") (PStr "");
      mkDiffEntry "file.b.txt" (PDict (r "b.txt" 3)) PNone (PStr "unknown") (PStr "")].
Proof. reflexivity. Qed.
